(** * Faceit keyframe transcoding: a shallow embedding of the curve-remapping code

    The development follows the Python sources of the add-on:
    - [ctrl_rig/control_rig_bake_utils.py] (range remapping, motion-data
      dictionary, frame offsets),
    - [animate/anim_utils.py] (f-curve lookup),
    - [animate/animate_operators.py] (mirror names, expression list,
      preset import and export).

    Conventions of the embedding.
    - A numpy keyframe array of shape (n, 2) is a list of rows
      [(frame, value)].  Numbers are exact rationals ([Q]); the code
      computes in binary floating point, which the model idealises.
    - Python strings are [string]; [x in s], [s.endswith(x)] and
      [s.replace(old, new)] are written out in [PyStr].
    - A call that may raise returns a [result]: [Ok v] or [Raise e] with
      the Python exception [e].
    - A function of a module that is not among the sources is a parameter
      of the definitions that call it. *)

From Stdlib Require Import QArith Qround ZArith String Ascii List Bool Lia Lqa DecimalString.
From Stdlib Require DecimalZ DecimalPos.
From stdpp Require Import gmap strings list pretty sorting.
Import ListNotations.

Local Open Scope string_scope.
Local Open Scope list_scope.

(** ** Python string primitives *)

Module PyStr.

(** [sub in s] *)
Fixpoint contains (sub s : string) : bool :=
  String.prefix sub s ||
  match s with
  | EmptyString => false
  | String _ s' => contains sub s'
  end.

(** [s.endswith(suf)] *)
Definition endswith (s suf : string) : bool :=
  (String.length suf <=? String.length s)%nat &&
  String.eqb (String.substring (String.length s - String.length suf) (String.length suf) s) suf.

(** [s.replace(old, new)] for a non-empty [old]: every occurrence, scanning
    from the left without overlaps.  [skip] counts the characters of the
    occurrence being replaced that are still to be dropped. *)
Fixpoint replace_from (old new s : string) (skip : nat) : string :=
  match s with
  | EmptyString => EmptyString
  | String c s' =>
      match skip with
      | S k => replace_from old new s' k
      | O =>
          if String.prefix old s
          then String.append new (replace_from old new s' (String.length old - 1))
          else String c (replace_from old new s' 0)
      end
  end.

Definition replace (s old new : string) : string := replace_from old new s 0.

End PyStr.

(** ** Python dictionaries with their insertion order

    The loops of the add-on iterate over dictionaries, so these are
    association lists: assignment to a present key keeps its position, a
    new key goes last. *)

Fixpoint od_get {V : Type} (k : string) (d : list (string * V)) : option V :=
  match d with
  | [] => None
  | (k', v) :: d' => if String.eqb k k' then Some v else od_get k d'
  end.

Fixpoint od_set {V : Type} (k : string) (v : V) (d : list (string * V)) : list (string * V) :=
  match d with
  | [] => [(k, v)]
  | (k', v') :: d' => if String.eqb k k' then (k, v) :: d' else (k', v') :: od_set k v d'
  end.

(** [d.setdefault(k, []).append(x)] *)
Fixpoint od_append {V : Type} (k : string) (x : V) (d : list (string * list V))
  : list (string * list V) :=
  match d with
  | [] => [(k, [x])]
  | (k', l) :: d' =>
      if String.eqb k k' then (k, l ++ [x]) :: d' else (k', l) :: od_append k x d'
  end.

(** ** Python results and the host's animation data *)

Inductive py_exn : Type :=
| UnboundLocalError
| ZeroDivisionError
| TypeError
| ValueError
| IndexError
| KeyError
| AttributeError.

Inductive result (A : Type) : Type :=
| Ok (a : A)
| Raise (e : py_exn).

Arguments Ok {A} a.
Arguments Raise {A} e.

#[global] Instance result_ret : MRet result := fun A a => Ok a.
#[global] Instance result_bind : MBind result := fun A B k r =>
  match r with
  | Ok a => k a
  | Raise e => Raise e
  end.

Module Host.

(** A key frame point: [co] is (frame, value). *)
Record keyframe : Type := Keyframe {
  co : Q * Q;
  interpolation : string
}.

Record fcurve : Type := FCurve {
  data_path : string;
  array_index : Z;
  keyframe_points : list keyframe
}.

(** An action: the legacy [action.fcurves] and, for slotted actions, the
    channel bag (its f-curves) that [action_get_channelbag_for_slot] finds
    for a slot handle. *)
Record action : Type := Action {
  fcurves : list fcurve;
  channelbags : list (Z * list fcurve)
}.

Record anim_data : Type := AnimData {
  adt_action : option action;
  action_slot : option Z
}.

(** An ID data block as far as its animation goes. *)
Record ID : Type := MkID {
  animation_data : option anim_data
}.

(** [bpy.app.version >= (4, 4, 0)] on version triples. *)
Definition version_ge (v w : Z * Z * Z) : bool :=
  let '(a, b, c) := v in
  let '(a', b', c') := w in
  (a' <? a)%Z || ((a =? a')%Z && ((b' <? b)%Z || ((b =? b')%Z && (c' <=? c)%Z))).

(** [anim_utils.action_get_channelbag_for_slot(action, slot)] *)
Fixpoint channelbag_of (bags : list (Z * list fcurve)) (handle : Z) : option (list fcurve) :=
  match bags with
  | [] => None
  | (h, fcs) :: bags' => if (h =? handle)%Z then Some fcs else channelbag_of bags' handle
  end.

Definition action_get_channelbag_for_slot (a : action) (slot : option Z)
  : option (list fcurve) :=
  match slot with
  | Some handle => channelbag_of (channelbags a) handle
  | None => None
  end.

End Host.

(** ** animate/anim_utils.py *)

Module AnimUtils.
Import Host.

(** [get_active_animation_fcurves_from_id], lines 23-51.  The local
    [fcurves] is only bound on some paths; [return fcurves] on another
    path raises [UnboundLocalError]. *)
Definition get_active_animation_fcurves_from_id (version : Z * Z * Z) (id : option ID)
  : result (list fcurve) :=
  match id with
  | None => Ok []
  | Some id =>
      match animation_data id with
      | None => Ok []
      | Some adt =>
          match adt_action adt with
          | None => Ok []
          | Some action =>
              let fcurves : option (list fcurve) :=
                if version_ge version (4, 4, 0)%Z
                then
                  match action_slot adt with
                  | None => None
                  | Some _ as slot =>
                      match action_get_channelbag_for_slot action slot with
                      | Some channelbag => Some channelbag
                      | None => None
                      end
                  end
                else Some (Host.fcurves action) in
              match fcurves with
              | Some fcurves => Ok fcurves
              | None => Raise UnboundLocalError
              end
          end
      end
  end.

(** [get_fcurves_from_slot], lines 90-110.  [_ensure_channelbag_exists] is
    the host's: it is a parameter giving the f-curves of the bag it makes. *)
Definition get_fcurves_from_slot
  (_ensure_channelbag_exists : action -> option Z -> result (list fcurve))
  (version : Z * Z * Z) (a : action) (slot : option Z) (ensure : bool)
  : result (list fcurve) :=
  if version_ge version (4, 4, 0)%Z
  then
    match action_get_channelbag_for_slot a slot with
    | Some channelbag => Ok channelbag
    | None =>
        if ensure
        then _ensure_channelbag_exists a slot
        else Raise UnboundLocalError
    end
  else Ok (Host.fcurves a).

End AnimUtils.

(** ** animate/animate_operators.py: sides and mirror names *)

Module Mirror.

Definition mirror_sides_dict_L : list (string * string) :=
  [("left", "right"); ("Left", "Right"); ("LEFT", "RIGHT")].
Definition mirror_sides_end_L : list (string * string) :=
  [("L", "R"); ("_l", "_r")].
Definition mirror_sides_dict_R : list (string * string) :=
  [("right", "left"); ("Right", "Left"); ("RIGHT", "LEFT")].
Definition mirror_sides_end_R : list (string * string) :=
  [("R", "L"); ("_r", "_l")].

(** [get_side], lines 57-68. *)
Definition get_side (expression_name : string) : string :=
  if existsb (fun x => PyStr.contains (fst x) expression_name) mirror_sides_dict_L
     || existsb (fun x => PyStr.endswith expression_name (fst x)) mirror_sides_end_L
  then "L"
  else if existsb (fun x => PyStr.contains (fst x) expression_name) mirror_sides_dict_R
          || existsb (fun x => PyStr.endswith expression_name (fst x)) mirror_sides_end_R
  then "R"
  else "N".

(** The two [for key, value in ....items()] loops of one side: the first
    key that matches decides, and [replace] rewrites every occurrence. *)
Fixpoint first_replace (test : string -> string -> bool) (items : list (string * string))
  (expression_name : string) : option string :=
  match items with
  | [] => None
  | (key, value) :: items' =>
      if test key expression_name
      then Some (PyStr.replace expression_name key value)
      else first_replace test items' expression_name
  end.

Definition mirror_with (dict_side end_side : list (string * string))
  (expression_name : string) : option string :=
  match first_replace PyStr.contains dict_side expression_name with
  | Some m => Some m
  | None => first_replace (fun key s => PyStr.endswith s key) end_side expression_name
  end.

(** [get_mirror_name], lines 84-102. *)
Definition get_mirror_name (side expression_name : string) : string :=
  match (if String.eqb side "L"
         then mirror_with mirror_sides_dict_L mirror_sides_end_L expression_name
         else None) with
  | Some m => m
  | None =>
      match (if String.eqb side "R"
             then mirror_with mirror_sides_dict_R mirror_sides_end_R expression_name
             else None) with
      | Some m => m
      | None => EmptyString
      end
  end.

End Mirror.

(** ** ctrl_rig/control_rig_bake_utils.py *)

Module Bake.

Abbreviation row := (Q * Q)%type.
Abbreviation kf_array := (list (Q * Q)).

(** [scale_to_new_range], lines 20-54.  The reassignments of [max_range]
    and [min_range] are kept as successive bindings.  The returned array is
    fresh ([np.vstack]). *)
Definition scale_to_new_range (kf_data : kf_array)
  (min_range max_range sk_max sk_min : Q) (range : string)
  (main_dir : Z) (is_scale : bool) (amplify_compensation : Q) : kf_array :=
  let frames := map fst kf_data in
  let data := map (fun r => snd r / amplify_compensation)%Q kf_data in
  let max_range :=
    if String.eqb range "pos" then max_range
    else if String.eqb range "neg" then min_range
    else max_range in
  let max_range :=
    if String.eqb range "all"
    then (if Z.eqb main_dir (-1) then min_range else max_range)
    else max_range in
  let min_range := if is_scale then 1%Q else 0%Q in
  let scaled_data :=
    map (fun d => ((max_range - min_range) * (d - sk_min) / (sk_max - sk_min)) + min_range)%Q
        data in
  combine frames scaled_data.

(** numpy arrays are mutable objects that several dictionary entries may
    share: a store of arrays addressed by references. *)
Abbreviation ref := nat.
Abbreviation store := (list (list (Q * Q))).

Definition alloc (a : kf_array) (st : store) : ref * store := (length st, st ++ [a]).

(** The value stored per f-curve identifier, lines 80-84. *)
Record motion_entry : Type := MotionEntry {
  data_path : string;
  array_index : Z;
  kf_data : ref
}.

Abbreviation motion_dict := (list (string * motion_entry)).

(** [array_index] as [get_bone_animation_data] hands it over: one integer
    or an iterable of integers (line 64). *)
Inductive py_index : Type :=
| Single (i : Z)
| Many (l : list Z).

Definition str_of_Z (i : Z) : string := pretty i.

(** ['{}_{}'.format(dp, i)], line 68. *)
Definition fcurve_identifier (dp : string) (i : Z) : string :=
  String.append dp (String.append "_" (str_of_Z i)).

(** [a[:, 1] += b[:, 1]] on two arrays: element-wise for equal row counts,
    a one-row [b] is broadcast, every other shape raises [ValueError]. *)
Definition iadd_values (a b : kf_array) : option kf_array :=
  if (length b =? length a)%nat
  then Some (zip_with (fun ra rb => (fst ra, snd ra + snd rb)%Q) a b)
  else match b with
       | [rb] => Some (map (fun ra => (fst ra, snd ra + snd rb)%Q) a)
       | _ => None
       end.

(** Loop body of [populate_motion_data_dict], lines 66-84.  The [except
    ValueError] branch only prints. *)
Definition populate_one (dp : string) (new_kf_data : ref) (i : Z)
  (s : motion_dict * store) : motion_dict * store :=
  let '(bone_motion_data, st) := s in
  let fcurve_identifier := fcurve_identifier dp i in
  match od_get fcurve_identifier bone_motion_data with
  | Some motion_data =>
      if negb (PyStr.contains "scale" dp)
      then
        match st !! kf_data motion_data, st !! new_kf_data with
        | Some a, Some b =>
            match iadd_values a b with
            | Some a' => (bone_motion_data, <[kf_data motion_data := a']> st)
            | None => (bone_motion_data, st)
            end
        | _, _ => (bone_motion_data, st)
        end
      else (od_set fcurve_identifier (MotionEntry dp i new_kf_data) bone_motion_data, st)
  | None => (od_set fcurve_identifier (MotionEntry dp i new_kf_data) bone_motion_data, st)
  end.

(** [populate_motion_data_dict], lines 57-84, with the dictionary and the
    array store threaded through. *)
Definition populate_motion_data_dict (dp : string) (array_index : py_index)
  (new_kf_data : ref) (is_scale : bool) (bone_motion_data : motion_dict) (st : store)
  : motion_dict * store :=
  let array_index :=
    if is_scale then [0; 1; 2]%Z
    else match array_index with
         | Single i => [i]
         | Many l => l
         end in
  fold_left (fun s i => populate_one dp new_kf_data i s) array_index (bone_motion_data, st).

(** One entry of [arkit_curves_values] together with what the host returns
    for it inside the loop of lines 136-169: the key frames of the shape-key
    f-curve ([kf_data_to_numpy_array]), the tuple of
    [get_bone_animation_data] and the two amplify values. *)
Record shape_curve : Type := ShapeCurve {
  sc_keyframes : kf_array;
  sc_dp : string;
  sc_array_index : py_index;
  sc_max_range : Q;
  sc_min_range : Q;
  sc_value_range : string;
  sc_main_dir : Z;
  sc_amplify : Q;
  sc_arkit_amplify : option Q
}.

(** Body of the loop of lines 136-169. *)
Definition collect_one (compensate_amplify_values compensate_arkit_amplify_values : bool)
  (s : motion_dict * store) (c : shape_curve) : motion_dict * store :=
  let '(bone_motion_data, st) := s in
  let kf_data := sc_keyframes c in
  let dp := sc_dp c in
  let sk_max := 1%Q in
  let sk_min := 0%Q in
  let is_scale := PyStr.contains "scale" dp in
  let amp_factor := 1%Q in
  let amp_factor :=
    if compensate_amplify_values then (amp_factor * sc_amplify c)%Q else amp_factor in
  let amp_factor :=
    if compensate_arkit_amplify_values
    then match sc_arkit_amplify c with
         | Some amplify => (amp_factor * amplify)%Q
         | None => amp_factor
         end
    else amp_factor in
  let scaled_kf_data :=
    scale_to_new_range kf_data (sc_min_range c) (sc_max_range c) sk_max sk_min
      (sc_value_range c) (sc_main_dir c) is_scale amp_factor in
  let '(r, st) := alloc scaled_kf_data st in
  populate_motion_data_dict dp (sc_array_index c) r is_scale bone_motion_data st.

(** A call of [populate_keyframe_points_from_np_array] on the f-curve
    [(dp, array_index)] of the target action: the host's keyframe store is
    written through it only. *)
Record keyframe_write : Type := KeyframeWrite {
  w_data_path : string;
  w_array_index : option Z;
  w_rows : kf_array;
  w_add : bool;
  w_join_with_existing : bool
}.

(** [data[:, 0] += offset], in place on the array behind [r]. *)
Definition iadd_frames (r : ref) (offset : Q) (st : store) : store :=
  <[r := map (fun rw => (fst rw + offset, snd rw)%Q) (st !!! r)]> st.

(** [np.copy(data)] *)
Definition np_copy (r : ref) (st : store) : ref * store := alloc (st !!! r) st.

(** Loop of lines 172-185. *)
Fixpoint write_motion_data (items : motion_dict) (mix_method : string) (frame_start : Z)
  (st : store) : list keyframe_write * store :=
  match items with
  | [] => ([], st)
  | (_bone_name, motion_data) :: items' =>
      let data := kf_data motion_data in
      let '(data_copy, st) := np_copy data st in
      let st := iadd_frames data_copy (inject_Z frame_start) st in
      let w := KeyframeWrite (data_path motion_data) (Some (array_index motion_data))
                 (st !!! data_copy) true (String.eqb mix_method "MIX") in
      let '(ws, st) := write_motion_data items' mix_method frame_start st in
      (w :: ws, st)
  end.

(** The dictionary of motion data collected by lines 133-169. *)
Definition collect_motion_data (curves : list shape_curve)
  (compensate_amplify_values compensate_arkit_amplify_values : bool) : motion_dict * store :=
  fold_left (collect_one compensate_amplify_values compensate_arkit_amplify_values)
    curves ([], []).

(** [bake_shape_keys_to_ctrl_rig], lines 87-185, from [arkit_curves_values]
    on; the result is the list of writes to the target action. *)
Definition bake_shape_keys_to_ctrl_rig (source_action target_action : bool)
  (curves : list shape_curve) (mix_method : string)
  (compensate_amplify_values compensate_arkit_amplify_values : bool) (frame_start : Z)
  : list keyframe_write :=
  if negb source_action then []
  else if negb target_action then []
  else
    let '(bone_motion_data, st) :=
      collect_motion_data curves compensate_amplify_values compensate_arkit_amplify_values in
    fst (write_motion_data bone_motion_data mix_method frame_start st).

(** The shape-key data block of a target object: the data paths of its
    drivers ([None] when it has no animation data) and the value
    [path_resolve] gives once the scene is set to a frame. *)
Record shape_key_id : Type := ShapeKeyId {
  sk_drivers : option (list string);
  sk_resolve : Q -> string -> Q
}.

(** Lines 222-231 for one object; [None] is an object without shape keys. *)
Definition sample_object (fr : Q) (s : list string * list (string * kf_array))
  (obj : option shape_key_id) : list string * list (string * kf_array) :=
  match obj with
  | Some sk_id =>
      match sk_drivers sk_id with
      | Some drivers =>
          fold_left
            (fun '(processed_data_paths, anim_data_dict) dp =>
               if existsb (String.eqb dp) processed_data_paths
               then (processed_data_paths, anim_data_dict)
               else (processed_data_paths ++ [dp],
                     od_append dp (fr, sk_resolve sk_id fr dp) anim_data_dict))
            drivers s
      | None => s
      end
  | None => s
  end.

(** Lines 217-231. *)
Definition sample_frames (all_frames : list Q) (target_objects : list (option shape_key_id))
  : list (string * kf_array) :=
  fold_left
    (fun anim_data_dict fr =>
       snd (fold_left (sample_object fr) target_objects ([], anim_data_dict)))
    all_frames [].

(** Lines 234-246: each sampled list becomes a fresh array whose frame
    column is shifted before it is written. *)
Definition write_anim_data (anim_data_dict : list (string * kf_array)) (mix_method : string)
  (start_frame : Z) : list keyframe_write :=
  map (fun '(dp, anim_data) =>
         let data := map (fun rw => (fst rw + inject_Z start_frame, snd rw)%Q) anim_data in
         KeyframeWrite dp None data true (String.eqb mix_method "MIX"))
      anim_data_dict.

(** [bake_ctrl_rig_animation_to_shape_keys], lines 188-246, from the set
    [all_frames] (in its iteration order) on. *)
Definition bake_ctrl_rig_animation_to_shape_keys (all_frames : list Q)
  (target_objects : list (option shape_key_id)) (mix_method : string) (start_frame : Z)
  : list keyframe_write :=
  write_anim_data (sample_frames all_frames target_objects) mix_method start_frame.

(** The claim of C8 read literally, for a call with a single array index:
    whenever the data path has no ['scale'] in it and the pair is present
    with as many rows as the new array, the stored values become the sums. *)
Definition sums_into_present_entry (dp : string) (i : Z) (new_kf_data : ref)
  (is_scale : bool) (bone_motion_data : motion_dict) (st : store) : Prop :=
  forall e a b,
    PyStr.contains "scale" dp = false ->
    od_get (fcurve_identifier dp i) bone_motion_data = Some e ->
    st !! kf_data e = Some a ->
    st !! new_kf_data = Some b ->
    length a = length b ->
    exists a',
      snd (populate_motion_data_dict dp (Single i) new_kf_data is_scale bone_motion_data st)
        !! kf_data e = Some a'
      /\ map fst a' = map fst a
      /\ Forall2 Qeq (map snd a') (zip_with Qplus (map snd a) (map snd b)).

(** What the collecting loop maintains: every entry points into the store,
    and every stored array has the frame column of one of the source
    curves. *)
Definition motion_inv (curves : list shape_curve) (s : motion_dict * store) : Prop :=
  (forall k e, In (k, e) (fst s) -> (kf_data e < length (snd s))%nat)
  /\ (forall r a, snd s !! r = Some a ->
        exists c, In c curves /\ map fst a = map fst (sc_keyframes c)).

End Bake.

(** ** animate/animate_operators.py: importing a preset *)

Module Append.
Import Host.

(** Lines 921-928: [new_frames] and the sorted [zero_frames]. *)
Definition new_frames (new_expression_count : nat) : list Z :=
  map (fun i => ((Z.of_nat i + 1) * 10)%Z) (seq 0 new_expression_count).

Definition zero_frames_set (new_expression_count : nat) : gset Z :=
  fold_left
    (fun zero_frames i =>
       let frame := ((Z.of_nat i + 1) * 10)%Z in
       zero_frames ∪ {[ (frame + 1)%Z; (frame - 9)%Z ]})
    (seq 0 new_expression_count) ∅.

Definition zero_frames (new_expression_count : nat) : list Z :=
  merge_sort Z.le (elements (zero_frames_set new_expression_count)).

(** [default[i]] for the [default] of lines 1006-1022: [None] is not
    subscriptable. *)
Definition default_at (default : option (list Q)) (i : nat) : result Q :=
  match default with
  | None => Raise TypeError
  | Some l =>
      match l !! i with
      | Some d => Ok d
      | None => Raise IndexError
      end
  end.

(** [np.vstack((np.array(data), kf_zero_data))]: an empty [kf_zero_data]
    has no second dimension and cannot be stacked under rows. *)
Definition vstack (data kf_zero_data : list (Q * Q)) : result (list (Q * Q)) :=
  match kf_zero_data with
  | [] => Raise ValueError
  | _ => Ok (data ++ kf_zero_data)
  end.

(** [fcurves.find(data_path=dp, index=i)]: the position of the curve. *)
Fixpoint find_fcurve (fcs : list fcurve) (dp : string) (i : Z) : option nat :=
  match fcs with
  | [] => None
  | fc :: fcs' =>
      if String.eqb (data_path fc) dp && (array_index fc =? i)%Z
      then Some 0%nat
      else S <$> find_fcurve fcs' dp i
  end.

(** Lines 1086-1087. *)
Definition set_linear (fc : fcurve) : fcurve :=
  FCurve (data_path fc) (array_index fc)
    (map (fun kf => Keyframe (co kf) "LINEAR") (keyframe_points fc)).

Section ChannelLoop.

(** [fc_dr_utils.populate_keyframe_points_from_np_array(fc, kf_data, add=True)]
    belongs to the keyframe store; it is a parameter. *)
Variable populate_keyframe_points_from_np_array : fcurve -> list (Q * Q) -> fcurve.

(** Body of the loop of lines 1073-1087 on the f-curves of the temporary
    action. *)
Definition populate_channel (dp : string)
  (data_per_array_index : list (string * list (Q * Q))) (default : option (list Q))
  (zero_frames : list Z) (fcs : list fcurve) (i : nat) : result (list fcurve) :=
  let data := od_get (pretty (Z.of_nat i)) data_per_array_index in
  let '(k, fcs) :=
    match find_fcurve fcs dp (Z.of_nat i) with
    | Some k => (k, fcs)
    | None => (length fcs, fcs ++ [FCurve dp (Z.of_nat i) []])
    end in
  kf_zero_data ← mapM (fun f => d ← default_at default i; Ok (inject_Z f, d)) zero_frames;
  kf_data ← match data with
            | Some ((_ :: _) as data) => vstack data kf_zero_data
            | _ => Ok kf_zero_data
            end;
  Ok (alter (fun fc => set_linear (populate_keyframe_points_from_np_array fc kf_data)) k fcs).

(** Lines 1073-1087. *)
Fixpoint populate_channels_from (dp : string)
  (data_per_array_index : list (string * list (Q * Q))) (default : option (list Q))
  (zero_frames : list Z) (indices : list nat) (fcs : list fcurve) : result (list fcurve) :=
  match indices with
  | [] => Ok fcs
  | i :: indices' =>
      fcs ← populate_channel dp data_per_array_index default zero_frames fcs i;
      populate_channels_from dp data_per_array_index default zero_frames indices' fcs
  end.

Definition populate_channels (dp : string)
  (data_per_array_index : list (string * list (Q * Q))) (default : option (list Q))
  (channels : nat) (new_expression_count : nat) (fcs : list fcurve) : result (list fcurve) :=
  populate_channels_from dp data_per_array_index default (zero_frames new_expression_count)
    (seq 0 channels) fcs.

End ChannelLoop.

(** [int(i)] on a key of the JSON object. *)
Definition py_int (s : string) : result Z :=
  match NilZero.int_of_string s with
  | Some n => Ok (Z.of_int n)
  | None => Raise ValueError
  end.

Fixpoint foldlM {A B : Type} (f : B -> A -> result B) (l : list A) (b : B) : result B :=
  match l with
  | [] => Ok b
  | a :: l' => b' ← f b a; foldlM f l' b'
  end.

(** [frames_dict[frame][i] = value] with [frames_dict[frame] = {}] first
    when the frame is new, lines 1044-1046.  Frames are compared as
    numbers. *)
Fixpoint fd_set (frame : Q) (i : Z) (value : Q) (frames_dict : list (Q * gmap Z Q))
  : list (Q * gmap Z Q) :=
  match frames_dict with
  | [] => [(frame, {[ i := value ]})]
  | (f, value_dict) :: frames_dict' =>
      if Qeq_bool frame f
      then (f, <[ i := value ]> value_dict) :: frames_dict'
      else (f, value_dict) :: fd_set frame i value frames_dict'
  end.

(** Lines 1040-1046. *)
Definition frames_dict_of (data_per_array_index : list (string * list (Q * Q)))
  : result (list (Q * gmap Z Q)) :=
  foldlM
    (fun frames_dict '(i, frame_value_list) =>
       i ← py_int i;
       Ok (fold_left (fun fd '(frame, value) => fd_set frame i value fd)
             frame_value_list frames_dict))
    data_per_array_index [].

(** Lines 1050-1057: the rotation vector of one frame.  [if val:] is the
    truth value of the number read. *)
Definition rot_value_of (channels : nat) (default : option (list Q)) (value_dict : gmap Z Q)
  : result (list Q) :=
  mapM
    (fun i =>
       match value_dict !! Z.of_nat i with
       | Some val => if Qeq_bool val 0 then default_at default i else Ok val
       | None => default_at default i
       end)
    (seq 0 channels).

Section Rotation.

(** [a_utils.convert_rotation_values(a_utils.get_value_as_rotation(rot_mode_from, v),
    rot_mode_from, rot_mode_to)[:]] for the two modes at hand: the host's
    rotation arithmetic, a parameter. *)
Variable convert_rotation_values : list Q -> list Q.

(** Lines 1049-1065 for one frame. *)
Definition convert_frame (channels : nat) (default : option (list Q))
  (data_per_array_index : list (string * list (Q * Q))) (item : Q * gmap Z Q)
  : result (list (string * list (Q * Q))) :=
  let '(frame, value_dict) := item in
  rot_value ← rot_value_of channels default value_dict;
  let new_rot_value := convert_rotation_values rot_value in
  Ok (fold_left
        (fun d '(i, value) => od_append (pretty (Z.of_nat i)) (frame, value) d)
        (imap (fun i value => (i, value)) new_rot_value) data_per_array_index).

(** Lines 1040-1065: the data of a channel group rewritten for the rotation
    mode of the bone. *)
Definition convert_rotation_data (channels : nat) (default : option (list Q))
  (data_per_array_index : list (string * list (Q * Q)))
  : result (list (string * list (Q * Q))) :=
  frames_dict ← frames_dict_of data_per_array_index;
  foldlM (convert_frame channels default) frames_dict [].

End Rotation.

(** A pose bone of the rig: its name and the translation of its rest
    matrix ([pb.bone.matrix_local.translation]). *)
Record pose_bone : Type := PoseBone {
  pb_name : string;
  pb_translation : Q * Q * Q
}.

(** [max(l)] and [min(l)]; both raise on an empty list. *)
Definition py_max (l : list Q) : result Q :=
  match l with
  | [] => Raise ValueError
  | x :: l' => Ok (fold_left (fun m y => if Qle_bool y m then m else y) l' x)
  end.

Definition py_min (l : list Q) : result Q :=
  match l with
  | [] => Raise ValueError
  | x :: l' => Ok (fold_left (fun m y => if Qle_bool m y then m else y) l' x)
  end.

(** [l[i]] *)
Definition item_at (l : list Q) (i : nat) : result Q :=
  match l !! i with
  | Some x => Ok x
  | None => Raise IndexError
  end.

(** [a / b] on Python floats. *)
Definition py_div (a b : Q) : result Q :=
  if Qeq_bool b 0 then Raise ZeroDivisionError else Ok (a / b)%Q.

Definition dimensions_of (points : list (Q * Q * Q)) : result (list Q) :=
  let x_values := map (fun p => fst (fst p)) points in
  let y_values := map (fun p => snd (fst p)) points in
  let z_values := map snd points in
  max_x ← py_max x_values; min_x ← py_min x_values;
  max_y ← py_max y_values; min_y ← py_min y_values;
  max_z ← py_max z_values; min_z ← py_min z_values;
  Ok [max_x - min_x; max_y - min_y; max_z - min_z]%Q.

(** [get_import_rig_dimensions], lines 1134-1149, over the [rest_pose] of
    the file. *)
Definition get_import_rig_dimensions (rest_pose : gmap string (Q * Q * Q))
  (pose_bones : list pose_bone) : result (list Q) :=
  points ← mapM (fun pb => match rest_pose !! pb_name pb with
                           | Some values => Ok values
                           | None => Raise TypeError
                           end) pose_bones;
  dimensions_of points.

(** [get_rig_dimensions], lines 1151-1163. *)
Definition get_rig_dimensions (pose_bones : list pose_bone) : result (list Q) :=
  dimensions_of (map pb_translation pose_bones).

(** Lines 1124-1132 and 1170: the bones whose positions are compared.
    [FACEIT_CTRL_BONES] is a table of the add-on's data module. *)
Definition bone_dimensions_check (FACEIT_CTRL_BONES : list string) (rig_type : string)
  (pose_bones : list pose_bone) (rest_pose : gmap string (Q * Q * Q)) : list pose_bone :=
  let rigify := String.eqb rig_type "RIGIFY" || String.eqb rig_type "RIGIFY_NEW" in
  let skip_dimension_check : gset string :=
    if rigify then {[ "eye.L"; "eye.R"; "eyes"; "eye_common" ]} else ∅ in
  let facial_control_bones : gset string :=
    if rigify
    then list_to_set (filter (fun n => n ∈ FACEIT_CTRL_BONES) (map pb_name pose_bones))
    else list_to_set (map pb_name pose_bones) in
  let bone_dimensions_check := (facial_control_bones ∩ dom rest_pose) ∖ skip_dimension_check in
  filter (fun pb => pb_name pb ∈ bone_dimensions_check) pose_bones.

(** [l.index(0)] when [0] occurs in [l]. *)
Fixpoint index_of_zero (l : list Q) : nat :=
  match l with
  | [] => 0
  | x :: l' => if Qeq_bool x 0 then 0 else S (index_of_zero l')
  end.

(** The ['AUTO'] branch, lines 1165-1187: the scale factors, and whether
    the action is then scaled (line 1187). *)
Definition auto_action_scale (rest_pose : gmap string (Q * Q * Q))
  (bone_dimensions_check : list pose_bone) : result (list Q * bool) :=
  let action_scale := [1; 1; 1]%Q in
  match bone_dimensions_check with
  | [] => Ok (action_scale, false)
  | _ =>
      import_rig_dimensions ← get_import_rig_dimensions rest_pose bone_dimensions_check;
      let zero_dims := length (List.filter (fun x => Qeq_bool x 0) import_rig_dimensions) in
      import_rig_dimensions ←
        (if (zero_dims =? 0)%nat then Ok import_rig_dimensions
         else
           average ← py_div (fold_left Qplus import_rig_dimensions 0%Q)
                        (inject_Z (3 - Z.of_nat zero_dims));
           Ok (<[ index_of_zero import_rig_dimensions := average ]> import_rig_dimensions));
      rig_dim ← get_rig_dimensions bone_dimensions_check;
      action_scale ←
        mapM (fun i =>
                a ← item_at rig_dim i;
                b ← item_at import_rig_dimensions i;
                py_div a b) (seq 0 3);
      Ok (action_scale, negb (forallb (fun x => Qeq_bool x 1) action_scale))
  end.

(** A curve holds a key with value [d] on every frame of [zs], and all its
    keys are ['LINEAR']. *)
Definition keyed (zs : list Z) (d : Q) (fc : fcurve) : Prop :=
  (forall f, In f zs -> exists kf, In kf (keyframe_points fc) /\ co kf = (inject_Z f, d))
  /\ (forall kf, In kf (keyframe_points fc) -> interpolation kf = "LINEAR").

End Append.

(** ** animate/animate_operators.py: the loop over the data paths of a preset *)

Module ImportAction.
Import Host Append.

(** [s.replace(old, new)] for any [old]: an empty [old] matches before
    every character and at the end. *)
Fixpoint replace_empty (new s : string) : string :=
  match s with
  | EmptyString => new
  | String c s' => String.append new (String c (replace_empty new s'))
  end.

Definition py_replace (s old new : string) : string :=
  if String.eqb old EmptyString then replace_empty new s else PyStr.replace s old new.

(** The truth value of a string that may be [None]. *)
Definition truthy (s : option string) : bool :=
  match s with
  | Some s => negb (String.eqb s EmptyString)
  | None => false
  end.

(** The entries of [a_utils.parse_pose_bone_data_path(dp)] that are read. *)
Record parsed_data_path : Type := ParsedDataPath {
  bone_name : string;
  prop_name : option string;
  custom_prop_name : option string
}.

(** An RNA property as lines 1009-1013 and 1069-1071 read it. *)
Record rna_property : Type := RnaProperty {
  is_array : bool;
  default_array : list Q;
  prop_default : Q
}.

(** [custom_prop.as_dict().get("default")]: [None], an iterable or a
    number. *)
Inductive custom_default : Type :=
| NoDefault
| IterDefault (values : list Q)
| NumberDefault (value : Q).

(** What the loop asks of the rig and of the modules [a_utils] and
    [fdata], none of which is among the sources.  A pose bone stands for
    its name: [pose_bones] are the names of [rig.pose.bones] in order,
    [path_resolve] tells whether [rig.path_resolve(dp)] returns,
    [properties_get] is [pose_bone.bl_rna.properties.get(prop_name)],
    [custom_prop_default] is
    [pose_bone.id_properties_ui(custom_prop_name).as_dict().get("default")],
    and [convert_rotation rot_mode_from rot_mode_to v] is
    [a_utils.convert_rotation_values(a_utils.get_value_as_rotation(rot_mode_from, v),
    rot_mode_from, rot_mode_to)[:]]. *)
Record rig_host : Type := RigHost {
  parse_pose_bone_data_path : string -> parsed_data_path;
  get_rigify_bone_from_old_name : string -> string;
  pose_bones : list string;
  path_resolve : string -> bool;
  properties_get : string -> string -> option rna_property;
  custom_prop_default : string -> string -> custom_default;
  get_rotation_mode : string -> string;
  get_data_path_from_rotation_mode : string -> string;
  get_rotation_mode_from_data_path_val : string -> string;
  convert_rotation : string -> string -> list Q -> list Q
}.

(** [bone_name in rig.pose.bones] *)
Definition in_pose_bones (rig : rig_host) (bone_name : string) : bool :=
  existsb (String.eqb bone_name) (pose_bones rig).

(** Lines 977-984 and 985-992, for ['lip_end.L'] and ['lip_end.R']:
    [next(..., None)] may give [None], whose [name] is then read. *)
Definition lip_end_rename (rig : rig_host) (lip_end : string) (st : string * string)
  : result (string * string) :=
  let '(dp, bone_name) := st in
  if PyStr.contains lip_end bone_name
  then
    if in_pose_bones rig bone_name then Ok (dp, bone_name)
    else
      match List.find (String.prefix lip_end) (pose_bones rig) with
      | Some bone => Ok (py_replace dp bone_name bone, bone)
      | None => Raise AttributeError
      end
  else Ok (dp, bone_name).

(** What lines 966-1071 hand to the loop over the channels. *)
Record channel_group : Type := ChannelGroup {
  g_dp : string;
  g_data_per_array_index : list (string * list (Q * Q));
  g_default : option (list Q);
  g_channels : nat
}.

(** Lines 966-1071 for one item of [action_dict]; [None] is [continue]. *)
Definition prepare (rig : rig_host) (convert_animation_to_new_rigify is_new_rigify_rig : bool)
  (dp : string) (data_per_array_index : list (string * list (Q * Q)))
  : result (option channel_group) :=
  let parsed_data_path := parse_pose_bone_data_path rig dp in
  let bone_name := bone_name parsed_data_path in
  let prop_name := prop_name parsed_data_path in
  let custom_prop_name := custom_prop_name parsed_data_path in
  let '(dp, bone_name) :=
    if convert_animation_to_new_rigify
    then
      let new_name := get_rigify_bone_from_old_name rig bone_name in
      (py_replace dp bone_name new_name, new_name)
    else (dp, bone_name) in
  '(dp, bone_name) ←
    (if negb (in_pose_bones rig bone_name) && is_new_rigify_rig
     then
       st ← lip_end_rename rig "lip_end.L" (dp, bone_name);
       lip_end_rename rig "lip_end.R" st
     else Ok (dp, bone_name));
  if negb (path_resolve rig dp) then Ok None
  else if negb (truthy custom_prop_name) && negb (truthy prop_name) then Ok None
  else
    let pose_bone := in_pose_bones rig bone_name in
    '(default, channels) ←
      (if negb pose_bone then Raise AttributeError
       else if truthy prop_name
       then
         match properties_get rig bone_name (from_option id EmptyString prop_name) with
         | Some prop =>
             if is_array prop
             then Ok (Some (default_array prop), length (default_array prop))
             else Ok (Some [prop_default prop], 1%nat)
         | None => Raise AttributeError
         end
       else
         match custom_prop_default rig bone_name
                 (from_option id EmptyString custom_prop_name) with
         | NoDefault => Ok (None, 1%nat)
         | IterDefault values => Ok (Some values, length values)
         | NumberDefault value => Ok (Some [value], 1%nat)
         end);
    match prop_name with
    | None => Raise TypeError
    | Some prop_name =>
        if PyStr.contains "rotation" prop_name
        then
          let rot_mode_to := get_rotation_mode rig bone_name in
          let rotation_data_path_to := get_data_path_from_rotation_mode rig rot_mode_to in
          let rot_mode_from := get_rotation_mode_from_data_path_val rig prop_name in
          if negb (String.eqb rotation_data_path_to prop_name)
          then
            let dp := py_replace dp prop_name rotation_data_path_to in
            data_per_array_index ←
              convert_rotation_data (convert_rotation rig rot_mode_from rot_mode_to)
                channels default data_per_array_index;
            match properties_get rig bone_name rotation_data_path_to with
            | Some prop =>
                let default := default_array prop in
                Ok (Some (ChannelGroup dp data_per_array_index (Some default)
                            (length default)))
            | None => Raise AttributeError
            end
          else Ok (Some (ChannelGroup dp data_per_array_index default channels))
        else Ok (Some (ChannelGroup dp data_per_array_index default channels))
    end.

Section Loop.

Variable populate_keyframe_points_from_np_array : fcurve -> list (Q * Q) -> fcurve.

(** The body of the loop of line 965 on the f-curves of the temporary
    action: lines 966-1071, then the loop over the channels. *)
Definition import_data_path (rig : rig_host)
  (convert_animation_to_new_rigify is_new_rigify_rig : bool) (new_expression_count : nat)
  (fcs : list fcurve) (item : string * list (string * list (Q * Q)))
  : result (list fcurve) :=
  let '(dp, data_per_array_index) := item in
  group ← prepare rig convert_animation_to_new_rigify is_new_rigify_rig dp
            data_per_array_index;
  match group with
  | None => Ok fcs
  | Some group =>
      populate_channels populate_keyframe_points_from_np_array (g_dp group)
        (g_data_per_array_index group) (g_default group) (g_channels group)
        new_expression_count fcs
  end.

(** Lines 919 and 965-1087: the f-curves of the action [temp], which is
    new and starts without any, after the loop over [action_dict]. *)
Definition import_action (rig : rig_host)
  (convert_animation_to_new_rigify is_new_rigify_rig : bool)
  (action_dict : list (string * list (string * list (Q * Q))))
  (new_expression_count : nat) : result (list fcurve) :=
  foldlM (import_data_path rig convert_animation_to_new_rigify is_new_rigify_rig
            new_expression_count)
    action_dict [].

End Loop.

End ImportAction.

(** ** animate/animate_operators.py: exporting the expressions *)

Module ExportJson.
Import Host.

(** Modelled from the spec: [fc_dr_utils.kf_data_to_numpy_array] is not
    among the sources; the spec has a channel as its list of (frame, value)
    samples, and the callers read column 0 as frames and column 1 as
    values. *)
Definition kf_data_to_numpy_array (fc : fcurve) : list (Q * Q) :=
  map co (keyframe_points fc).

(** [x % m] on floats: the remainder has the sign of [m]. *)
Definition py_mod (x m : Q) : Q := (x - m * inject_Z (Qfloor (x / m)))%Q.

(** Lines 1467-1475: the three [continue] tests. *)
Definition skipped (rig_type dp : string) : bool :=
  ((String.eqb rig_type "RIGIFY" || String.eqb rig_type "RIGIFY_NEW")
   && existsb (fun x => PyStr.contains x dp) ["DEF-"; "MCH-"; "ORG-"])
  || PyStr.contains "influence" dp
  || PyStr.contains "mouth_lock" dp.

(** Lines 1476-1485, with [remove_zero_poses] and [remove_zero_keyframes]
    both [True] as line 1461-1462 set them. *)
Definition kept_keyframes (fc : fcurve) : list (Q * Q) :=
  let kf_data := kf_data_to_numpy_array fc in
  let kf_data :=
    List.filter (fun r => negb (negb (Qeq_bool (py_mod (fst r) 10) 0))) kf_data in
  if PyStr.contains "scale" (data_path fc)
     || (PyStr.contains "rotation_quaternion" (data_path fc) && (array_index fc =? 0)%Z)
  then List.filter (fun r => negb (Qeq_bool (snd r) 1)) kf_data
  else List.filter (fun r => negb (Qeq_bool (snd r) 0)) kf_data.

(** Body of the loop of lines 1463-1492. *)
Definition export_fcurve (rig_type : string) (action_dict : gmap string (gmap Z (list (Q * Q))))
  (fc : fcurve) : gmap string (gmap Z (list (Q * Q))) :=
  let dp := data_path fc in
  let array_index := array_index fc in
  if skipped rig_type dp then action_dict
  else
    let kf_anim_data := kept_keyframes fc in
    match kf_anim_data with
    | [] => action_dict
    | _ =>
        match action_dict !! dp with
        | Some dp_dict =>
            if decide (dp_dict = ∅)
            then <[ dp := {[ array_index := kf_anim_data ]} ]> action_dict
            else <[ dp := <[ array_index := kf_anim_data ]> dp_dict ]> action_dict
        | None => <[ dp := {[ array_index := kf_anim_data ]} ]> action_dict
        end
    end.

(** [data["action"]] of [FACEIT_OT_ExportExpressionsToJson.execute],
    lines 1459-1496. *)
Definition export_action (rig_type : string) (fcurves : list fcurve)
  : gmap string (gmap Z (list (Q * Q))) :=
  fold_left (export_fcurve rig_type) fcurves ∅.

(** Whether a curve reaches the exported dictionary, and what the
    dictionary holds under a data path and an array index. *)
Definition exported (rig_type : string) (fc : fcurve) : bool :=
  negb (skipped rig_type (data_path fc))
  && match kept_keyframes fc with [] => false | _ => true end.

Definition stored_at (m : gmap string (gmap Z (list (Q * Q)))) (dp : string) (i : Z)
  : option (list (Q * Q)) :=
  m !! dp ≫= fun dp_dict => dp_dict !! i.

End ExportJson.

(** ** animate/animate_operators.py: the side test of the add dialog *)

Module Sides.
Import Mirror.

(** [poll_side_in_expression_name], lines 71-81. *)
Definition poll_side_in_expression_name (side expression_name : string) : bool :=
  if String.eqb side "L"
  then existsb (fun x => PyStr.contains (fst x) expression_name) mirror_sides_dict_L
       || existsb (fun x => PyStr.endswith expression_name (fst x)) mirror_sides_end_L
  else if String.eqb side "R"
  then existsb (fun x => PyStr.contains (fst x) expression_name) mirror_sides_dict_R
       || existsb (fun x => PyStr.endswith expression_name (fst x)) mirror_sides_end_R
  else false.

End Sides.

(** ** animate/animate_operators.py: the expression list *)

Module ExprList.
Import Host Mirror Sides.

Record expression_item : Type := ExpressionItem {
  name : string;
  frame : Z;
  side : string;
  procedural : string;
  mirror_name : string
}.

(** The scene data the three operators work on; an action that
    [bpy.data.actions.get] does not find is [None]. *)
Record scene : Type := Scene {
  faceit_expression_list : list expression_item;
  faceit_expression_list_index : Z;
  ow_action : option action;
  sh_action : option action;
  cc_action : option action
}.

Definition set_item_mirror_name (item : expression_item) (m : string) : expression_item :=
  ExpressionItem (name item) (frame item) (side item) (procedural item) m.

(** One run of [FACEIT_OT_AddExpressionItem.execute], lines 267-380, as
    far as the expression list and its selected index go: the list
    afterwards, and the value given to [scene.faceit_expression_list_index]
    when line 368 is reached.  [index] is bound only when [new_exp_index]
    is -1.  [get_expression_name_double_entries] comes from another module.
    [nested] is the call [bpy.ops.faceit.add_expression_item] of lines
    357-366 with its arguments [expression_name], [side] and [procedural].
    In the custom-shape branch [self.side] is reset after [item.side] has
    been written, so the item keeps the side that was passed.  The work on
    the rig and its actions (lines 301-345) and the eye-blink operator
    (lines 347-355 and 370-378) leave the list and the index alone and are
    taken to return. *)
Definition add_expression_item_run
  (nested : string -> string -> string -> list expression_item ->
            result (list expression_item * option Z))
  (get_expression_name_double_entries : string -> list expression_item -> string)
  (new_exp_index : Z) (expression_name side procedural mirror_name_overwrite : string)
  (custom_shape auto_mirror : bool)
  (expression_list : list expression_item) : result (list expression_item * option Z) :=
  index ← (if (new_exp_index =? -1)%Z
           then Ok (Z.of_nat (length expression_list))
           else Raise UnboundLocalError);
  let frame := ((index + 1) * 10)%Z in
  let expression_name_final :=
    get_expression_name_double_entries expression_name expression_list in
  let item :=
    ExpressionItem expression_name_final frame side procedural
      (if String.eqb mirror_name_overwrite EmptyString
       then EmptyString else mirror_name_overwrite) in
  if custom_shape
  then
    let side := if negb (poll_side_in_expression_name side expression_name)
                then "N" else side in
    let item := if String.eqb (mirror_name item) EmptyString
                then set_item_mirror_name item (get_mirror_name side expression_name_final)
                else item in
    let expression_list := expression_list ++ [item] in
    expression_list ←
      (if auto_mirror && negb (String.eqb side "N")
       then
         let mirror_side := if String.eqb side "L" then "R" else "L" in
         r ← nested (mirror_name item) mirror_side procedural expression_list;
         Ok (fst r)
       else Ok expression_list);
    Ok (expression_list, Some index)
  else Ok (expression_list ++ [item], None).

(** [FACEIT_OT_AddExpressionItem.execute].  The call of lines 357-366
    passes [expression_name], [custom_shape=True], [side] and [procedural];
    the other properties have their defaults ([new_exp_index] -1, no
    [mirror_name_overwrite], [auto_mirror] False), so the nested run makes
    no call of its own. *)
Definition add_expression_item
  (get_expression_name_double_entries : string -> list expression_item -> string)
  (new_exp_index : Z) (expression_name side procedural mirror_name_overwrite : string)
  (custom_shape auto_mirror : bool)
  (expression_list : list expression_item) : result (list expression_item * option Z) :=
  add_expression_item_run
    (fun expression_name side procedural expression_list =>
       add_expression_item_run (fun _ _ _ expression_list => Ok (expression_list, None))
         get_expression_name_double_entries (-1) expression_name side procedural EmptyString
         true false expression_list)
    get_expression_name_double_entries new_exp_index expression_name side procedural
    mirror_name_overwrite custom_shape auto_mirror expression_list.

Definition frame_of (kf : keyframe) : Q := fst (co kf).

(** The double-quote character of a data path. *)
Definition dquote : ascii := ascii_of_nat 34.

Definition set_frame (kf : keyframe) (f : Q) : keyframe :=
  Keyframe (f, snd (co kf)) (interpolation kf).

(** [for key in curve.keyframe_points: if key.co[0] == frame:
    curve.keyframe_points.remove(key, fast=True)].  The collection is an
    array and the loop walks it by position: once a point is removed the
    later points move up by one, so the point that follows a removed one is
    passed over ([skip]). *)
Fixpoint remove_keys_at (frame : Z) (skip : bool) (pts : list keyframe) : list keyframe :=
  match pts with
  | [] => []
  | key :: pts' =>
      if skip then key :: remove_keys_at frame false pts'
      else if Qeq_bool (frame_of key) (inject_Z frame)
           then remove_keys_at frame true pts'
           else key :: remove_keys_at frame false pts'
  end.

(** [for key in curve.keyframe_points: if key.co[0] > frame: key.co[0] -= 10] *)
Definition shift_keys_after (frame : Z) (pts : list keyframe) : list keyframe :=
  map (fun key =>
         if Qle_bool (frame_of key) (inject_Z frame) then key
         else set_frame key (frame_of key - 10)%Q)
      pts.

Definition on_curves (f : list keyframe -> list keyframe) (a : action) : action :=
  Action (map (fun curve => FCurve (data_path curve) (array_index curve)
                              (f (keyframe_points curve))) (fcurves a))
         (channelbags a).

(** Lines 1625-1632 (and 1636-1643) on one action: first every curve loses
    its keys on [frame], then every curve has its later keys moved. *)
Definition remove_frame_in_action (frame : Z) (a : action) : action :=
  on_curves (shift_keys_after frame) (on_curves (remove_keys_at frame false) a).

(** [expression_list.find(name)] *)
Fixpoint find_name (n : string) (l : list expression_item) : option nat :=
  match l with
  | [] => None
  | item :: l' => if String.eqb (name item) n then Some 0%nat else S <$> find_name n l'
  end.

Definition set_item_frame (item : expression_item) (f : Z) : expression_item :=
  ExpressionItem (name item) f (side item) (procedural item) (mirror_name item).

(** [_remove_faceit_item], lines 1616-1648. *)
Definition _remove_faceit_item (item : expression_item) (s : scene) : result scene :=
  item_index ← match find_name (name item) (faceit_expression_list s) with
               | Some k => Ok k
               | None => Raise IndexError
               end;
  let frame := frame item in
  let ow_action := remove_frame_in_action frame <$> ow_action s in
  let sh_action := remove_frame_in_action frame <$> sh_action s in
  let cc_action := remove_frame_in_action frame <$> cc_action s in
  let expression_list := delete item_index (faceit_expression_list s) in
  let expression_list :=
    map (fun item => if (frame <? ExprList.frame item)%Z
                     then set_item_frame item (ExprList.frame item - 10)%Z
                     else item)
        expression_list in
  Ok (Scene expression_list (faceit_expression_list_index s) ow_action sh_action cc_action).

(** [FACEIT_OT_ClearFaceitExpressions.execute] as far as the list and the
    two shape actions go, lines 1535-1544. *)
Definition clear_faceit_expressions (s : scene) : scene :=
  Scene [] (-1) None None (cc_action s).

(** [FACEIT_OT_RemoveExpressionItem.execute], lines 1599-1667;
    [remove_item] is the operator's string property. *)
Definition remove_expression_item (remove_item : string) (s : scene) : result scene :=
  let expression_list := faceit_expression_list s in
  let expression_list_index := faceit_expression_list_index s in
  if (length expression_list <=? 1)%nat
  then Ok (clear_faceit_expressions s)
  else
    item ← (if String.eqb remove_item EmptyString
            then
              match (if (expression_list_index <? 0)%Z then None
                     else expression_list !! Z.to_nat expression_list_index) with
              | Some item => Ok item
              | None => Raise IndexError
              end
            else
              match find_name remove_item expression_list with
              | Some k =>
                  match expression_list !! k with
                  | Some item => Ok item
                  | None => Raise KeyError
                  end
              | None => Raise KeyError
              end);
    s ← _remove_faceit_item item s;
    let expression_count := Z.of_nat (length (faceit_expression_list s)) in
    Ok (if (expression_count <=? expression_list_index)%Z
        then Scene (faceit_expression_list s) (expression_count - 1)
               (ow_action s) (sh_action s) (cc_action s)
        else s).

(** The three loops of lines 495-503 on the key points of one curve. *)
Definition swap_keys (expression_frame new_index_frame add_frame : Z) (pts : list keyframe)
  : list keyframe :=
  let half := (inject_Z add_frame / 2)%Q in
  let pts :=
    map (fun key => if Qeq_bool (frame_of key) (inject_Z new_index_frame)
                    then set_frame key (frame_of key - half)%Q else key) pts in
  let pts :=
    map (fun key => if Qeq_bool (frame_of key) (inject_Z expression_frame)
                    then set_frame key (frame_of key + inject_Z add_frame)%Q else key) pts in
  map (fun key => if Qeq_bool (frame_of key) (inject_Z new_index_frame - half)%Q
                  then set_frame key (frame_of key - half)%Q else key) pts.

(** Lines 508-518: every key of the corrective curve of an expression
    moves by [offset]. *)
Definition shift_cc_curve (expression_name : string) (offset : Z) (a : action) : action :=
  let dp := String.append "key_blocks["
              (String dquote (String.append "faceit_cc_"
                 (String.append expression_name (String dquote "].value")))) in
  match Append.find_fcurve (fcurves a) dp 0 with
  | Some k =>
      Action (alter (fun fc => FCurve (data_path fc) (array_index fc)
                                 (map (fun key => set_frame key (frame_of key + inject_Z offset)%Q)
                                    (keyframe_points fc))) k (fcurves a))
             (channelbags a)
  | None => a
  end.

(** [expression_list.move(src, dst)] *)
Definition list_move {A : Type} (src dst : nat) (l : list A) : list A :=
  match l !! src with
  | Some x => let l' := delete src l in take dst l' ++ x :: drop dst l'
  | None => l
  end.

(** [FACEIT_OT_MoveExpressionItem.execute], lines 466-525.  [None] is the
    [{'CANCELLED'}] return, which leaves the scene as it is. *)
Definition move_expression_item (direction : string) (s : scene) : result (option scene) :=
  let index := faceit_expression_list_index s in
  let expression_list := faceit_expression_list s in
  expression_item ← match (if (index <? 0)%Z then None else expression_list !! Z.to_nat index) with
                    | Some item => Ok item
                    | None => Raise IndexError
                    end;
  let add_index := if String.eqb direction "UP" then (-1)%Z else 1%Z in
  let new_index := (index + add_index)%Z in
  let add_frame := (add_index * 10)%Z in
  if (new_index =? Z.of_nat (length expression_list))%Z || (new_index =? -1)%Z
  then Ok None
  else
    new_index_item ← match expression_list !! Z.to_nat new_index with
                     | Some item => Ok item
                     | None => Raise IndexError
                     end;
    let expression_frame := frame expression_item in
    let new_index_frame := frame new_index_item in
    let swap := on_curves (swap_keys expression_frame new_index_frame add_frame) in
    let ow_action := swap <$> ow_action s in
    let sh_action := swap <$> sh_action s in
    let cc_action :=
      (fun a => shift_cc_curve (name new_index_item) (- add_frame)
                  (shift_cc_curve (name expression_item) add_frame a)) <$> cc_action s in
    let expression_list :=
      <[ Z.to_nat index := set_item_frame expression_item new_index_frame ]> expression_list in
    let expression_list :=
      <[ Z.to_nat new_index := set_item_frame new_index_item expression_frame ]> expression_list in
    let expression_list := list_move (Z.to_nat new_index) (Z.to_nat index) expression_list in
    let list_length := (Z.of_nat (length expression_list) - 1)%Z in
    Ok (Some (Scene expression_list (Z.max 0 (Z.min new_index list_length))
                ow_action sh_action cc_action)).

(** The item at position [k] has frame [(k+1)*10]. *)
Definition frames_ok (l : list expression_item) : Prop :=
  forall k item, l !! k = Some item -> frame item = ((Z.of_nat k + 1) * 10)%Z.

(** A key before and after the three loops that exchange the frames [ef]
    and [nf]. *)
Definition key_swapped (ef nf add : Z) (key key' : keyframe) : Prop :=
  snd (co key') = snd (co key)
  /\ interpolation key' = interpolation key
  /\ (frame_of key == inject_Z ef -> frame_of key' == inject_Z nf)%Q
  /\ (frame_of key == inject_Z nf -> frame_of key' == inject_Z ef)%Q
  /\ (~ (frame_of key == inject_Z ef)%Q -> ~ (frame_of key == inject_Z nf)%Q ->
      ~ (frame_of key == inject_Z nf - inject_Z add / 2)%Q -> key' = key).

(** What an operator does to the curves of a shape action, curve by
    curve; an action that does not exist stays absent. *)
Definition curves_related (R : list keyframe -> list keyframe -> Prop)
  (a a' : option action) : Prop :=
  match a, a' with
  | Some a, Some a' =>
      Forall2 (fun c c' => data_path c' = data_path c /\ array_index c' = array_index c
                           /\ R (keyframe_points c) (keyframe_points c'))
        (fcurves a) (fcurves a')
  | None, None => True
  | _, _ => False
  end.

(** The keys of a curve after the removal of the frame [F]: the keys on
    [F] are gone and the keys after [F] are 10 earlier. *)
Definition keys_removed (F : Z) (pts pts' : list keyframe) : Prop :=
  (length (List.filter (fun key => Qeq_bool (frame_of key) (inject_Z F)) pts) <= 1)%nat ->
  pts' = map (fun key => if Qle_bool (frame_of key) (inject_Z F) then key
                         else set_frame key (frame_of key - 10)%Q)
           (List.filter (fun key => negb (Qeq_bool (frame_of key) (inject_Z F))) pts).

End ExprList.

(** ** ctrl_rig/control_rig_bake_utils.py: where a sampled value comes from *)

Module BakeSampling.
Import Bake.

(** [dp] is the data path of a driver of the object (lines 223-227). *)
Definition has_driver (dp : string) (obj : option shape_key_id) : bool :=
  match obj with
  | Some sk_id =>
      match sk_drivers sk_id with
      | Some drivers => existsb (String.eqb dp) drivers
      | None => false
      end
  | None => false
  end.

(** The first of the target objects that has a driver on [dp]. *)
Fixpoint driver_object (dp : string) (target_objects : list (option shape_key_id))
  : option shape_key_id :=
  match target_objects with
  | [] => None
  | obj :: target_objects' =>
      if has_driver dp obj
      then obj
      else driver_object dp target_objects'
  end.

End BakeSampling.

(** ** ctrl_rig/control_rig_bake_utils.py: the source curves of a bake *)

Module BakeCollect.
Import Host.

(** An item of [c_rig.faceit_crig_targets]: its name and the names of its
    target shapes. *)
Record shape_item : Type := ShapeItem {
  si_name : string;
  target_shapes : list string
}.

(** ['key_blocks["{}"].value'.format(name)], line 122. *)
Definition key_block_path (name : string) : string :=
  String.append "key_blocks["
    (String ExprList.dquote (String.append name (String ExprList.dquote "].value"))).

(** Line 119: the shapes of the right eye are passed over from version 1.2
    of the control rig on. *)
Definition passed_over (crig_version : Q) (name : string) : bool :=
  negb (Qle_bool crig_version (12 # 10))
  && existsb (String.eqb name)
       ["eyeLookUpRight"; "eyeLookDownRight"; "eyeLookInRight"; "eyeLookOutRight"].

Section Collect.

(** [source_fcurves.find(dp)] and [fc.is_empty] belong to the keyframe
    store. *)
Variable find : string -> option fcurve.
Variable is_empty : fcurve -> bool.

(** The parameter [resample_fcurves] of [bake_shape_keys_to_ctrl_rig],
    line 94.  Inside the function this name is the parameter, a [bool], not
    the function of line 15: the call of line 127 is a call of [True]. *)
Variable resample_fcurves : bool.

(** Lines 122-132 for one target shape. *)
Definition collect_target_shape (name : string) (s : list (string * fcurve) * list string)
  (target_shape : string) : result (list (string * fcurve) * list string) :=
  let '(arkit_curves_values, missing_animation) := s in
  let dp := key_block_path target_shape in
  match find dp with
  | Some fc =>
      if negb (is_empty fc)
      then
        if resample_fcurves then Raise TypeError
        else Ok (od_set name fc arkit_curves_values, missing_animation)
      else Ok (arkit_curves_values, missing_animation)
  | None => Ok (arkit_curves_values, missing_animation ++ [target_shape])
  end.

(** Lines 118-132 for one shape item. *)
Definition collect_shape_item (crig_version : Q) (s : list (string * fcurve) * list string)
  (item : shape_item) : result (list (string * fcurve) * list string) :=
  if passed_over crig_version (si_name item) then Ok s
  else Append.foldlM (collect_target_shape (si_name item)) (target_shapes item) s.

(** Lines 107-132: [arkit_curves_values] with the curve of each entry, and
    [missing_animation]. *)
Definition collect_source_curves (crig_version : Q) (crig_targets : list shape_item)
  : result (list (string * fcurve) * list string) :=
  Append.foldlM (collect_shape_item crig_version) crig_targets ([], []).

(** A target shape with a curve that is not empty, and a shape item that
    is not passed over and has such a target shape. *)
Definition has_animation (target_shape : string) : bool :=
  match find (key_block_path target_shape) with
  | Some fc => negb (is_empty fc)
  | None => false
  end.

Definition item_has_animation (crig_version : Q) (item : shape_item) : bool :=
  negb (passed_over crig_version (si_name item))
  && existsb has_animation (target_shapes item).

End Collect.

End BakeCollect.

(** ** ctrl_rig/control_rig_animation_operators.py: the names of baked actions *)

Module CrigNames.

Definition CRIG_ACTION_SUFFIX : string := "_control_rig".

(** [update_enum], lines 20-23: the new value of [new_action_name]. *)
Definition update_enum (action_source new_action_name : string) : string :=
  if String.eqb action_source EmptyString then new_action_name
  else String.append action_source CRIG_ACTION_SUFFIX.

(** [s[:-n]] for [n > 0]. *)
Definition drop_last (n : nat) (s : string) : string :=
  String.substring 0 (String.length s - n) s.

(** [update_enum_non_sk], lines 218-225. *)
Definition update_enum_non_sk (action_source new_action_name : string) : string :=
  if String.eqb action_source EmptyString then new_action_name
  else if PyStr.endswith action_source CRIG_ACTION_SUFFIX
       then drop_last (String.length CRIG_ACTION_SUFFIX) action_source
       else action_source.

(** [s.strip(chars)]: the characters of [chars] are taken off both ends
    of [s], as long as there are any. *)
Definition in_chars (chars : string) (c : ascii) : bool :=
  existsb (Ascii.eqb c) (list_ascii_of_string chars).

Fixpoint lstrip (chars : string) (l : list ascii) : list ascii :=
  match l with
  | [] => []
  | c :: l' => if in_chars chars c then lstrip chars l' else l
  end.

Definition py_strip (s chars : string) : string :=
  string_of_list_ascii
    (rev (lstrip chars (rev (lstrip chars (list_ascii_of_string s))))).

(** [FACEIT_OT_BakeControlRigToShapeKeys.execute], lines 417-420: the name
    for a new target action. *)
Definition bake_new_action_name (source_action_name : string) : string :=
  if PyStr.endswith source_action_name CRIG_ACTION_SUFFIX
  then py_strip source_action_name CRIG_ACTION_SUFFIX
  else String.append source_action_name "_retarget".

End CrigNames.

(** ** animate/animate_operators.py: the control bones of the rig *)

Module ControlBones.
Import Host.

(** [rig.data.faceit_control_bones] is the list of the names of its items.
    An item is added for a name the collection has not got yet
    (lines 546-549 and 625-628). *)
Definition add_control_bone (faceit_control_bones : list string) (bone_name : string)
  : list string :=
  if existsb (String.eqb bone_name) faceit_control_bones
  then faceit_control_bones
  else faceit_control_bones ++ [bone_name].

(** [FACEIT_OT_RegisterControlBones.execute], lines 542-553: the
    collection afterwards and [added_any]. *)
Definition register_control_bones (selected_pose_bones faceit_control_bones : list string)
  : list string * bool :=
  fold_left (fun '(bones, _) pb_name => (add_control_bone bones pb_name, true))
    selected_pose_bones (faceit_control_bones, false).

(** [s.split(sep)] for a separator of one character. *)
Fixpoint py_split (sep : ascii) (s : string) : list string :=
  match s with
  | EmptyString => [EmptyString]
  | String c s' =>
      if Ascii.eqb c sep then EmptyString :: py_split sep s'
      else match py_split sep s' with
           | part :: parts => String c part :: parts
           | [] => [String c EmptyString]
           end
  end.

(** Line 623: the data path is split at its double quotes and the second
    part is taken. *)
Definition bone_name_of (data_path : string) : result string :=
  match py_split ExprList.dquote data_path !! 1%nat with
  | Some bone_name => Ok bone_name
  | None => Raise IndexError
  end.

Section Update.

(** The order in which a Python set is walked is not fixed; any order of
    its elements will do. *)
Variable iter : gset string -> list string.

(** [FACEIT_OT_UpdateControlBones.execute], lines 614-629.  Without the
    action, line 618 calls [self.report] with one argument (a set) where
    two are required. *)
Definition update_control_bones (ow_action : option action)
  (faceit_control_bones : list string) : result (list string) :=
  match ow_action with
  | None => Raise TypeError
  | Some ow_action =>
      bone_names ← Append.foldlM
                      (fun (bone_names : gset string) fc =>
                         bone_name ← bone_name_of (data_path fc);
                         Ok (bone_names ∪ {[ bone_name ]}))
                      (fcurves ow_action) ∅;
      Ok (fold_left add_control_bone (iter bone_names) faceit_control_bones)
  end.

End Update.

End ControlBones.

(** ** animate/animate_operators.py: mirroring a shape key *)

Module MirrorShape.

(** A coordinate vector. *)
Abbreviation vec := (list Q).

(** [co = v.co.copy(); co[axis] = co[axis] * -1]; the product with -1 is
    the opposite number. *)
Definition negate_axis (axis : nat) (co : vec) : result vec :=
  match co !! axis with
  | Some x => Ok (<[axis := (- x)%Q]> co)
  | None => Raise IndexError
  end.

(** [l[i]] and [l[i] = x] on a list or a collection. *)
Definition get_item {A : Type} (l : list A) (i : nat) : result A :=
  match l !! i with
  | Some x => Ok x
  | None => Raise IndexError
  end.

Definition set_item {A : Type} (l : list A) (i : nat) (x : A) : result (list A) :=
  if (i <? length l)%nat then Ok (<[i := x]> l) else Raise IndexError.

Section Mirror.

(** [kd.find(co)[1]] on the tree built of the vertices (lines 2028-2032):
    the index of the vertex next to [co].  The tree is the host's. *)
Variable kd_find : list vec -> vec -> nat.

(** [mirror_shape_key], lines 2025-2050: the coordinates of
    [mirror_to_shape.data] afterwards.  [vertices] are the coordinates of
    [me.vertices]. *)
Definition mirror_shape_key (vertices : list vec) (axis : nat)
  (mirror_from_shape mirror_to_shape : list vec) : result (list vec) :=
  indices_mirrored ←
    mapM (fun co => mirror_co ← negate_axis axis co; Ok (kd_find vertices mirror_co))
      vertices;
  new_data ←
    match indices_mirrored with
    | [] => Raise UnboundLocalError
    | _ =>
        Append.foldlM
          (fun new_data i =>
             j ← get_item indices_mirrored i;
             co ← get_item mirror_from_shape j;
             new_co ← negate_axis axis co;
             set_item new_data i new_co)
          (seq 0 (length mirror_from_shape)) vertices
    end;
  Append.foldlM (fun data '(i, co) => set_item data i co)
    (imap (fun i co => (i, co)) new_data) mirror_to_shape.

(** The index the tree gives for the mirrored vertex [i]. *)
Definition mirror_index (vertices : list vec) (axis i : nat) : nat :=
  kd_find vertices (alter Qopp axis (vertices !!! i)).

End Mirror.

End MirrorShape.

(** ** panels/draw_utils.py: wrapping a text into rows *)

Module WrapText.




Section Wrap.

(** [blf.dimensions(0, text)[0]]: the width the host's font gives a
    text. *)
Variable dimensions : string -> Q.





End Wrap.


End WrapText.

(** ** animate/anim_utils.py and panels/draw_utils.py: the slots of an action *)

Module Slots.

Record action_slot : Type := ActionSlot {
  handle : Z;
  target_id_type : string;
  name_display : string;
  identifier : string
}.

(** [find_slot_by_handle], anim_utils.py lines 6-20. *)
Fixpoint find_slot_by_handle (slots : list action_slot) (h : Z) : option action_slot :=
  match slots with
  | [] => None
  | slot :: slots' => if (handle slot =? h)%Z then Some slot else find_slot_by_handle slots' h
  end.

(** [get_slots_of_id_type], anim_utils.py lines 54-69. *)
Definition get_slots_of_id_type (slots : list action_slot) (id_type : string)
  : list action_slot :=
  List.filter (fun slot => String.eqb (target_id_type slot) id_type) slots.

(** [get_valid_slots_for_id], anim_utils.py lines 72-87; [id_type] is
    [target_id.id_type]. *)
Definition get_valid_slots_for_id (slots : list action_slot) (id_type : string)
  : list action_slot :=
  List.filter (fun slot => String.eqb (target_id_type slot) id_type) slots.

(** [str(n)] for an integer. *)
Definition py_str (n : Z) : string := NilZero.string_of_int (Z.to_int n).

(** [get_slot_items], draw_utils.py lines 66-77; [None] is a scene
    without mocap action. *)
Definition get_slot_items (action : option (list action_slot)) (id_type : string)
  : list (string * string * string) :=
  match action with
  | None => []
  | Some slots =>
      map (fun slot => (py_str (handle slot), name_display slot, identifier slot))
        (List.filter (fun slot => String.eqb (target_id_type slot) id_type) slots)
  end.

(** [FACEIT_OT_SelectSlotMenu.execute], draw_utils.py lines 138-148: the
    new value of [scene.faceit_mocap_slot_handle]; [None] is
    [{'CANCELLED'}]. *)
Definition select_slot (action : option (list action_slot)) (slot_handle : string)
  : result (option Z) :=
  match action with
  | None => Ok None
  | Some _ => h ← Append.py_int slot_handle; Ok (Some h)
  end.

End Slots.

(** ** animate/animate_operators.py: the actions offered for the head *)

Module HeadPoll.

(** [head_action_poll], lines 2954-2962.  [head_obj] is the type of the
    head object, [None] without one; the result [None] is Python's. *)
Definition head_action_poll (head_obj : option string) (action_name : string)
  (data_paths : list string) : option bool :=
  if existsb (String.eqb action_name) ["faceit_shape_action"; "faceit_shape_action"]
  then Some false
  else
    match head_obj with
    | Some type =>
        if String.eqb type "ARMATURE"
        then Some (existsb (PyStr.contains "pose.bones") data_paths
                   || (length data_paths =? 0)%nat)
        else Some (negb (existsb (PyStr.contains "pose.bones") data_paths)
                   || (length data_paths =? 0)%nat)
    | None => None
    end.

End HeadPoll.

(** ** animate/animate_operators.py: appending a preset to the expressions *)

Module AppendLoad.
Import Host ExprList.

(** Lines 860-878: the load method that is used, and the expression list
    and the two actions it starts from. *)
Definition load_method_fallback (load_method : string)
  (expression_list : list expression_item) (shape_action ow_action : option action)
  : string * list expression_item * option action * option action :=
  let load_method :=
    if String.eqb load_method "APPEND"
    then
      let load_method :=
        match expression_list with [] => "OVERWRITE" | _ => load_method end in
      match shape_action, ow_action with
      | Some _, Some _ => load_method
      | _, _ => "OVERWRITE"
      end
    else load_method in
  if String.eqb load_method "OVERWRITE"
  then (load_method, [], None, None)
  else (load_method, expression_list, shape_action, ow_action).

(** [int(x)] on a float: the fraction is cut off. *)
Definition py_int_float (x : Q) : Z :=
  if Qle_bool 0 x then Qfloor x else Qceiling x.

(** Line 1232; [frame_range_end] is
    [futils.get_action_frame_range(ow_action)[1]]. *)
Definition frame_offset (frame_range_end : Q) : Z :=
  py_int_float (frame_range_end - 1).

(** A call of [populate_keyframe_points_from_np_array(fc, kf_data,
    add=True)] of lines 1238-1250, [fc] being the curve of the data path
    and the index on one of the two actions. *)
Inductive target_action : Type := ShapeAction | OverwriteAction.

Record append_write : Type := AppendWrite {
  aw_target : target_action;
  aw_data_path : string;
  aw_array_index : Z;
  aw_rows : list (Q * Q)
}.

(** Lines 1233-1249 for one curve of the temporary action: the writes and
    whether a warning is raised. *)
Definition append_curve (frame_offset : Z) (shape_action ow_action : option action)
  (import_fc : fcurve) : list append_write * bool :=
  let kf_data := ExportJson.kf_data_to_numpy_array import_fc in
  let kf_data := map (fun r => (fst r + inject_Z frame_offset, snd r)%Q) kf_data in
  let dp := data_path import_fc in
  let a_index := array_index import_fc in
  let '(writes, warnings) :=
    match shape_action with
    | Some _ => ([AppendWrite ShapeAction dp a_index kf_data], false)
    | None => ([], true)
    end in
  match ow_action with
  | Some _ => (writes ++ [AppendWrite OverwriteAction dp a_index kf_data], warnings)
  | None => (writes, true)
  end.

(** Lines 1231-1249. *)
Definition append_keyframes (frame_range_end : Q) (shape_action ow_action : option action)
  (import_fcurves : list fcurve) : list append_write * bool :=
  let frame_offset := frame_offset frame_range_end in
  fold_left
    (fun '(writes, warnings) import_fc =>
       let '(ws, w) := append_curve frame_offset shape_action ow_action import_fc in
       (writes ++ ws, warnings || w))
    import_fcurves ([], false).

(** What the file holds for an expression: the optional entries of its
    dictionary. *)
Record expression_data : Type := ExpressionData {
  ed_mirror_name : option string;
  ed_side : option string;
  ed_procedural : option string
}.

(** Lines 1261-1272: one item is added for each expression of the file.
    The call passes neither [custom_shape] nor [auto_mirror], which keep
    their default False. *)
Definition load_expressions
  (get_expression_name_double_entries : string -> list expression_item -> string)
  (expression_data_loaded : list (string * expression_data))
  (expression_list : list expression_item) : result (list expression_item) :=
  Append.foldlM
    (fun expression_list '(expression_name, expression_data) =>
       let mirror_name := default EmptyString (ed_mirror_name expression_data) in
       let side :=
         match ed_side expression_data with
         | Some side => if String.eqb side EmptyString then "N" else side
         | None => "N"
         end in
       let procedural := default "NONE" (ed_procedural expression_data) in
       r ← add_expression_item get_expression_name_double_entries (-1) expression_name side
             procedural mirror_name false false expression_list;
       Ok (fst r))
    expression_data_loaded expression_list.

End AppendLoad.

(** ** animate/animate_operators.py: exporting the expression list *)

Module ExportList.
Import ExprList AppendLoad.

(** Lines 1446-1455: the [procedural] entry written for an expression. *)
Definition exported_procedural (rig_type : string) (exp : expression_item) : string :=
  if PyStr.contains "RIGIFY" rig_type
  then
    if existsb (String.eqb (name exp)) ["eyeBlinkLeft"; "eyeBlinkRight"]
       && String.eqb (procedural exp) "NONE"
    then "EYEBLINKS"
    else procedural exp
  else "NONE".

(** Lines 1443-1456: [data["expressions"]]. *)
Definition export_expression_list (rig_type : string) (expression_list : list expression_item)
  : list (string * expression_data) :=
  fold_left
    (fun expression_list_data exp =>
       od_set (name exp)
         (ExpressionData (Some (mirror_name exp)) (Some (side exp))
            (Some (exported_procedural rig_type exp)))
         expression_list_data)
    expression_list [].

End ExportList.

(** ** animate/animate_operators.py: the rotation vector of a frame *)

Module RotationVector.

(** The vector lines 1050-1057 build for a frame when every channel has a
    default: the sample of the channel when there is one and it is not
    zero, the default otherwise. *)
Definition rot_vector (channels : nat) (default : list Q) (value_dict : gmap Z Q) : list Q :=
  map (fun i => match value_dict !! Z.of_nat i with
                | Some val => if Qeq_bool val 0 then nth i default 0%Q else val
                | None => nth i default 0%Q
                end) (seq 0 channels).

End RotationVector.

(** ** animate/animate_operators.py: passing an action to the objects *)

Module PopulateAction.
Import Host Slots.

(** An object of [futils.get_faceit_objects_list()]: whether it has shape
    keys, and what the host gives as [anim_data.action_suitable_slots]
    once the action is assigned. *)
Record target_object : Type := TargetObject {
  has_shape_keys : bool;
  action_suitable_slots : list action_slot
}.

(** What the loop of lines 2733-2748 does to an object: nothing without
    shape keys; else the action is assigned, and [action_slot] is set
    ([Some]) or left alone ([None]). *)
Inductive assignment : Type :=
| Skipped
| Assigned (slot : option (option action_slot)).

(** Lines 2733-2748, with [new_slot] and [scene.faceit_mocap_slot_handle]
    threaded through; [new_api] is [bpy.app.version >= (4, 4, 0)]. *)
Fixpoint assign_objects (new_api has_action : bool) (faceit_objects : list target_object)
  (new_slot : option action_slot) (faceit_mocap_slot_handle : Z) : list assignment * Z :=
  match faceit_objects with
  | [] => ([], faceit_mocap_slot_handle)
  | obj :: faceit_objects' =>
      if negb (has_shape_keys obj)
      then
        let '(assignments, h) :=
          assign_objects new_api has_action faceit_objects' new_slot
            faceit_mocap_slot_handle in
        (Skipped :: assignments, h)
      else if new_api && has_action
      then
        let '(new_slot, faceit_mocap_slot_handle) :=
          match new_slot with
          | None =>
              match action_suitable_slots obj with
              | slot :: _ => (Some slot, handle slot)
              | [] => (None, faceit_mocap_slot_handle)
              end
          | Some _ => (new_slot, faceit_mocap_slot_handle)
          end in
        let '(assignments, h) :=
          assign_objects new_api has_action faceit_objects' new_slot
            faceit_mocap_slot_handle in
        (Assigned (Some new_slot) :: assignments, h)
      else
        let '(assignments, h) :=
          assign_objects new_api has_action faceit_objects' new_slot
            faceit_mocap_slot_handle in
        (Assigned None :: assignments, h)
  end.

(** [FACEIT_OT_PopulateAction.execute], lines 2701-2748: the action that
    is passed (its slots), what is done to each object and the slot handle
    of the scene afterwards; [None] is [{'CANCELLED'}]. *)
Definition populate_action (version : Z * Z * Z) (remove_action : bool)
  (action_name : string) (actions_get : string -> option (list action_slot))
  (faceit_mocap_action : option (list action_slot)) (activate_slot : bool)
  (faceit_mocap_slot_handle : Z) (faceit_objects : list target_object)
  : option (option (list action_slot) * list assignment * Z) :=
  let new_action : option (option (list action_slot)) :=
    if remove_action then Some None
    else
      match (if String.eqb action_name EmptyString then faceit_mocap_action
             else actions_get action_name) with
      | Some a => Some (Some a)
      | None => None
      end in
  match new_action with
  | None => None
  | Some new_action =>
      let new_api := version_ge version (4, 4, 0)%Z in
      let new_slot :=
        if new_api && activate_slot
        then match new_action with
             | Some a =>
                 if negb (faceit_mocap_slot_handle =? 0)%Z
                 then find_slot_by_handle a faceit_mocap_slot_handle
                 else None
             | None => None
             end
        else None in
      let '(assignments, h) :=
        assign_objects new_api (match new_action with Some _ => true | None => false end)
          faceit_objects new_slot faceit_mocap_slot_handle in
      Some (new_action, assignments, h)
  end.

End PopulateAction.

(** ** animate/animate_operators.py: the procedural mouth-close expression *)

Module MouthClose.
Import ExprList.

(** What the operator does to the overwrite action, in the order of the
    calls: [remove_all_animation_for_frame], [rig.keyframe_insert] on the
    location of a bone, [copy_keyframe], and [rig.keyframe_insert] on the
    [mouth_lock] property with the value it has been given. *)
Inductive event : Type :=
| RemoveAnimation (frame : Z)
| InsertLocation (bone_name : string) (frame : Z)
| CopyKeyframe (frame_from frame_to : Z)
| InsertMouthLock (frame : Z) (value : Q).

(** How [execute] ends: [{'CANCELLED'}], an [AttributeError] on [None],
    a [TypeError] on [None] after the events so far, or [{'FINISHED'}]. *)
Inductive outcome : Type :=
| Cancelled
| RaisedAttributeError
| RaisedTypeError (events : list event)
| Finished (events : list event).

(** [expression_list.get(name)] *)
Definition get_item (expression_list : list expression_item) (n : string)
  : option expression_item :=
  match find_name n expression_list with
  | Some k => expression_list !! k
  | None => None
  end.

(** Lines 2412-2427: the bones whose location is keyed. *)
Definition lip_pose_bones (pose_bones : list string) (is_new_rigify_rig : bool)
  : list string :=
  if is_new_rigify_rig
  then ["lip.T.L.001"; "lip.T"; "lip.T.R.001"; "lip.B.L.001"; "lip.B"; "lip.B.R.001"]
       ++ List.filter (String.prefix "lip_end") pose_bones
  else ["lip.T.L.001"; "lip.T"; "lip.T.R.001"; "lip.B.L.001"; "lip.B"; "lip.B.R.001";
        "lips.L"; "lips.R"].

(** Lines 2447-2461: the keys of [mouth_lock], the value 0 on the frames
    -10 and 1 from the expression, then the value 1 on the frames -9
    and 0. *)
Definition mouth_lock_keys (mouth_close_shape_frame : Z) : list event :=
  [InsertMouthLock (mouth_close_shape_frame + -10) 0;
   InsertMouthLock (mouth_close_shape_frame + 1) 0;
   InsertMouthLock (mouth_close_shape_frame + -9) 1;
   InsertMouthLock (mouth_close_shape_frame + 0) 1].

(** [FACEIT_OT_ProceduralMouthClose.execute], lines 2348-2469;
    [pose_bones] are the names of [rig.pose.bones].  The calls to the
    host (mode changes, drivers, key-frame insertion on the rig, the
    helpers of [a_utils]) are taken to return; the ones that write to the
    overwrite action are recorded as events. *)
Definition procedural_mouth_close (pose_bones : list string)
  (expression_list : list expression_item)
  (jaw_open_expression mouth_close_expression : string) (is_new_rigify_rig : bool)
  : outcome :=
  if negb (existsb (String.prefix "lip.") pose_bones) then Cancelled
  else
    match get_item expression_list jaw_open_expression,
          get_item expression_list mouth_close_expression with
    | Some jaw_open_shape, Some mouth_close_shape =>
        let jaw_open_shape_frame := frame jaw_open_shape in
        let mouth_close_shape_frame := frame mouth_close_shape in
        let events :=
          RemoveAnimation mouth_close_shape_frame
          :: map (fun b_name => InsertLocation b_name mouth_close_shape_frame)
               (lip_pose_bones pose_bones is_new_rigify_rig)
          ++ [CopyKeyframe jaw_open_shape_frame mouth_close_shape_frame] in
        if existsb (String.eqb "jaw_master") pose_bones
        then Finished (events ++ mouth_lock_keys mouth_close_shape_frame)
        else RaisedTypeError events
    | _, _ => RaisedAttributeError
    end.

End MouthClose.

(** * Properties *)

(** ** Range remapping *)

Section ScaleToNewRange.
Import Bake.
Local Open Scope Q_scope.

Lemma combine_map_fst_map {A B C : Type} (f : A -> B) (g : A -> C) (l : list A) :
  combine (map f l) (map g l) = map (fun a => (f a, g a)) l.
Proof. induction l as [|a l IH]; simpl; [reflexivity | now rewrite IH]. Qed.

(** C1. With [sk_max != sk_min] and [amplify_compensation != 0],
    [scale_to_new_range] keeps every frame and replaces every value [v] by
    [(M - m) * (v / amplify_compensation - sk_min) / (sk_max - sk_min) + m],
    where [m] is 1 for a scale channel and 0 otherwise, and [M] is
    [min_range] for range ['neg'] and for range ['all'] with [main_dir = -1],
    and [max_range] otherwise.  A value at [sk_min] goes to the rest value
    [m], a value at [sk_max] to the extreme [M]. *)
Theorem C1_scale_to_new_range
  (kf_data : kf_array) (min_range max_range sk_max sk_min : Q) (range : string)
  (main_dir : Z) (is_scale : bool) (amplify_compensation : Q) :
  ~ sk_max == sk_min ->
  ~ amplify_compensation == 0 ->
  let m := if is_scale then 1 else 0 in
  let M := if String.eqb range "neg" || (String.eqb range "all" && Z.eqb main_dir (-1))
           then min_range else max_range in
  let remap := fun v => (M - m) * ((v / amplify_compensation) - sk_min) / (sk_max - sk_min) + m in
  scale_to_new_range kf_data min_range max_range sk_max sk_min range main_dir is_scale
    amplify_compensation
  = map (fun r => (fst r, remap (snd r))) kf_data
  /\ (forall v, v / amplify_compensation == sk_min -> remap v == m)
  /\ (forall v, v / amplify_compensation == sk_max -> remap v == M).
Proof.
  intros Hsk Hamp m M remap. split; [|split].
  - unfold scale_to_new_range. rewrite map_map, combine_map_fst_map.
    apply map_ext. intros [f v]. simpl. f_equal. subst remap M m.
    destruct (String.eqb_spec range "pos") as [->|Hpos]; simpl.
    + reflexivity.
    + destruct (String.eqb_spec range "neg") as [->|Hneg]; simpl.
      * reflexivity.
      * destruct (String.eqb range "all"); simpl; [|reflexivity].
        destruct (Z.eqb main_dir (-1)); reflexivity.
  - intros v Hv. subst remap. simpl. rewrite Hv. field.
    intros H. apply Hsk. rewrite <- (Qplus_0_r sk_min), <- H. ring.
  - intros v Hv. subst remap. simpl. rewrite Hv. field.
    intros H. apply Hsk. rewrite <- (Qplus_0_r sk_min), <- H. ring.
Qed.

Lemma C1_scale_to_new_range_witness :
  scale_to_new_range [(10, 1 # 2); (20, 1)] (-3) 4 1 0 "neg" 1 false 1
  = map (fun r => (fst r, ((-3) - 0) * ((snd r / 1) - 0) / (1 - 0) + 0)) [(10, 1 # 2); (20, 1)]
  /\ (forall v, v / 1 == 0 -> ((-3) - 0) * ((v / 1) - 0) / (1 - 0) + 0 == 0)
  /\ (forall v, v / 1 == 1 -> ((-3) - 0) * ((v / 1) - 0) / (1 - 0) + 0 == -3).
Proof.
  apply (C1_scale_to_new_range [(10, 1 # 2); (20, 1)] (-3) 4 1 0 "neg" 1 false 1).
  - intros H. discriminate H.
  - intros H. discriminate H.
Defined.

End ScaleToNewRange.

(** ** The dictionary of motion data *)

Section MotionData.
Import Bake.
Local Open Scope Q_scope.

Lemma od_get_set_eq {V : Type} (k : string) (v : V) (d : list (string * V)) :
  od_get k (od_set k v d) = Some v.
Proof.
  induction d as [|[k' v'] d IH]; simpl.
  - now rewrite String.eqb_refl.
  - destruct (String.eqb k k') eqn:E; simpl; rewrite ?String.eqb_refl, ?E; auto.
Qed.

Lemma od_get_set_ne {V : Type} (k k' : string) (v : V) (d : list (string * V)) :
  k <> k' -> od_get k' (od_set k v d) = od_get k' d.
Proof.
  intros Hne. induction d as [|[k0 v0] d IH]; simpl.
  - destruct (String.eqb_spec k' k); [congruence | reflexivity].
  - destruct (String.eqb_spec k k0) as [->|Hk]; simpl.
    + destruct (String.eqb_spec k' k0); [congruence | reflexivity].
    + destruct (String.eqb_spec k' k0); [reflexivity | exact IH].
Qed.

Lemma append_inj_r (s x y : string) : String.append s x = String.append s y -> x = y.
Proof. induction s as [|c s IH]; simpl; intros H; [exact H | injection H; auto]. Qed.

Lemma fcurve_identifier_inj (dp : string) (i j : Z) :
  fcurve_identifier dp i = fcurve_identifier dp j -> i = j.
Proof.
  unfold fcurve_identifier. intros H.
  apply append_inj_r in H. simpl in H. injection H as H.
  exact (inj (pretty (A:=Z)) _ _ H).
Qed.

Lemma iadd_values_same_length (a b : kf_array) :
  length a = length b ->
  iadd_values a b = Some (zip_with (fun ra rb => (fst ra, snd ra + snd rb)) a b).
Proof.
  intros H. unfold iadd_values. rewrite H, Nat.eqb_refl. reflexivity.
Qed.

Lemma zip_with_frames (a b : kf_array) :
  length a = length b ->
  map fst (zip_with (fun ra rb => (fst ra, snd ra + snd rb)) a b) = map fst a.
Proof.
  revert b. induction a as [|ra a IH]; intros [|rb b] H; simpl in *; try discriminate; auto.
  f_equal. apply IH. lia.
Qed.

Lemma zip_with_values (a b : kf_array) :
  map snd (zip_with (fun ra rb => (fst ra, snd ra + snd rb)) a b)
  = zip_with Qplus (map snd a) (map snd b).
Proof.
  revert b. induction a as [|ra a IH]; intros [|rb b]; simpl; auto.
  f_equal. apply IH.
Qed.

Lemma iadd_values_frames (a b a' : kf_array) :
  iadd_values a b = Some a' -> map fst a' = map fst a.
Proof.
  unfold iadd_values. destruct (Nat.eqb_spec (length b) (length a)) as [E|E].
  - intros [= <-]. now apply zip_with_frames.
  - destruct b as [|rb [|? ?]]; try discriminate. intros [= <-].
    rewrite map_map. reflexivity.
Qed.

(** C8, the literal reading fails: called with [is_scale=True] on the data
    path ["location"] and index 5, the function visits the indices 0, 1, 2
    and leaves the present entry of index 5 as it was. *)
Lemma C8_is_scale_flag_counterexample :
  ~ sums_into_present_entry "location" 5 1%nat true
      [(fcurve_identifier "location" 5, MotionEntry "location" 5 0%nat)]
      [[(1, 2)]; [(1, 3)]].
Proof.
  intros H.
  destruct (H (MotionEntry "location" 5 0%nat) [(1, 2)] [(1, 3)])
    as (a' & Ha' & _ & Hv); try reflexivity.
  vm_compute in Ha'. injection Ha' as <-.
  simpl in Hv. inversion Hv as [|x y l l' Hxy _]; subst. discriminate Hxy.
Qed.

(** C8, amended.  When [is_scale] is passed as the callers pass it
    ([False] for a data path without ['scale'], [True] for a scale
    channel): for a path without ['scale'] and a present pair with as many
    rows as the new array, the dictionary is unchanged and the stored array
    keeps its frames and has the new values added row by row; for a scale
    channel the entries of the indices 0, 1 and 2 are set to the new array,
    whatever was stored, and no stored array is changed. *)
Theorem C8_populate_motion_data_dict :
  (forall dp i new_kf_data bone_motion_data st e a b,
     PyStr.contains "scale" dp = false ->
     od_get (fcurve_identifier dp i) bone_motion_data = Some e ->
     st !! kf_data e = Some a ->
     st !! new_kf_data = Some b ->
     length a = length b ->
     exists a',
       populate_motion_data_dict dp (Single i) new_kf_data false bone_motion_data st
       = (bone_motion_data, <[kf_data e := a']> st)
       /\ <[kf_data e := a']> st !! kf_data e = Some a'
       /\ map fst a' = map fst a
       /\ map snd a' = zip_with Qplus (map snd a) (map snd b))
  /\ (forall dp array_index new_kf_data bone_motion_data st,
        PyStr.contains "scale" dp = true ->
        exists bone_motion_data',
          populate_motion_data_dict dp array_index new_kf_data true bone_motion_data st
          = (bone_motion_data', st)
          /\ forall i, In i [0; 1; 2]%Z ->
               od_get (fcurve_identifier dp i) bone_motion_data'
               = Some (MotionEntry dp i new_kf_data)).
Proof.
  split.
  - intros dp i new bmd st e a b Hdp He Ha Hb Hlen.
    exists (zip_with (fun ra rb => (fst ra, snd ra + snd rb)) a b).
    split; [|split; [|split]].
    + unfold populate_motion_data_dict. cbn [fold_left]. unfold populate_one.
      rewrite He, Hdp. cbn [negb].
      rewrite Ha, Hb, (iadd_values_same_length _ _ Hlen). reflexivity.
    + apply list_lookup_insert_eq. now apply lookup_lt_Some in Ha.
    + now apply zip_with_frames.
    + apply zip_with_values.
  - intros dp ai new bmd st Hdp.
    assert (Hone : forall i d, populate_one dp new i (d, st)
                   = (od_set (fcurve_identifier dp i) (MotionEntry dp i new) d, st)).
    { intros i d. unfold populate_one. rewrite Hdp. simpl.
      destruct (od_get (fcurve_identifier dp i) d); reflexivity. }
    eexists. split.
    + unfold populate_motion_data_dict. cbn [fold_left]. rewrite !Hone. reflexivity.
    + intros i Hi.
      assert (Hne : forall j k : Z, j <> k -> fcurve_identifier dp j <> fcurve_identifier dp k).
      { intros j k Hjk Heq. apply Hjk. now apply fcurve_identifier_inj in Heq. }
      simpl in Hi. destruct Hi as [<-|[<-|[<-|[]]]].
      * rewrite od_get_set_ne by (apply Hne; lia).
        rewrite od_get_set_ne by (apply Hne; lia).
        apply od_get_set_eq.
      * rewrite od_get_set_ne by (apply Hne; lia).
        apply od_get_set_eq.
      * apply od_get_set_eq.
Qed.

Lemma C8_populate_motion_data_dict_witness :
  (exists a',
     populate_motion_data_dict "location" (Single 1) 1%nat false
       [(fcurve_identifier "location" 1, MotionEntry "location" 1 0%nat)]
       [[(1, 2); (2, 0)]; [(1, 3); (2, 1)]]
     = ([(fcurve_identifier "location" 1, MotionEntry "location" 1 0%nat)],
        <[0%nat := a']> [[(1, 2); (2, 0)]; [(1, 3); (2, 1)]])
     /\ <[0%nat := a']> [[(1, 2); (2, 0)]; [(1, 3); (2, 1)]] !! 0%nat = Some a'
     /\ map fst a' = [1; 2]
     /\ map snd a' = [2 + 3; 0 + 1])
  /\ (exists bone_motion_data',
        populate_motion_data_dict "scale" (Single 1) 1%nat true
          [(fcurve_identifier "scale" 1, MotionEntry "scale" 1 0%nat)]
          [[(1, 2)]; [(1, 3)]]
        = (bone_motion_data', [[(1, 2)]; [(1, 3)]])
        /\ forall i, In i [0; 1; 2]%Z ->
             od_get (fcurve_identifier "scale" i) bone_motion_data'
             = Some (MotionEntry "scale" i 1%nat)).
Proof.
  destruct C8_populate_motion_data_dict as [Hsum Hscale]. split.
  - apply (Hsum "location" 1%Z 1%nat
             [(fcurve_identifier "location" 1, MotionEntry "location" 1 0%nat)]
             [[(1, 2); (2, 0)]; [(1, 3); (2, 1)]]
             (MotionEntry "location" 1 0%nat) [(1, 2); (2, 0)] [(1, 3); (2, 1)]);
      reflexivity.
  - apply (Hscale "scale" (Single 1) 1%nat
             [(fcurve_identifier "scale" 1, MotionEntry "scale" 1 0%nat)]
             [[(1, 2)]; [(1, 3)]]).
    reflexivity.
Defined.

(** *** Frame offsets of the two bake functions *)

Lemma scale_to_new_range_frames kf_data min_range max_range sk_max sk_min range main_dir
  is_scale amplify_compensation :
  map fst (scale_to_new_range kf_data min_range max_range sk_max sk_min range main_dir
             is_scale amplify_compensation) = map fst kf_data.
Proof.
  unfold scale_to_new_range. rewrite map_map, combine_map_fst_map, map_map.
  reflexivity.
Qed.

Lemma In_od_set {V : Type} (k k0 : string) (v v0 : V) (d : list (string * V)) :
  In (k, v) (od_set k0 v0 d) -> (k, v) = (k0, v0) \/ In (k, v) d.
Proof.
  induction d as [|[k1 v1] d IH]; simpl.
  - intros [H|[]]; auto.
  - destruct (String.eqb k0 k1); simpl; intros [H|H]; auto.
    destruct (IH H); auto.
Qed.

Lemma populate_one_inv curves dp new i s :
  (new < length (snd s))%nat ->
  motion_inv curves s ->
  motion_inv curves (populate_one dp new i s)
  /\ length (snd (populate_one dp new i s)) = length (snd s).
Proof.
  destruct s as [bmd st]. intros Hnew [Hrefs Hfr]. cbn [fst snd] in *.
  assert (Hset : motion_inv curves
            (od_set (fcurve_identifier dp i) (MotionEntry dp i new) bmd, st)).
  { split; cbn [fst snd]; [|exact Hfr].
    intros k e Hin. apply In_od_set in Hin as [[= -> ->]|Hin]; simpl; eauto. }
  assert (Hid : motion_inv curves (bmd, st)) by (split; assumption).
  unfold populate_one.
  destruct (od_get (fcurve_identifier dp i) bmd) as [md|]; [|split; [exact Hset | reflexivity]].
  destruct (negb (PyStr.contains "scale" dp)); [|split; [exact Hset | reflexivity]].
  destruct (st !! kf_data md) as [a|] eqn:Ha; [|split; [exact Hid | reflexivity]].
  destruct (st !! new) as [b|] eqn:Hb; [|split; [exact Hid | reflexivity]].
  destruct (iadd_values a b) as [a'|] eqn:Hadd; [|split; [exact Hid | reflexivity]].
  split; [split|]; cbn [fst snd].
  - intros k e Hin. rewrite length_insert. eauto.
  - intros r x Hx. apply list_lookup_insert_Some in Hx as [(<- & -> & _)|[_ Hx]]; eauto.
    destruct (Hfr _ _ Ha) as (c & Hc & Hfc). exists c. split; [exact Hc|].
    rewrite <- Hfc. now apply iadd_values_frames with b.
  - apply length_insert.
Qed.

Lemma populate_fold_inv curves dp new l s :
  (new < length (snd s))%nat ->
  motion_inv curves s ->
  motion_inv curves (fold_left (fun s i => populate_one dp new i s) l s).
Proof.
  revert s. induction l as [|i l IH]; intros s Hnew Hinv; cbn [fold_left]; [exact Hinv|].
  destruct (populate_one_inv curves dp new i s Hnew Hinv) as [Hi Hlen].
  apply IH; [rewrite Hlen; exact Hnew | exact Hi].
Qed.

Lemma motion_inv_incl curves curves' s :
  (forall c, In c curves -> In c curves') -> motion_inv curves s -> motion_inv curves' s.
Proof.
  intros Hincl [Hrefs Hfr]. split; [exact Hrefs|].
  intros r a Hr. destruct (Hfr r a Hr) as (c & Hc & Hf). eauto.
Qed.

Lemma collect_one_inv curves camp carkit s c :
  In c curves -> motion_inv curves s -> motion_inv curves (collect_one camp carkit s c).
Proof.
  destruct s as [bmd st]. intros Hc [Hrefs Hfr]. unfold collect_one, alloc.
  cbn [fst snd] in *. unfold populate_motion_data_dict.
  apply populate_fold_inv; cbn [fst snd].
  - rewrite length_app. simpl. lia.
  - split; cbn [fst snd].
    + intros k e Hin. rewrite length_app. apply Hrefs in Hin. lia.
    + intros r a Hr. apply lookup_app_Some in Hr as [Hr|[_ Hr]]; [eauto|].
      destruct (r - length st)%nat; simpl in Hr; [|discriminate].
      injection Hr as <-. exists c. split; [exact Hc|].
      apply scale_to_new_range_frames.
Qed.

Lemma collect_fold_inv curves camp carkit l s :
  (forall c, In c l -> In c curves) ->
  motion_inv curves s ->
  motion_inv curves (fold_left (collect_one camp carkit) l s).
Proof.
  revert s. induction l as [|c l IH]; intros s Hl Hinv; cbn [fold_left]; [exact Hinv|].
  apply IH; [intros; apply Hl; now right|].
  apply collect_one_inv; [apply Hl; now left | exact Hinv].
Qed.

Lemma collect_motion_data_inv curves camp carkit :
  motion_inv curves (collect_motion_data curves camp carkit).
Proof.
  apply collect_fold_inv; [auto|].
  split; cbn [fst snd]; [intros k e []|intros r a Hr; discriminate Hr].
Qed.

Lemma Forall2_impl_In_r {A B : Type} (P Q : A -> B -> Prop) (l1 : list A) (l2 : list B) :
  Forall2 P l1 l2 -> (forall x y, In y l2 -> P x y -> Q x y) -> Forall2 Q l1 l2.
Proof.
  induction 1 as [|x y l1 l2 Hxy H IH]; intros HPQ; constructor.
  - apply HPQ; [now left | exact Hxy].
  - apply IH. intros x' y' Hin. apply HPQ. now right.
Qed.

Lemma write_motion_data_spec items mix_method frame_start st :
  (forall k e, In (k, e) items -> (kf_data e < length st)%nat) ->
  Forall2 (fun w item =>
             w = KeyframeWrite (data_path (snd item)) (Some (array_index (snd item)))
                   (map (fun r => (fst r + inject_Z frame_start, snd r))
                      (st !!! kf_data (snd item)))
                   true (String.eqb mix_method "MIX"))
    (fst (write_motion_data items mix_method frame_start st)) items
  /\ (forall r, (r < length st)%nat ->
        snd (write_motion_data items mix_method frame_start st) !! r = st !! r).
Proof.
  revert st. induction items as [|[k e] items IH]; intros st Hrefs.
  - simpl. split; [constructor | reflexivity].
  - cbn [write_motion_data]. unfold np_copy, alloc, iadd_frames.
    set (st1 := <[length st := _]> (st ++ [st !!! kf_data e])).
    assert (Hlen1 : length st1 = S (length st)).
    { subst st1. rewrite length_insert, length_app. simpl. lia. }
    assert (Hold : forall r, (r < length st)%nat -> st1 !! r = st !! r).
    { intros r Hr. subst st1. rewrite list_lookup_insert_ne by lia.
      now apply lookup_app_l. }
    destruct (IH st1) as [Hws Hst].
    { intros k' e' Hin. rewrite Hlen1. specialize (Hrefs k' e' (or_intror Hin)). lia. }
    destruct (write_motion_data items mix_method frame_start st1) as [ws st2] eqn:Hw.
    cbn [fst snd] in *. split.
    + constructor.
      * cbn [snd]. f_equal. subst st1.
        rewrite list_lookup_total_insert_eq by (rewrite length_app; simpl; lia).
        rewrite lookup_total_app_r by lia. rewrite Nat.sub_diag. reflexivity.
      * eapply Forall2_impl_In_r; [exact Hws|].
        intros w [k' e'] Hin ->. cbn [snd]. do 2 f_equal.
        rewrite !list_lookup_total_alt. rewrite Hold; [reflexivity|].
        exact (Hrefs k' e' (or_intror Hin)).
    + intros r Hr. rewrite Hst by lia. now apply Hold.
Qed.

(** C3. The rows [bake_shape_keys_to_ctrl_rig] writes for an entry of the
    collected motion data are the rows of that entry with [frame_start]
    added to the frame and the value as it is; the frames of the entry are
    those of the key frames of a source curve; the arrays of the collected
    motion data are the same after the writes as before (the offset goes to
    a copy).  The rows [bake_ctrl_rig_animation_to_shape_keys] writes are
    the sampled rows with [start_frame] added to the frame and the value as
    it is. *)
Theorem C3_frame_offsets :
  (forall curves mix_method compensate_amplify_values compensate_arkit_amplify_values
          frame_start,
     let collected :=
       collect_motion_data curves compensate_amplify_values compensate_arkit_amplify_values in
     let written := write_motion_data (fst collected) mix_method frame_start (snd collected) in
     bake_shape_keys_to_ctrl_rig true true curves mix_method compensate_amplify_values
       compensate_arkit_amplify_values frame_start = fst written
     /\ Forall2
          (fun w item =>
             w_data_path w = data_path (snd item)
             /\ w_array_index w = Some (array_index (snd item))
             /\ w_rows w = map (fun r => (fst r + inject_Z frame_start, snd r))
                             (snd collected !!! kf_data (snd item))
             /\ exists c, In c curves
                  /\ map fst (snd collected !!! kf_data (snd item)) = map fst (sc_keyframes c))
          (fst written) (fst collected)
     /\ (forall r, (r < length (snd collected))%nat -> snd written !! r = snd collected !! r))
  /\ (forall all_frames target_objects mix_method start_frame,
        Forall2
          (fun w item =>
             w_data_path w = fst item
             /\ w_rows w = map (fun r => (fst r + inject_Z start_frame, snd r)) (snd item))
          (bake_ctrl_rig_animation_to_shape_keys all_frames target_objects mix_method
             start_frame)
          (sample_frames all_frames target_objects)).
Proof.
  split.
  - intros curves mix camp carkit fs collected written.
    pose proof (collect_motion_data_inv curves camp carkit) as [Hrefs Hfr].
    fold collected in Hrefs, Hfr.
    destruct (write_motion_data_spec (fst collected) mix fs (snd collected) Hrefs)
      as [Hws Hst].
    fold written in Hws, Hst. split; [|split].
    + unfold bake_shape_keys_to_ctrl_rig. cbn [negb]. fold collected.
      subst written. destruct collected as [bmd st]. reflexivity.
    + eapply Forall2_impl_In_r; [exact Hws|].
      intros w [k e] Hin ->. cbn [snd w_data_path w_array_index w_rows].
      repeat split.
      specialize (Hrefs k e Hin).
      destruct (lookup_lt_is_Some_2 _ _ Hrefs) as [a Ha].
      destruct (Hfr _ _ Ha) as (c & Hc & Hf). exists c. split; [exact Hc|].
      now rewrite (list_lookup_total_correct _ _ _ Ha).
    + exact Hst.
  - intros all_frames target_objects mix start_frame.
    unfold bake_ctrl_rig_animation_to_shape_keys, write_anim_data.
    induction (sample_frames all_frames target_objects) as [|[dp rows] l IH]; simpl;
      constructor; auto.
Qed.

Lemma C3_frame_offsets_witness :
  let curves := [ShapeCurve [(1, 1 # 2); (2, 1)] "location" (Single 0) 4 (-3) "pos" 1 1 None] in
  let collected := collect_motion_data curves false false in
  let written := write_motion_data (fst collected) "REPLACE" 100 (snd collected) in
  (bake_shape_keys_to_ctrl_rig true true curves "REPLACE" false false 100 = fst written
   /\ map w_rows (fst written) = [[(1 + inject_Z 100, (4 - 0) * ((1 # 2) / 1 - 0) / (1 - 0) + 0);
                                    (2 + inject_Z 100, (4 - 0) * (1 / 1 - 0) / (1 - 0) + 0)]]
   /\ snd written !! 0%nat = snd collected !! 0%nat)
  /\ map w_rows (bake_ctrl_rig_animation_to_shape_keys [1; 2]
                   [Some (ShapeKeyId (Some ["a"]) (fun fr _ => fr * 2))] "MIX" 100)
     = [[(1 + inject_Z 100, 1 * 2); (2 + inject_Z 100, 2 * 2)]].
Proof.
  intros curves collected written.
  destruct C3_frame_offsets as [Hbake Hsample].
  destruct (Hbake curves "REPLACE" false false 100%Z) as (Heq & Hrows & Hst).
  split; [split; [exact Heq | split]|].
  - reflexivity.
  - apply Hst. vm_compute. lia.
  - reflexivity.
Defined.

End MotionData.

(** ** Looking up the f-curves of an ID *)

Section ActiveFcurves.
Import Host AnimUtils.

(** C9. [get_active_animation_fcurves_from_id] returns the empty list for
    no ID, no animation data and no action, and the f-curves of the action
    before Blender 4.4; from 4.4 on it returns the f-curves of the channel
    bag of the assigned slot when there is one, but with no slot assigned,
    or no channel bag for the slot, it raises [UnboundLocalError] instead of
    returning a list.  [get_fcurves_from_slot] returns the f-curves of the
    action before 4.4 and of the channel bag from 4.4 on, and raises
    [UnboundLocalError] when there is no channel bag and [ensure] is
    false. *)
Theorem C9_fcurves_lookup_raises :
  (forall version, get_active_animation_fcurves_from_id version None = Ok [])
  /\ (forall version,
        get_active_animation_fcurves_from_id version (Some (MkID None)) = Ok [])
  /\ (forall version slot,
        get_active_animation_fcurves_from_id version
          (Some (MkID (Some (AnimData None slot)))) = Ok [])
  /\ (forall version a slot,
        version_ge version (4, 4, 0)%Z = false ->
        get_active_animation_fcurves_from_id version
          (Some (MkID (Some (AnimData (Some a) slot)))) = Ok (fcurves a))
  /\ (forall version a handle bag,
        version_ge version (4, 4, 0)%Z = true ->
        action_get_channelbag_for_slot a (Some handle) = Some bag ->
        get_active_animation_fcurves_from_id version
          (Some (MkID (Some (AnimData (Some a) (Some handle))))) = Ok bag)
  /\ (forall version a,
        version_ge version (4, 4, 0)%Z = true ->
        get_active_animation_fcurves_from_id version
          (Some (MkID (Some (AnimData (Some a) None)))) = Raise UnboundLocalError)
  /\ (forall version a handle,
        version_ge version (4, 4, 0)%Z = true ->
        action_get_channelbag_for_slot a (Some handle) = None ->
        get_active_animation_fcurves_from_id version
          (Some (MkID (Some (AnimData (Some a) (Some handle))))) = Raise UnboundLocalError)
  /\ (forall ensure_channelbag version a slot,
        version_ge version (4, 4, 0)%Z = true ->
        action_get_channelbag_for_slot a slot = None ->
        get_fcurves_from_slot ensure_channelbag version a slot false
        = Raise UnboundLocalError).
Proof.
  repeat split.
  - intros version a slot Hv. unfold get_active_animation_fcurves_from_id.
    cbn [animation_data adt_action]. now rewrite Hv.
  - intros version a handle bag Hv Hbag. unfold get_active_animation_fcurves_from_id.
    cbn [animation_data adt_action action_slot]. now rewrite Hv, Hbag.
  - intros version a Hv. unfold get_active_animation_fcurves_from_id.
    cbn [animation_data adt_action action_slot]. now rewrite Hv.
  - intros version a handle Hv Hbag. unfold get_active_animation_fcurves_from_id.
    cbn [animation_data adt_action action_slot]. now rewrite Hv, Hbag.
  - intros ens version a slot Hv Hbag. unfold get_fcurves_from_slot.
    now rewrite Hv, Hbag.
Qed.

Lemma C9_fcurves_lookup_raises_witness :
  get_active_animation_fcurves_from_id (4, 4, 0)%Z
    (Some (MkID (Some (AnimData (Some (Action [] [])) None)))) = Raise UnboundLocalError
  /\ get_active_animation_fcurves_from_id (4, 3, 0)%Z
       (Some (MkID (Some (AnimData (Some (Action [] [])) None)))) = Ok []
  /\ get_fcurves_from_slot (fun _ _ => Ok []) (4, 5, 0)%Z (Action [] []) None false
     = Raise UnboundLocalError.
Proof.
  destruct C9_fcurves_lookup_raises as (_ & _ & _ & Hold & _ & Hnone & _ & Hslot).
  split; [|split].
  - apply (Hnone (4, 4, 0)%Z (Action [] [])). reflexivity.
  - apply (Hold (4, 3, 0)%Z (Action [] []) None). reflexivity.
  - apply (Hslot (fun _ _ => Ok []) (4, 5, 0)%Z (Action [] []) None); reflexivity.
Defined.

End ActiveFcurves.

(** ** Mirror names *)

Section MirrorNames.
Import Mirror.

(** C6. Mirroring a sided expression name twice is not always the
    identity: ["cheekRaiser_L"] is on side L, its mirror name
    ["cheekRaiser_R"] is non-empty and on side R, and the mirror name of
    that is ["cheekLaiser_L"], because [replace] rewrites every ['R'] of
    the name and not only the suffix that was tested. *)
Theorem C6_mirror_twice_differs :
  get_side "cheekRaiser_L" = "L"
  /\ get_mirror_name (get_side "cheekRaiser_L") "cheekRaiser_L" = "cheekRaiser_R"
  /\ get_side "cheekRaiser_R" = "R"
  /\ get_mirror_name (get_side "cheekRaiser_R") "cheekRaiser_R" = "cheekLaiser_L"
  /\ get_mirror_name "R" (get_mirror_name "L" "cheekRaiser_L") <> "cheekRaiser_L".
Proof. repeat split. vm_compute. discriminate. Qed.

End MirrorNames.

(** ** Importing a preset: rotation modes and rig scale *)

Section ImportPreset.
Import Host Append.
Local Open Scope Q_scope.

Lemma mapM_Ok {A B : Type} (f : A -> result B) (g : A -> B) (l : list A) :
  (forall x, In x l -> f x = Ok (g x)) -> mapM f l = Ok (map g l).
Proof.
  induction l as [|x l IH]; intros Hf; [reflexivity|].
  cbn [mapM map]. rewrite (Hf x (or_introl eq_refl)). cbn [mbind result_bind].
  rewrite IH; [reflexivity|]. intros y Hy. apply Hf. now right.
Qed.

(** The rotation vector of a frame, channel by channel: the stored sample
    when there is one and it is not zero, the default of the channel
    otherwise. *)
Lemma rot_value_of_spec (channels : nat) (default : list Q) (value_dict : gmap Z Q) :
  (channels <= length default)%nat ->
  rot_value_of channels (Some default) value_dict
  = Ok (map (fun i => match value_dict !! Z.of_nat i with
                      | Some val => if Qeq_bool val 0 then nth i default 0 else val
                      | None => nth i default 0
                      end) (seq 0 channels)).
Proof.
  intros Hlen. unfold rot_value_of. apply mapM_Ok. intros i Hi.
  apply in_seq in Hi.
  assert (Hd : default_at (Some default) i = Ok (nth i default 0)).
  { unfold default_at. destruct (lookup_lt_is_Some_2 default i) as [d Hd]; [lia|].
    rewrite Hd. f_equal. symmetry. now apply nth_lookup_Some. }
  destruct (value_dict !! Z.of_nat i) as [val|]; [|exact Hd].
  destruct (Qeq_bool val 0); [exact Hd | reflexivity].
Qed.

(** C4. A stored sample that is zero is treated like a missing one: for a
    quaternion curve with the samples [w = 0] and [x = 1] at frame 10 the
    vector handed to the conversion is [[1; 1; 0; 0]], the default 1 of the
    channel [w] standing where 0 was stored, and the converted key frames
    at frame 10 are those of that vector. *)
Theorem C4_zero_sample_takes_default (convert_rotation_values : list Q -> list Q) :
  frames_dict_of [("0", [(10, 0)]); ("1", [(10, 1)])]
  = Ok [(10, <[1%Z := 1]> {[0%Z := 0]})]
  /\ rot_value_of 4 (Some [1; 0; 0; 0]) (<[1%Z := 1]> {[0%Z := 0]}) = Ok [1; 1; 0; 0]
  /\ convert_rotation_data convert_rotation_values 4 (Some [1; 0; 0; 0])
       [("0", [(10, 0)]); ("1", [(10, 1)])]
     = Ok (fold_left
             (fun d '(i, value) => od_append (pretty (Z.of_nat i)) (10, value) d)
             (imap (fun i value => (i, value)) (convert_rotation_values [1; 1; 0; 0])) []).
Proof. repeat split. Qed.

Lemma auto_action_scale_no_zero rest_pose (check : list pose_bone) dx dy dz rx ry rz :
  check <> [] ->
  get_import_rig_dimensions rest_pose check = Ok [dx; dy; dz] ->
  get_rig_dimensions check = Ok [rx; ry; rz] ->
  Qeq_bool dx 0 = false -> Qeq_bool dy 0 = false -> Qeq_bool dz 0 = false ->
  auto_action_scale rest_pose check
  = Ok ([rx / dx; ry / dy; rz / dz],
        negb (forallb (fun x => Qeq_bool x 1) [rx / dx; ry / dy; rz / dz])).
Proof.
  intros Hne Himp Hrig Hx Hy Hz. unfold auto_action_scale.
  destruct check as [|pb check]; [congruence|].
  rewrite Himp, Hrig. cbn [mbind result_bind List.filter].
  rewrite Hx, Hy, Hz. cbn. unfold py_div. rewrite Hx, Hy, Hz. reflexivity.
Qed.

(** C5. With two control bones that differ along one axis only, the
    imported dimensions are [[0; 0; 2]]: the first zero is replaced by the
    average 2 of the others, the second zero stays, and the division by it
    raises [ZeroDivisionError], so no scale factor is computed. *)
Theorem C5_second_zero_dimension_stays :
  let pose_bones := [PoseBone "jaw" (0, 0, 0); PoseBone "brow" (0, 0, 3)] in
  let rest_pose : gmap string (Q * Q * Q) :=
    <["brow" := (0, 0, 2)]> {["jaw" := (0, 0, 0)]} in
  let check := bone_dimensions_check [] "ANY" pose_bones rest_pose in
  check = pose_bones
  /\ get_import_rig_dimensions rest_pose check = Ok [0 - 0; 0 - 0; 2 - 0]
  /\ auto_action_scale rest_pose check = Raise ZeroDivisionError.
Proof. repeat split. Qed.

End ImportPreset.

(** ** Exporting the expressions *)

Section ExportExpressions.
Import Host ExportJson.
Local Open Scope Q_scope.

Lemma py_mod_10_multiple (f : Q) :
  Qeq_bool (py_mod f 10) 0 = true <-> exists k : Z, f == inject_Z (10 * k).
Proof.
  unfold py_mod. rewrite Qeq_bool_iff. split.
  - intros H. exists (Qfloor (f / 10)). rewrite inject_Z_mult.
    rewrite <- (Qplus_0_r (inject_Z 10 * _)), <- H. change (inject_Z 10) with 10. ring.
  - intros [k Hk].
    assert (Hdiv : f / 10 == inject_Z k).
    { rewrite Hk, inject_Z_mult. change (inject_Z 10) with 10. field. }
    rewrite Hdiv, Qfloor_Z, Hk, inject_Z_mult. change (inject_Z 10) with 10. ring.
Qed.

Lemma filter_filter_andb {A : Type} (p q : A -> bool) (l : list A) :
  List.filter q (List.filter p l) = List.filter (fun x => p x && q x) l.
Proof.
  induction l as [|x l IH]; simpl; [reflexivity|].
  destruct (p x); simpl; [destruct (q x)|]; now rewrite IH.
Qed.

Lemma kept_keyframes_filter (fc : fcurve) :
  kept_keyframes fc
  = List.filter
      (fun r => Qeq_bool (py_mod (fst r) 10) 0
                && negb (Qeq_bool (snd r)
                           (if PyStr.contains "scale" (data_path fc)
                               || (PyStr.contains "rotation_quaternion" (data_path fc)
                                   && (array_index fc =? 0)%Z)
                            then 1 else 0)))
      (map co (keyframe_points fc)).
Proof.
  unfold kept_keyframes, kf_data_to_numpy_array.
  destruct (PyStr.contains "scale" (data_path fc)
            || (PyStr.contains "rotation_quaternion" (data_path fc)
                && (array_index fc =? 0)%Z));
    rewrite filter_filter_andb; apply List.filter_ext; intros r;
    now rewrite negb_involutive.
Qed.

Lemma export_fcurve_stored rig_type m fc dp i :
  stored_at (export_fcurve rig_type m fc) dp i
  = if exported rig_type fc && String.eqb (data_path fc) dp && (array_index fc =? i)%Z
    then Some (kept_keyframes fc)
    else stored_at m dp i.
Proof.
  unfold export_fcurve, exported, stored_at.
  destruct (skipped rig_type (data_path fc)); [reflexivity|].
  destruct (kept_keyframes fc) as [|r kfs] eqn:Hk; [reflexivity|]. cbn [negb andb].
  destruct (String.eqb_spec (data_path fc) dp) as [<-|Hdp].
  - destruct (Z.eqb_spec (array_index fc) i) as [<-|Hi]; cbn [andb].
    + destruct (m !! data_path fc) as [d|]; [case_decide|];
        rewrite lookup_insert_eq; cbn; now rewrite ?lookup_insert_eq, ?lookup_singleton_eq.
    + destruct (m !! data_path fc) as [d|] eqn:Hd; [case_decide|];
        rewrite lookup_insert_eq; cbn.
      * subst d. now rewrite lookup_singleton_ne, lookup_empty.
      * now rewrite lookup_insert_ne.
      * now rewrite lookup_singleton_ne.
  - cbn [andb].
    destruct (m !! data_path fc) as [d|]; [case_decide|]; now rewrite lookup_insert_ne.
Qed.

Lemma exports_to_spec rig_type fc dp i :
  exported rig_type fc && String.eqb (data_path fc) dp && (array_index fc =? i)%Z = true
  <-> exported rig_type fc = true /\ data_path fc = dp /\ array_index fc = i.
Proof. rewrite !andb_true_iff, String.eqb_eq, Z.eqb_eq. tauto. Qed.

Lemma export_fold_stored rig_type (l : list fcurve) m dp i kfs :
  NoDup (map (fun fc => (data_path fc, array_index fc)) l) ->
  stored_at (fold_left (export_fcurve rig_type) l m) dp i = Some kfs
  <-> (exists fc, In fc l /\ exported rig_type fc = true
                  /\ data_path fc = dp /\ array_index fc = i /\ kfs = kept_keyframes fc)
      \/ ((forall fc, In fc l ->
             ~ (exported rig_type fc = true /\ data_path fc = dp /\ array_index fc = i))
          /\ stored_at m dp i = Some kfs).
Proof.
  revert m. induction l as [|fc l IH]; intros m Hnd; cbn [fold_left].
  - split; [intros H; right; split; [intros fc []|exact H]|].
    intros [(fc & [] & _)|[_ H]]; exact H.
  - cbn [map] in Hnd. apply NoDup_cons in Hnd as [Hfc Hnd].
    rewrite (IH _ Hnd), export_fcurve_stored. clear IH.
    assert (Hfresh : forall fc', In fc' l ->
              ~ (data_path fc' = data_path fc /\ array_index fc' = array_index fc)).
    { intros fc' Hin [H1 H2]. apply Hfc. apply list_elem_of_In.
      apply in_map_iff. exists fc'. split; [now rewrite H1, H2 | exact Hin]. }
    pose proof (exports_to_spec rig_type fc dp i) as Hspec.
    destruct (exported rig_type fc && String.eqb (data_path fc) dp
              && (array_index fc =? i)%Z) eqn:Hm.
    + destruct Hspec as [Hspec _]. destruct (Hspec eq_refl) as (Hex & Hdp & Hi).
      split.
      * intros [(fc' & Hin & Hex' & Hdp' & Hi' & Hk)|[Hno [= <-]]].
        -- left. exists fc'. repeat split; auto. now right.
        -- left. exists fc. repeat split; auto. now left.
      * intros [(fc' & [<-|Hin] & Hex' & Hdp' & Hi' & Hk)|[Hno Hst]].
        -- right. split; [|now rewrite Hk].
           intros fc' Hin (_ & H1 & H2). apply (Hfresh fc' Hin). split; congruence.
        -- exfalso. apply (Hfresh fc' Hin). split; congruence.
        -- exfalso. apply (Hno fc); [now left | auto].
    + assert (Hnm : ~ (exported rig_type fc = true /\ data_path fc = dp /\ array_index fc = i)).
      { intros H. apply Hspec in H. discriminate H. }
      split.
      * intros [(fc' & Hin & Hex' & Hdp' & Hi' & Hk)|[Hno Hst]].
        -- left. exists fc'. repeat split; auto. now right.
        -- right. split; [|exact Hst]. intros fc' [<-|Hin]; auto.
      * intros [(fc' & [<-|Hin] & Hex' & Hdp' & Hi' & Hk)|[Hno Hst]].
        -- exfalso. apply Hnm. auto.
        -- left. exists fc'. repeat split; auto.
        -- right. split; [|exact Hst]. intros fc' Hin. apply Hno. now right.
Qed.

Lemma skipped_spec rig_type dp :
  skipped rig_type dp
  = ((String.eqb rig_type "RIGIFY" || String.eqb rig_type "RIGIFY_NEW")
     && (PyStr.contains "DEF-" dp || PyStr.contains "MCH-" dp || PyStr.contains "ORG-" dp)
     || PyStr.contains "influence" dp
     || PyStr.contains "mouth_lock" dp).
Proof.
  unfold skipped. cbn [existsb].
  destruct (PyStr.contains "DEF-" dp), (PyStr.contains "MCH-" dp),
    (PyStr.contains "ORG-" dp); reflexivity.
Qed.

(** C7. The exported action dictionary holds, under a data path and an
    array index, exactly the key frames of the f-curve with that path and
    index whose frame is a multiple of 10 and whose value is not the rest
    value - 1 for a path containing ['scale'] and for index 0 of a path
    containing ['rotation_quaternion'], 0 otherwise - provided the curve is
    not skipped (a path containing ['DEF-'], ['MCH-'] or ['ORG-'] on a
    Rigify rig, ['influence'] or ['mouth_lock']) and keeps at least one key
    frame; nothing else is stored. *)
Theorem C7_export_action (rig_type : string) (fcurves : list fcurve) :
  NoDup (map (fun fc => (data_path fc, array_index fc)) fcurves) ->
  (forall dp i kfs,
     (export_action rig_type fcurves !! dp ≫= fun dp_dict => dp_dict !! i) = Some kfs
     <-> exists fc,
           In fc fcurves /\ data_path fc = dp /\ array_index fc = i
           /\ ((String.eqb rig_type "RIGIFY" || String.eqb rig_type "RIGIFY_NEW")
                && (PyStr.contains "DEF-" dp || PyStr.contains "MCH-" dp
                    || PyStr.contains "ORG-" dp)
                || PyStr.contains "influence" dp
                || PyStr.contains "mouth_lock" dp) = false
           /\ kfs = List.filter
                      (fun r => Qeq_bool (py_mod (fst r) 10) 0
                                && negb (Qeq_bool (snd r)
                                           (if PyStr.contains "scale" dp
                                               || (PyStr.contains "rotation_quaternion" dp
                                                   && (i =? 0)%Z)
                                            then 1 else 0)))
                      (map co (keyframe_points fc))
           /\ kfs <> [])
  /\ (forall f, Qeq_bool (py_mod f 10) 0 = true <-> exists k : Z, f == inject_Z (10 * k)).
Proof.
  intros Hnd. split; [|exact py_mod_10_multiple].
  intros dp i kfs. unfold export_action.
  pose proof (export_fold_stored rig_type fcurves ∅ dp i kfs Hnd) as Hfold.
  unfold stored_at in Hfold at 1. rewrite Hfold. clear Hfold. split.
  - intros [(fc & Hin & Hex & Hdp & Hi & Hk)|[_ H]].
    + exists fc. unfold exported in Hex. apply andb_true_iff in Hex as [Hskip Hne].
      apply negb_true_iff in Hskip. rewrite skipped_spec in Hskip.
      rewrite Hk, kept_keyframes_filter in *. subst dp i.
      split; [exact Hin|]. split; [reflexivity|]. split; [reflexivity|].
      split; [exact Hskip|]. split; [reflexivity|].
      intros Hnil. rewrite Hnil in Hne. discriminate Hne.
    + unfold stored_at in H. rewrite lookup_empty in H. discriminate H.
  - intros (fc & Hin & Hdp & Hi & Hskip & Hk & Hne). left. exists fc.
    subst dp i. rewrite kept_keyframes_filter, <- Hk.
    split; [exact Hin|]. split; [|auto].
    unfold exported. rewrite skipped_spec, Hskip. cbn [negb andb].
    rewrite kept_keyframes_filter, <- Hk. destruct kfs; [congruence | reflexivity].
Qed.

Lemma C7_export_action_witness :
  let fcurves :=
    [FCurve "pose.bones[jaw].location" 1
       [Keyframe (1, 0) "LINEAR"; Keyframe (10, 1 # 2) "LINEAR"; Keyframe (11, 0) "LINEAR";
        Keyframe (20, 0) "LINEAR"; Keyframe (25, 3) "LINEAR"];
     FCurve "pose.bones[jaw].scale" 0 [Keyframe (10, 1) "LINEAR"];
     FCurve "pose.bones[DEF-jaw].location" 0 [Keyframe (10, 1) "LINEAR"]] in
  (export_action "RIGIFY" fcurves !! "pose.bones[jaw].location"
     ≫= fun dp_dict => dp_dict !! 1%Z) = Some [(10, 1 # 2)]
  /\ (Qeq_bool (py_mod 20 10) 0 = true <-> exists k : Z, 20 == inject_Z (10 * k)).
Proof.
  intros fcurves.
  assert (Hnd : NoDup (map (fun fc => (data_path fc, array_index fc)) fcurves)).
  { repeat (apply NoDup_cons; split; [intros H; repeat (apply elem_of_cons in H as [H|H];
      [discriminate H|]); inversion H|]). apply NoDup_nil_2. }
  destruct (C7_export_action "RIGIFY" fcurves Hnd) as [Hstored Hmult].
  split; [|apply Hmult].
  apply Hstored.
  exists (FCurve "pose.bones[jaw].location" 1
       [Keyframe (1, 0) "LINEAR"; Keyframe (10, 1 # 2) "LINEAR"; Keyframe (11, 0) "LINEAR";
        Keyframe (20, 0) "LINEAR"; Keyframe (25, 3) "LINEAR"]).
  repeat split; [now left | discriminate].
Defined.

End ExportExpressions.

(** ** Zero frames of an imported preset *)

Section ZeroFrames.
Import Host Append.
Local Open Scope Q_scope.

Lemma elem_of_zero_frames_fold (l : list nat) (acc : gset Z) (z : Z) :
  z ∈ fold_left
        (fun zero_frames i =>
           let frame := ((Z.of_nat i + 1) * 10)%Z in
           zero_frames ∪ {[ (frame + 1)%Z; (frame - 9)%Z ]}) l acc
  <-> z ∈ acc
      \/ exists j, In j l /\ (z = ((Z.of_nat j + 1) * 10 + 1)%Z
                              \/ z = ((Z.of_nat j + 1) * 10 - 9)%Z).
Proof.
  revert acc. induction l as [|i l IH]; intros acc; cbn [fold_left].
  - split; [auto | intros [H|(j & [] & _)]; exact H].
  - rewrite IH. cbn zeta. rewrite elem_of_union, elem_of_union, !elem_of_singleton. split.
    + intros [[H|[H|H]]|(j & Hj & H)]; eauto.
      * right. exists i. split; [now left | auto].
      * right. exists i. split; [now left | auto].
      * right. exists j. split; [now right | auto].
    + intros [H|(j & [<-|Hj] & H)]; [auto | tauto | right; eauto].
Qed.

Lemma In_zero_frames (n : nat) (z : Z) :
  In z (zero_frames n)
  <-> exists j, (j < n)%nat /\ (z = ((Z.of_nat j + 1) * 10 + 1)%Z
                               \/ z = ((Z.of_nat j + 1) * 10 - 9)%Z).
Proof.
  unfold zero_frames, zero_frames_set.
  rewrite <- list_elem_of_In, merge_sort_Permutation, elem_of_elements,
    elem_of_zero_frames_fold.
  split.
  - intros [H|(j & Hj & H)]; [now apply not_elem_of_empty in H|].
    exists j. apply in_seq in Hj. split; [lia | exact H].
  - intros (j & Hj & H). right. exists j. split; [apply in_seq; lia | exact H].
Qed.

Lemma mapM_zero_rows (default : list Q) (i : nat) (d : Q) (zs : list Z) :
  default !! i = Some d ->
  mapM (fun f => d ← default_at (Some default) i; Ok (inject_Z f, d)) zs
  = Ok (map (fun f => (inject_Z f, d)) zs).
Proof.
  intros Hd. induction zs as [|z zs IH]; [reflexivity|].
  cbn [mapM map]. rewrite IH. unfold default_at. rewrite Hd. reflexivity.
Qed.

Lemma find_fcurve_Some (fcs : list fcurve) dp i k :
  find_fcurve fcs dp i = Some k ->
  exists fc, fcs !! k = Some fc /\ data_path fc = dp /\ array_index fc = i.
Proof.
  revert k. induction fcs as [|fc fcs IH]; intros k; cbn [find_fcurve]; [discriminate|].
  destruct (String.eqb_spec (data_path fc) dp) as [Hdp|Hdp]; cbn [andb].
  - destruct (Z.eqb_spec (array_index fc) i) as [Hi|Hi].
    + intros [= <-]. exists fc. auto.
    + destruct (find_fcurve fcs dp i) as [k'|]; [|discriminate].
      intros [= <-]. apply IH. reflexivity.
  - destruct (find_fcurve fcs dp i) as [k'|]; [|discriminate].
    intros [= <-]. apply IH. reflexivity.
Qed.

Lemma find_fcurve_alter (g : fcurve -> fcurve) (fcs : list fcurve) k dp i :
  (forall fc, data_path (g fc) = data_path fc /\ array_index (g fc) = array_index fc) ->
  find_fcurve (alter g k fcs) dp i = find_fcurve fcs dp i.
Proof.
  intros Hg. revert k. induction fcs as [|fc fcs IH]; intros k; [reflexivity|].
  destruct k as [|k]; cbn [alter list_alter find_fcurve].
  - destruct (Hg fc) as [-> ->]. reflexivity.
  - change (list_alter g k fcs) with (alter g k fcs). now rewrite IH.
Qed.

Lemma find_fcurve_app_Some (fcs extra : list fcurve) dp i k :
  find_fcurve fcs dp i = Some k -> find_fcurve (fcs ++ extra) dp i = Some k.
Proof.
  revert k. induction fcs as [|fc fcs IH]; intros k; cbn [find_fcurve app]; [discriminate|].
  destruct (String.eqb (data_path fc) dp && (array_index fc =? i)%Z); [auto|].
  destruct (find_fcurve fcs dp i) as [k'|]; [|discriminate].
  intros [= <-]. now rewrite (IH k').
Qed.

Lemma find_fcurve_app_new (fcs : list fcurve) dp i kps :
  find_fcurve fcs dp i = None ->
  find_fcurve (fcs ++ [FCurve dp i kps]) dp i = Some (length fcs).
Proof.
  induction fcs as [|fc fcs IH]; cbn [find_fcurve app length].
  - intros _. cbn. now rewrite String.eqb_refl, Z.eqb_refl.
  - destruct (String.eqb (data_path fc) dp && (array_index fc =? i)%Z); [discriminate|].
    destruct (find_fcurve fcs dp i); [discriminate|]. intros _. now rewrite IH.
Qed.

Section ChannelLoopFacts.

Variable populate : fcurve -> list (Q * Q) -> fcurve.

(** What is asked of the keyframe store: populating a curve puts every row
    of the array on it, and the curve stays the same channel. *)
Hypothesis populate_rows :
  forall fc rows r, In r rows ->
    exists kf, In kf (keyframe_points (populate fc rows)) /\ co kf = r.
Hypothesis populate_channel_id :
  forall fc rows,
    data_path (populate fc rows) = data_path fc
    /\ array_index (populate fc rows) = array_index fc.

Lemma set_linear_keyed zs d fc rows :
  (forall f, In f zs -> In (inject_Z f, d) rows) ->
  keyed zs d (set_linear (populate fc rows)).
Proof.
  intros Hrows. split.
  - intros f Hf. destruct (populate_rows fc rows _ (Hrows f Hf)) as (kf & Hkf & Hco).
    exists (Keyframe (co kf) "LINEAR"). split; [|exact Hco].
    unfold set_linear. cbn [keyframe_points]. apply in_map_iff. eauto.
  - intros kf Hkf. unfold set_linear in Hkf. cbn [keyframe_points] in Hkf.
    apply in_map_iff in Hkf as (kf' & <- & _). reflexivity.
Qed.

Lemma set_linear_populate_id fc rows :
  data_path (set_linear (populate fc rows)) = data_path fc
  /\ array_index (set_linear (populate fc rows)) = array_index fc.
Proof. unfold set_linear. cbn [data_path array_index]. apply populate_channel_id. Qed.

End ChannelLoopFacts.

Section ImportLoopFacts.
Import ImportAction.

Variable populate : fcurve -> list (Q * Q) -> fcurve.

Hypothesis populate_rows :
  forall fc rows r, In r rows ->
    exists kf, In kf (keyframe_points (populate fc rows)) /\ co kf = r.
Hypothesis populate_channel_id :
  forall fc rows,
    data_path (populate fc rows) = data_path fc
    /\ array_index (populate fc rows) = array_index fc.

(** One round of the loop over the channels, written out: the curve of
    the channel, found or made, is the one that changes. *)
Lemma populate_channel_run dp data default zs fcs i d :
  default !! i = Some d ->
  zs <> [] ->
  exists k fc0 fcs1 rows,
    populate_channel populate dp data (Some default) zs fcs i
    = Ok (alter (fun fc => set_linear (populate fc rows)) k fcs1)
    /\ find_fcurve fcs1 dp (Z.of_nat i) = Some k
    /\ fcs1 !! k = Some fc0
    /\ (forall j fc, j <> k -> fcs1 !! j = Some fc -> fcs !! j = Some fc)
    /\ (forall dp' i' k', find_fcurve fcs dp' i' = Some k' ->
          find_fcurve fcs1 dp' i' = Some k')
    /\ (forall f, In f zs -> In (inject_Z f, d) rows).
Proof.
  intros Hd Hzs. unfold populate_channel.
  rewrite (mapM_zero_rows _ _ _ _ Hd).
  set (kf_zero_data := map (fun f => (inject_Z f, d)) zs).
  assert (Hstack : exists kf_data,
            match od_get (pretty (Z.of_nat i)) data with
            | Some ((_ :: _) as data) => vstack data kf_zero_data
            | _ => Ok kf_zero_data
            end = Ok kf_data
            /\ forall f, In f zs -> In (inject_Z f, d) kf_data).
  { assert (Hz : forall f, In f zs -> In (inject_Z f, d) kf_zero_data).
    { intros f Hf. subst kf_zero_data. apply in_map_iff. eauto. }
    destruct (od_get (pretty (Z.of_nat i)) data) as [[|r rows]|]; eauto.
    unfold vstack. destruct kf_zero_data as [|r0 rest] eqn:Hkz.
    - destruct zs; [congruence | discriminate Hkz].
    - eexists. split; [reflexivity|]. intros f Hf. apply in_or_app. right. auto. }
  destruct Hstack as (kf_data & Hstack & Hrows).
  destruct (find_fcurve fcs dp (Z.of_nat i)) as [k|] eqn:Hk.
  - destruct (find_fcurve_Some _ _ _ _ Hk) as (fc0 & Hfc0 & _).
    exists k, fc0, fcs, kf_data. cbn [mbind result_bind]. rewrite Hstack.
    cbn [mbind result_bind]. auto 10.
  - exists (length fcs), (FCurve dp (Z.of_nat i) []), (fcs ++ [FCurve dp (Z.of_nat i) []]),
      kf_data.
    cbn [mbind result_bind]. rewrite Hstack. cbn [mbind result_bind].
    split; [reflexivity|]. split; [now apply find_fcurve_app_new|].
    split; [now rewrite list_lookup_middle|]. split; [|split; [|exact Hrows]].
    + intros j fc Hj Hfc. apply lookup_app_Some in Hfc as [Hfc|[Hge Hfc]]; [exact Hfc|].
      destruct (j - length fcs)%nat eqn:E; [lia | discriminate Hfc].
    + intros dp' i' k' Hf. now apply find_fcurve_app_Some.
Qed.

(** The loop over the channels of a group whose defaults cover its
    channels: it returns; a property of curves that holds before, and of
    every curve of the group once keyed, holds afterwards; curves keep
    their places; every channel of the group has its curve. *)
Lemma populate_channels_from_run dp data default zs (P : fcurve -> Prop) indices :
  zs <> [] ->
  (forall i, In i indices -> is_Some (default !! i)) ->
  (forall fc i d, In i indices -> default !! i = Some d -> data_path fc = dp ->
     array_index fc = Z.of_nat i -> keyed zs d fc -> P fc) ->
  forall fcs,
  exists fcs',
    populate_channels_from populate dp data (Some default) zs indices fcs = Ok fcs'
    /\ ((forall fc, In fc fcs -> P fc) -> forall fc, In fc fcs' -> P fc)
    /\ (forall dp' i' k', find_fcurve fcs dp' i' = Some k' ->
          find_fcurve fcs' dp' i' = Some k')
    /\ (forall i, In i indices -> is_Some (find_fcurve fcs' dp (Z.of_nat i))).
Proof.
  intros Hzs. induction indices as [|i indices IH]; intros Hdef HP fcs.
  - exists fcs. split; [reflexivity|]. split; [auto|]. split; [auto|]. intros i [].
  - destruct (Hdef i (or_introl eq_refl)) as [d Hd].
    destruct (populate_channel_run dp data default zs fcs i d Hd Hzs)
      as (k & fc0 & fcs1 & rows & Hrun1 & Hk & Hfc0 & Hother & Hfind & Hrows).
    set (g := fun fc => set_linear (populate fc rows)) in *.
    destruct (IH (fun j Hj => Hdef j (or_intror Hj))
                (fun fc j dj Hj => HP fc j dj (or_intror Hj)) (alter g k fcs1))
      as (fcs' & Hrun & HPk & Hfind' & Hmade).
    exists fcs'. cbn [populate_channels_from]. rewrite Hrun1. cbn [mbind result_bind].
    split; [exact Hrun|].
    assert (Hg : forall fc, data_path (g fc) = data_path fc
                            /\ array_index (g fc) = array_index fc).
    { intros fc. apply set_linear_populate_id. exact populate_channel_id. }
    split; [|split].
    + intros Hall. apply HPk. intros fc Hfc.
      apply list_elem_of_In, list_elem_of_lookup in Hfc as [j Hj].
      destruct (decide (j = k)) as [->|Hjk].
      * rewrite list_lookup_alter_eq, Hfc0 in Hj. injection Hj as <-.
        destruct (find_fcurve_Some _ _ _ _ Hk) as (fc0' & Hfc0' & Hdp0 & Hi0).
        rewrite Hfc0 in Hfc0'. injection Hfc0' as <-.
        apply (HP _ i d (or_introl eq_refl) Hd).
        -- rewrite (proj1 (Hg fc0)). exact Hdp0.
        -- rewrite (proj2 (Hg fc0)). exact Hi0.
        -- apply set_linear_keyed; [exact populate_rows | exact Hrows].
      * rewrite list_lookup_alter_ne in Hj by congruence.
        apply Hall. apply list_elem_of_In, list_elem_of_lookup. exists j. eauto.
    + intros dp' i' k' Hf. apply Hfind'. rewrite find_fcurve_alter by exact Hg. auto.
    + intros j [<-|Hj]; [|now apply Hmade].
      exists k. apply Hfind'. rewrite find_fcurve_alter by exact Hg. exact Hk.
Qed.

(** Without defaults the first channel already fails. *)
Lemma populate_channels_no_default dp data zs channels fcs :
  zs <> [] -> (0 < channels)%nat ->
  populate_channels_from populate dp data None zs (seq 0 channels) fcs = Raise TypeError.
Proof.
  intros Hzs Hc. destruct channels as [|c]; [lia|]. destruct zs as [|z zs]; [congruence|].
  cbn [seq populate_channels_from]. unfold populate_channel.
  destruct (find_fcurve fcs dp (Z.of_nat 0)); reflexivity.
Qed.

(** Lines 1005-1022 and 1069-1071: the number of channels is the number of
    defaults, and 1 when there is no default. *)
Lemma prepare_channels rig convert rigify dp data group :
  prepare rig convert rigify dp data = Ok (Some group) ->
  match g_default group with
  | Some l => g_channels group = length l
  | None => g_channels group = 1%nat
  end.
Proof.
  unfold prepare.
  destruct (if convert then _ else _) as [dp1 bone1].
  destruct (if negb (in_pose_bones rig bone1) && rigify then _ else _) as [[dp2 bone2]|e];
    cbn [mbind result_bind]; [|discriminate].
  destruct (negb (path_resolve rig dp2)); [discriminate|].
  destruct (negb (truthy _) && negb (truthy _)); [discriminate|].
  destruct (prop_name (parse_pose_bone_data_path rig dp)) as [pn|].
  - destruct (negb (in_pose_bones rig bone2)); [discriminate|].
    cbn [from_option id].
    assert (Htail : forall l c,
              match l with Some l => c = length l | None => c = 1%nat end ->
              (if PyStr.contains "rotation" pn
               then
                 if negb (String.eqb (get_data_path_from_rotation_mode rig
                                        (get_rotation_mode rig bone2)) pn)
                 then
                   data_per_array_index ←
                     convert_rotation_data
                       (convert_rotation rig (get_rotation_mode_from_data_path_val rig pn)
                          (get_rotation_mode rig bone2)) c l data;
                   match properties_get rig bone2
                           (get_data_path_from_rotation_mode rig
                              (get_rotation_mode rig bone2)) with
                   | Some prop =>
                       Ok (Some (ChannelGroup
                                   (py_replace dp2 pn
                                      (get_data_path_from_rotation_mode rig
                                         (get_rotation_mode rig bone2)))
                                   data_per_array_index (Some (default_array prop))
                                   (length (default_array prop))))
                   | None => Raise AttributeError
                   end
                 else Ok (Some (ChannelGroup dp2 data l c))
               else Ok (Some (ChannelGroup dp2 data l c))) = Ok (Some group) ->
              match g_default group with
              | Some l => g_channels group = length l
              | None => g_channels group = 1%nat
              end).
    { intros l c Hlc. destruct (PyStr.contains "rotation" pn).
      - destruct (negb (String.eqb _ pn)).
        + destruct (convert_rotation_data _ c l data) as [data'|e];
            cbn [mbind result_bind]; [|discriminate].
          destruct (properties_get _ _ _) as [prop|]; [|discriminate].
          intros [= <-]. reflexivity.
        + intros [= <-]. exact Hlc.
      - intros [= <-]. exact Hlc. }
    destruct (truthy (Some pn)).
    + destruct (properties_get rig bone2 pn) as [prop|]; [|discriminate].
      destruct (is_array prop); cbn [mbind result_bind]; apply Htail; reflexivity.
    + destruct (custom_prop_default _ _ _); cbn [mbind result_bind]; apply Htail;
        reflexivity.
  - destruct (negb (in_pose_bones rig bone2)); [discriminate|]. cbn [truthy].
    destruct (custom_prop_default _ _ _); discriminate.
Qed.

Section Loop.

Variable rig : rig_host.
Variables convert_animation_to_new_rigify is_new_rigify_rig : bool.
Variable n : nat.
Hypothesis n_pos : (0 < n)%nat.

Lemma zero_frames_not_nil : zero_frames n <> [].
Proof.
  intros Hnil. assert (Hin : In 11%Z (zero_frames n)).
  { apply In_zero_frames. exists 0%nat. split; [exact n_pos | left; reflexivity]. }
  rewrite Hnil in Hin. destruct Hin.
Qed.

(** One data path of the file: when its import returns, a property of
    curves that holds before, and of every keyed curve of its group,
    holds afterwards; curves keep their places; every channel of the
    group has its curve. *)
Lemma import_data_path_run (P : fcurve -> Prop) dp data fcs fcs' :
  import_data_path populate rig convert_animation_to_new_rigify is_new_rigify_rig n fcs
    (dp, data) = Ok fcs' ->
  (forall group l fc i d,
     prepare rig convert_animation_to_new_rigify is_new_rigify_rig dp data = Ok (Some group) ->
     g_default group = Some l -> l !! i = Some d ->
     data_path fc = g_dp group -> array_index fc = Z.of_nat i ->
     keyed (zero_frames n) d fc -> P fc) ->
  ((forall fc, In fc fcs -> P fc) -> forall fc, In fc fcs' -> P fc)
  /\ (forall dp' i' k', find_fcurve fcs dp' i' = Some k' ->
        find_fcurve fcs' dp' i' = Some k')
  /\ (forall group i,
        prepare rig convert_animation_to_new_rigify is_new_rigify_rig dp data
        = Ok (Some group) ->
        (i < g_channels group)%nat ->
        is_Some (find_fcurve fcs' (g_dp group) (Z.of_nat i))).
Proof.
  unfold import_data_path.
  destruct (prepare rig convert_animation_to_new_rigify is_new_rigify_rig dp data)
    as [[group|]|e] eqn:Hp; cbn [mbind result_bind]; [| |discriminate].
  - pose proof (prepare_channels _ _ _ _ _ _ Hp) as Hc. unfold populate_channels.
    destruct (g_default group) as [l|] eqn:Hl.
    + intros Hrun HP.
      destruct (populate_channels_from_run (g_dp group) (g_data_per_array_index group) l
                  (zero_frames n) P (seq 0 (g_channels group)) zero_frames_not_nil)
        with (fcs := fcs) as (fcs2 & Hrun2 & HP2 & Hfind & Hmade).
      { intros i Hi. apply in_seq in Hi. apply lookup_lt_is_Some. lia. }
      { intros fc i d _ Hd. now apply (HP group l fc i d). }
      rewrite Hrun2 in Hrun. injection Hrun as <-.
      split; [exact HP2|]. split; [exact Hfind|].
      intros group' i [= <-] Hi. apply Hmade. apply in_seq. lia.
    + rewrite populate_channels_no_default by (exact zero_frames_not_nil || lia).
      discriminate.
  - intros [= <-] _. split; [auto|]. split; [auto|]. intros group i [=].
Qed.

(** The whole loop from any set of curves. *)
Lemma import_fold_run (P : fcurve -> Prop) action_dict :
  forall fcs fcs',
    foldlM (import_data_path populate rig convert_animation_to_new_rigify is_new_rigify_rig n)
      action_dict fcs = Ok fcs' ->
    (forall dp data group l fc i d,
       In (dp, data) action_dict ->
       prepare rig convert_animation_to_new_rigify is_new_rigify_rig dp data
       = Ok (Some group) ->
       g_default group = Some l -> l !! i = Some d ->
       data_path fc = g_dp group -> array_index fc = Z.of_nat i ->
       keyed (zero_frames n) d fc -> P fc) ->
    ((forall fc, In fc fcs -> P fc) -> forall fc, In fc fcs' -> P fc)
    /\ (forall dp' i' k', find_fcurve fcs dp' i' = Some k' ->
          find_fcurve fcs' dp' i' = Some k')
    /\ (forall dp data group i,
          In (dp, data) action_dict ->
          prepare rig convert_animation_to_new_rigify is_new_rigify_rig dp data
          = Ok (Some group) ->
          (i < g_channels group)%nat ->
          is_Some (find_fcurve fcs' (g_dp group) (Z.of_nat i))).
Proof.
  induction action_dict as [|[dp data] items IH]; intros fcs fcs'; cbn [foldlM].
  - intros [= <-] _. split; [auto|]. split; [auto|]. intros dp data group i [].
  - destruct (import_data_path populate rig convert_animation_to_new_rigify
                is_new_rigify_rig n fcs (dp, data)) as [fcs1|e] eqn:H1;
      cbn [mbind result_bind]; [|discriminate].
    intros Hrun HP.
    destruct (import_data_path_run P dp data fcs fcs1 H1) as (HP1 & Hfind1 & Hmade1).
    { intros group l fc i d. apply HP. now left. }
    destruct (IH fcs1 fcs' Hrun) as (HP2 & Hfind2 & Hmade2).
    { intros dp' data' group l fc i d Hin. apply HP. now right. }
    split; [auto|]. split; [auto|].
    intros dp' data' group i [[= <- <-]|Hin] Hp Hi.
    + destruct (Hmade1 group i Hp Hi) as [k Hk]. exists k. auto.
    + now apply (Hmade2 dp' data' group i).
Qed.

(** The loop returns when every data path is prepared without an
    exception and no group lacks its defaults. *)
Lemma import_fold_returns action_dict :
  (forall dp data, In (dp, data) action_dict ->
     exists group,
       prepare rig convert_animation_to_new_rigify is_new_rigify_rig dp data = Ok group
       /\ forall g, group = Some g -> g_default g <> None) ->
  forall fcs,
  exists fcs',
    foldlM (import_data_path populate rig convert_animation_to_new_rigify is_new_rigify_rig n)
      action_dict fcs = Ok fcs'.
Proof.
  induction action_dict as [|[dp data] items IH]; intros Hall fcs; cbn [foldlM].
  - eauto.
  - destruct (Hall dp data (or_introl eq_refl)) as (group & Hp & Hdef).
    assert (H1 : exists fcs1,
              import_data_path populate rig convert_animation_to_new_rigify
                is_new_rigify_rig n fcs (dp, data) = Ok fcs1).
    { unfold import_data_path. rewrite Hp. cbn [mbind result_bind].
      destruct group as [g|]; [|eauto].
      pose proof (prepare_channels _ _ _ _ _ _ Hp) as Hc. unfold populate_channels.
      destruct (g_default g) as [l|] eqn:Hl; [|now destruct (Hdef g eq_refl)].
      destruct (populate_channels_from_run (g_dp g) (g_data_per_array_index g) l
                  (zero_frames n) (fun _ => True) (seq 0 (g_channels g))
                  zero_frames_not_nil)
        with (fcs := fcs) as (fcs2 & Hrun2 & _); [|auto|eauto].
      intros i Hi. apply in_seq in Hi. apply lookup_lt_is_Some. lia. }
    destruct H1 as (fcs1 & ->). cbn [mbind result_bind].
    apply IH. intros dp' data' Hin. apply Hall. now right.
Qed.

End Loop.

End ImportLoopFacts.

(** C2. The import of a preset of [n >= 1] expressions onto the new
    action, lines 965-1087.  The loop over the data paths of the file
    returns when every data path is prepared without an exception and no
    group lacks its defaults.  Whenever it returns, every channel of every
    group that was not skipped has its f-curve on the action, and every
    f-curve of the action belongs to a channel of such a group and holds,
    for every [j < n], a key frame with the default value of that channel
    at the frames [(j+1)*10 + 1] and [(j+1)*10 - 9], all its key frames
    being ['LINEAR'] - given that populating a curve puts every row of the
    array on it and leaves its data path and index alone. *)
Theorem C2_zero_frames_keyed
  (populate : fcurve -> list (Q * Q) -> fcurve)
  (rig : ImportAction.rig_host)
  (convert_animation_to_new_rigify is_new_rigify_rig : bool)
  (action_dict : list (string * list (string * list (Q * Q)))) (n : nat) :
  (forall fc rows r, In r rows ->
     exists kf, In kf (keyframe_points (populate fc rows)) /\ co kf = r) ->
  (forall fc rows,
     data_path (populate fc rows) = data_path fc
     /\ array_index (populate fc rows) = array_index fc) ->
  (0 < n)%nat ->
  ((forall dp data, In (dp, data) action_dict ->
      exists group,
        ImportAction.prepare rig convert_animation_to_new_rigify is_new_rigify_rig dp data
        = Ok group
        /\ forall g, group = Some g -> ImportAction.g_default g <> None) ->
   exists fcs',
     ImportAction.import_action populate rig convert_animation_to_new_rigify
       is_new_rigify_rig action_dict n = Ok fcs')
  /\ forall fcs',
       ImportAction.import_action populate rig convert_animation_to_new_rigify
         is_new_rigify_rig action_dict n = Ok fcs' ->
       (forall dp data group i,
          In (dp, data) action_dict ->
          ImportAction.prepare rig convert_animation_to_new_rigify is_new_rigify_rig dp data
          = Ok (Some group) ->
          (i < ImportAction.g_channels group)%nat ->
          exists k fc,
            find_fcurve fcs' (ImportAction.g_dp group) (Z.of_nat i) = Some k
            /\ fcs' !! k = Some fc)
       /\ forall fc, In fc fcs' ->
            exists dp data group defaults i d,
              In (dp, data) action_dict
              /\ ImportAction.prepare rig convert_animation_to_new_rigify is_new_rigify_rig
                   dp data = Ok (Some group)
              /\ data_path fc = ImportAction.g_dp group
              /\ array_index fc = Z.of_nat i
              /\ ImportAction.g_default group = Some defaults
              /\ defaults !! i = Some d
              /\ (forall j, (j < n)%nat ->
                    (exists kf, In kf (keyframe_points fc)
                                /\ co kf = (inject_Z ((Z.of_nat j + 1) * 10 + 1), d))
                    /\ (exists kf, In kf (keyframe_points fc)
                                   /\ co kf = (inject_Z ((Z.of_nat j + 1) * 10 - 9), d)))
              /\ (forall kf, In kf (keyframe_points fc) -> interpolation kf = "LINEAR").
Proof.
  intros Hrows Hid Hn. unfold ImportAction.import_action. split.
  - intros Hall. now apply import_fold_returns.
  - intros fcs' Hrun.
    set (P := fun fc : fcurve =>
      exists dp data group defaults i d,
        In (dp, data) action_dict
        /\ ImportAction.prepare rig convert_animation_to_new_rigify is_new_rigify_rig
             dp data = Ok (Some group)
        /\ data_path fc = ImportAction.g_dp group
        /\ array_index fc = Z.of_nat i
        /\ ImportAction.g_default group = Some defaults
        /\ defaults !! i = Some d
        /\ (forall j, (j < n)%nat ->
              (exists kf, In kf (keyframe_points fc)
                          /\ co kf = (inject_Z ((Z.of_nat j + 1) * 10 + 1), d))
              /\ (exists kf, In kf (keyframe_points fc)
                             /\ co kf = (inject_Z ((Z.of_nat j + 1) * 10 - 9), d)))
        /\ (forall kf, In kf (keyframe_points fc) -> interpolation kf = "LINEAR")).
    destruct (import_fold_run populate Hrows Hid rig convert_animation_to_new_rigify
                is_new_rigify_rig n Hn P action_dict [] fcs' Hrun)
      as (HP & _ & Hmade).
    { intros dp data group l fc i d Hin Hp Hl Hd Hdp Hi [Hzero Hlin].
      exists dp, data, group, l, i, d. repeat (split; [assumption|]). split; [|exact Hlin].
      intros j Hj. split; apply Hzero; apply In_zero_frames; eauto. }
    split.
    + intros dp data group i Hin Hp Hi.
      destruct (Hmade dp data group i Hin Hp Hi) as [k Hk].
      destruct (find_fcurve_Some _ _ _ _ Hk) as (fc & Hfc & _). eauto.
    + apply HP. intros fc [].
Qed.

Lemma C2_zero_frames_keyed_witness :
  let populate := fun fc rows =>
    FCurve (data_path fc) (array_index fc)
      (keyframe_points fc ++ map (fun r => Keyframe r "BEZIER") rows) in
  let parse := fun dp =>
    if String.eqb dp "pose.bones[jaw].location"
    then ImportAction.ParsedDataPath "jaw" (Some "location") None
    else if String.eqb dp "pose.bones[jaw].rotation_euler"
    then ImportAction.ParsedDataPath "jaw" (Some "rotation_euler") None
    else if String.eqb dp "pose.bones[gone].scale"
    then ImportAction.ParsedDataPath "gone" (Some "scale") None
    else ImportAction.ParsedDataPath EmptyString None None in
  let properties := fun (_ prop_name : string) =>
    if String.eqb prop_name "location"
    then Some (ImportAction.RnaProperty true [0; 0; 0] 0)
    else if String.eqb prop_name "rotation_euler"
    then Some (ImportAction.RnaProperty true [0; 0; 0] 0)
    else if String.eqb prop_name "rotation_quaternion"
    then Some (ImportAction.RnaProperty true [1; 0; 0; 0] 0)
    else None in
  let rig :=
    ImportAction.RigHost parse (fun b => b) ["jaw"]
      (fun dp => negb (PyStr.contains "gone" dp)) properties
      (fun _ _ => ImportAction.NoDefault) (fun _ => "QUATERNION")
      (fun _ => "rotation_quaternion") (fun _ => "EULER")
      (fun _ _ _ => [1; 0; 0; 0]) in
  let action_dict :=
    [("pose.bones[jaw].location", [("0", [(10, 1 # 2)])]);
     ("pose.bones[gone].scale", [("0", [(10, 2)])]);
     ("pose.bones[jaw].rotation_euler", [("0", [(10, 1 # 4)]); ("2", [(20, 1 # 3)])])] in
  exists fcs',
    ImportAction.import_action populate rig false false action_dict 2 = Ok fcs'
    /\ forall fc, In fc fcs' ->
         exists d,
           (forall j, (j < 2)%nat ->
              (exists kf, In kf (keyframe_points fc)
                          /\ co kf = (inject_Z ((Z.of_nat j + 1) * 10 + 1), d))
              /\ (exists kf, In kf (keyframe_points fc)
                             /\ co kf = (inject_Z ((Z.of_nat j + 1) * 10 - 9), d)))
           /\ (forall kf, In kf (keyframe_points fc) -> interpolation kf = "LINEAR").
Proof.
  intros populate parse properties rig action_dict.
  destruct (C2_zero_frames_keyed populate rig false false action_dict 2) as [Hret Hkeyed].
  - intros fc rows r Hr. exists (Keyframe r "BEZIER"). split; [|reflexivity].
    subst populate. cbn [keyframe_points]. apply in_or_app. right.
    apply in_map_iff. exists r. split; [reflexivity | exact Hr].
  - intros fc rows. split; reflexivity.
  - lia.
  - destruct Hret as [fcs' Hrun].
    { intros dp data [[= <- <-]|[[= <- <-]|[[= <- <-]|[]]]];
        (eexists; split; [vm_compute; reflexivity|]); intros g [= <-]; discriminate. }
    exists fcs'. split; [exact Hrun|].
    intros fc Hfc.
    destruct (proj2 (Hkeyed fcs' Hrun) fc Hfc)
      as (dp & data & group & defaults & i & d & _ & _ & _ & _ & _ & _ & Hzero & Hlin).
    exists d. split; [exact Hzero | exact Hlin].
Defined.

End ZeroFrames.

(** ** The expression list and its frames *)

Section ExpressionList.
Import Host Mirror Sides ExprList.
Local Open Scope Z_scope.

Lemma frames_ok_same_frames (l l' : list expression_item) :
  map frame l' = map frame l -> frames_ok l -> frames_ok l'.
Proof.
  intros Hmap Hok k item' Hk.
  assert (Hf : map frame l' !! k = Some (frame item')).
  { change (map frame l') with (frame <$> l'). now rewrite list_lookup_fmap, Hk. }
  rewrite Hmap in Hf. change (map frame l) with (frame <$> l) in Hf.
  rewrite list_lookup_fmap in Hf.
  destruct (l !! k) as [item|] eqn:Hl; [|discriminate Hf].
  injection Hf as <-. now apply Hok.
Qed.

Lemma frames_ok_app_new (l : list expression_item) (item : expression_item) :
  frame item = (Z.of_nat (length l) + 1) * 10 -> frames_ok l -> frames_ok (l ++ [item]).
Proof.
  intros Hf Hok k x Hk. apply lookup_app_Some in Hk as [Hk|[Hge Hk]]; [now apply Hok|].
  destruct (k - length l)%nat eqn:E; [|discriminate Hk].
  injection Hk as <-. rewrite Hf. do 2 f_equal. lia.
Qed.

Lemma find_name_NoDup (l : list expression_item) k item :
  NoDup (map name l) -> l !! k = Some item -> find_name (name item) l = Some k.
Proof.
  revert k. induction l as [|x l IH]; intros k Hnd Hk; [discriminate Hk|].
  cbn [map] in Hnd. apply NoDup_cons in Hnd as [Hx Hnd]. cbn [find_name].
  destruct k as [|k]; cbn in Hk.
  - injection Hk as ->. now rewrite String.eqb_refl.
  - destruct (String.eqb_spec (name x) (name item)) as [Heq|Hne].
    + exfalso. apply Hx. rewrite Heq. apply list_elem_of_In, in_map.
      apply list_elem_of_In. eapply list_elem_of_lookup_2. exact Hk.
    + now rewrite (IH k Hnd Hk).
Qed.

Lemma find_name_Some (l : list expression_item) n k :
  find_name n l = Some k -> exists item, l !! k = Some item /\ name item = n.
Proof.
  revert k. induction l as [|x l IH]; intros k; cbn [find_name]; [discriminate|].
  destruct (String.eqb_spec (name x) n) as [Heq|Hne].
  - intros [= <-]. exists x. auto.
  - destruct (find_name n l) as [k'|]; [|discriminate].
    intros [= <-]. apply IH. reflexivity.
Qed.

(** The frames of the list after [_remove_faceit_item]. *)
Lemma frames_ok_remove (l : list expression_item) (k : nat) (item : expression_item) :
  frames_ok l -> l !! k = Some item ->
  frames_ok
    (map (fun x => if frame item <? frame x then set_item_frame x (frame x - 10) else x)
       (delete k l)).
Proof.
  intros Hok Hk j y Hj.
  change (map ?f ?l) with (f <$> l) in Hj. rewrite list_lookup_fmap in Hj.
  destruct (delete k l !! j) as [x|] eqn:Hx; [|discriminate Hj].
  injection Hj as <-. pose proof (Hok k item Hk) as Hfi.
  destruct (Nat.lt_ge_cases j k) as [Hlt|Hge].
  - rewrite list_lookup_delete_lt in Hx by exact Hlt. pose proof (Hok j x Hx) as Hfx.
    destruct (Z.ltb_spec (frame item) (frame x)); [lia | exact Hfx].
  - rewrite list_lookup_delete_ge in Hx by exact Hge. pose proof (Hok (S j) x Hx) as Hfx.
    destruct (Z.ltb_spec (frame item) (frame x)); [cbn [set_item_frame frame]; lia | lia].
Qed.

Lemma remove_keys_at_none (F : Z) (b : bool) (pts : list keyframe) :
  List.filter (fun key => Qeq_bool (frame_of key) (inject_Z F)) pts = [] ->
  remove_keys_at F b pts = pts.
Proof.
  revert b. induction pts as [|key pts IH]; intros b Hnone; [reflexivity|].
  cbn [List.filter] in Hnone. cbn [remove_keys_at].
  destruct (Qeq_bool (frame_of key) (inject_Z F)); [discriminate Hnone|].
  destruct b; now rewrite IH.
Qed.

Lemma filter_negb_none {A : Type} (p : A -> bool) (l : list A) :
  List.filter p l = [] -> List.filter (fun x => negb (p x)) l = l.
Proof.
  induction l as [|x l IH]; [reflexivity|]. cbn [List.filter].
  destruct (p x); [discriminate|]. intros H. cbn [negb]. now rewrite IH.
Qed.

(** With at most one key on the removed frame the loop that removes while
    it iterates takes away exactly that key. *)
Lemma remove_keys_at_filter (F : Z) (pts : list keyframe) :
  (length (List.filter (fun key => Qeq_bool (frame_of key) (inject_Z F)) pts) <= 1)%nat ->
  remove_keys_at F false pts
  = List.filter (fun key => negb (Qeq_bool (frame_of key) (inject_Z F))) pts.
Proof.
  induction pts as [|key pts IH]; [reflexivity|].
  cbn [List.filter remove_keys_at].
  destruct (Qeq_bool (frame_of key) (inject_Z F)); cbn [negb length]; intros Hle.
  - assert (Hnone : List.filter (fun key => Qeq_bool (frame_of key) (inject_Z F)) pts = []).
    { destruct (List.filter _ pts); [reflexivity | cbn in Hle; lia]. }
    rewrite (remove_keys_at_none _ _ _ Hnone). symmetry. now apply filter_negb_none.
  - now rewrite IH.
Qed.

Local Open Scope Q_scope.

(** The three loops on one key, when the two frames are 10 apart: the key
    keeps its value and interpolation; a key on the frame of the moved
    expression goes to the frame of its neighbour and back; a key on
    neither frame, nor half way between them, is not touched. *)
Lemma swap_keys_one (ef add : Z) (key : keyframe) :
  add = 10%Z \/ add = (-10)%Z ->
  let nf := (ef + add)%Z in
  let swapped := swap_keys ef nf add [key] in
  exists key', swapped = [key']
    /\ snd (co key') = snd (co key)
    /\ interpolation key' = interpolation key
    /\ (frame_of key == inject_Z ef -> frame_of key' == inject_Z nf)
    /\ (frame_of key == inject_Z nf -> frame_of key' == inject_Z ef)
    /\ (~ frame_of key == inject_Z ef -> ~ frame_of key == inject_Z nf ->
        ~ frame_of key == inject_Z nf - inject_Z add / 2 -> key' = key).
Proof.
  intros Hadd nf swapped. subst swapped nf. destruct key as [[f v] interp].
  unfold swap_keys, frame_of, set_frame. cbn [map co fst snd interpolation].
  eexists. split; [reflexivity|].
  rewrite !inject_Z_plus. generalize (inject_Z ef). intros e.
  destruct Hadd as [-> | ->].
  - change (inject_Z 10 / 2) with (10 # 2). change (inject_Z 10) with 10.
    destruct (Qeq_bool f (e + 10)) eqn:E1; cbn [co fst snd interpolation];
      [apply Qeq_bool_iff in E1 | apply Qeq_bool_neq in E1].
    all: destruct (Qeq_bool _ e) eqn:E2; cbn [co fst snd interpolation];
      [apply Qeq_bool_iff in E2 | apply Qeq_bool_neq in E2].
    all: destruct (Qeq_bool _ (e + 10 - (10 # 2))) eqn:E3; cbn [co fst snd interpolation];
      [apply Qeq_bool_iff in E3 | apply Qeq_bool_neq in E3].
    all: repeat split; intros; try reflexivity; try lra; try (exfalso; lra);
      try contradiction.
  - change (inject_Z (-10) / 2) with (-10 # 2). change (inject_Z (-10)) with (-10 # 1).
    destruct (Qeq_bool f (e + (-10 # 1))) eqn:E1; cbn [co fst snd interpolation];
      [apply Qeq_bool_iff in E1 | apply Qeq_bool_neq in E1].
    all: destruct (Qeq_bool _ e) eqn:E2; cbn [co fst snd interpolation];
      [apply Qeq_bool_iff in E2 | apply Qeq_bool_neq in E2].
    all: destruct (Qeq_bool _ (e + (-10 # 1) - (-10 # 2))) eqn:E3;
      cbn [co fst snd interpolation];
      [apply Qeq_bool_iff in E3 | apply Qeq_bool_neq in E3].
    all: repeat split; intros; try reflexivity; try lra; try (exfalso; lra);
      try contradiction.
Qed.

Lemma swap_keys_Forall2 (ef add : Z) (pts : list keyframe) :
  add = 10%Z \/ add = (-10)%Z ->
  Forall2 (key_swapped ef (ef + add) add) pts (swap_keys ef (ef + add) add pts).
Proof.
  intros Hadd. induction pts as [|key pts IH]; [constructor|].
  destruct (swap_keys_one ef add key Hadd) as (key' & Hk & Hspec).
  change (swap_keys ef (ef + add) add (key :: pts))
    with (swap_keys ef (ef + add) add [key] ++ swap_keys ef (ef + add) add pts).
  rewrite Hk. constructor; [exact Hspec | exact IH].
Qed.

Lemma on_curves_related (R : list keyframe -> list keyframe -> Prop)
  (f : list keyframe -> list keyframe) (a : option action) :
  (forall pts, R pts (f pts)) -> curves_related R a (on_curves f <$> a).
Proof.
  intros HR. destruct a as [a|]; cbn; [|exact I].
  induction (fcurves a) as [|c cs IH]; cbn; constructor; auto.
Qed.

Lemma remove_frame_keys (F : Z) (pts : list keyframe) :
  keys_removed F pts (shift_keys_after F (remove_keys_at F false pts)).
Proof. intros Hone. now rewrite (remove_keys_at_filter _ _ Hone). Qed.

Lemma remove_frame_in_action_related (F : Z) (a : option action) :
  curves_related (keys_removed F) a (remove_frame_in_action F <$> a).
Proof.
  destruct a as [a|]; cbn; [|exact I].
  induction (fcurves a) as [|c cs IH]; cbn; constructor; auto.
  cbn. repeat split. apply remove_frame_keys.
Qed.

Local Open Scope Z_scope.

Lemma list_move_cons {A : Type} (x : A) (l : list A) (src dst : nat) :
  list_move (S src) (S dst) (x :: l) = x :: list_move src dst l.
Proof. unfold list_move. cbn. destruct (l !! src); reflexivity. Qed.

Lemma swap_down {A : Type} (pre post : list A) (a b a' b' : A) :
  list_move (S (length pre)) (length pre)
    (<[S (length pre) := b']> (<[length pre := a']> (pre ++ a :: b :: post)))
  = pre ++ b' :: a' :: post.
Proof.
  induction pre as [|x pre IH]; [reflexivity|].
  cbn [length app]. cbn [insert list_insert].
  rewrite list_move_cons. f_equal. exact IH.
Qed.

Lemma swap_up {A : Type} (pre post : list A) (a b a' b' : A) :
  list_move (length pre) (S (length pre))
    (<[length pre := a']> (<[S (length pre) := b']> (pre ++ a :: b :: post)))
  = pre ++ b' :: a' :: post.
Proof.
  induction pre as [|x pre IH]; [reflexivity|].
  cbn [length app]. cbn [insert list_insert].
  rewrite list_move_cons. f_equal. exact IH.
Qed.

Lemma split_adjacent {A : Type} (l : list A) (k : nat) (a b : A) :
  l !! k = Some a -> l !! S k = Some b ->
  l = take k l ++ a :: b :: drop (S (S k)) l /\ length (take k l) = k.
Proof.
  intros Ha Hb. split.
  - rewrite <- (take_drop_middle l k a Ha) at 1. do 2 f_equal.
    now apply drop_S.
  - apply length_take_le. apply lookup_lt_Some in Ha. lia.
Qed.

Lemma remove_faceit_item_run (s : scene) (k : nat) (item : expression_item) :
  find_name (name item) (faceit_expression_list s) = Some k ->
  _remove_faceit_item item s
  = Ok (Scene
          (map (fun x => if frame item <? frame x then set_item_frame x (frame x - 10) else x)
             (delete k (faceit_expression_list s)))
          (faceit_expression_list_index s)
          (remove_frame_in_action (frame item) <$> ow_action s)
          (remove_frame_in_action (frame item) <$> sh_action s)
          (remove_frame_in_action (frame item) <$> cc_action s)).
Proof. intros Hfind. unfold _remove_faceit_item. rewrite Hfind. reflexivity. Qed.

Lemma remove_expression_item_run (remove_item : string) (s : scene) (k : nat)
  (item : expression_item) :
  NoDup (map name (faceit_expression_list s)) ->
  (1 < length (faceit_expression_list s))%nat ->
  faceit_expression_list s !! k = Some item ->
  (remove_item = EmptyString /\ faceit_expression_list_index s = Z.of_nat k)
  \/ (remove_item <> EmptyString /\ name item = remove_item) ->
  exists s',
    remove_expression_item remove_item s = Ok s'
    /\ faceit_expression_list s'
       = map (fun x => if frame item <? frame x then set_item_frame x (frame x - 10) else x)
           (delete k (faceit_expression_list s))
    /\ ow_action s' = remove_frame_in_action (frame item) <$> ow_action s
    /\ sh_action s' = remove_frame_in_action (frame item) <$> sh_action s.
Proof.
  intros Hnd Hlen Hk Hsel. unfold remove_expression_item.
  destruct (Nat.leb_spec (length (faceit_expression_list s)) 1) as [Hle|_]; [lia|].
  pose proof (find_name_NoDup _ _ _ Hnd Hk) as Hfind.
  assert (Hitem :
    (if String.eqb remove_item EmptyString
     then match (if faceit_expression_list_index s <? 0 then None
                 else faceit_expression_list s !! Z.to_nat (faceit_expression_list_index s)) with
          | Some item => Ok item
          | None => Raise IndexError
          end
     else match find_name remove_item (faceit_expression_list s) with
          | Some k => match faceit_expression_list s !! k with
                      | Some item => Ok item
                      | None => Raise KeyError
                      end
          | None => Raise KeyError
          end) = Ok item).
  { destruct Hsel as [[-> Hidx]|[Hne Hname]].
    - cbn [String.eqb]. rewrite Hidx.
      destruct (Z.ltb_spec (Z.of_nat k) 0) as [Hneg|_]; [lia|].
      now rewrite Nat2Z.id, Hk.
    - destruct (String.eqb_spec remove_item EmptyString) as [Heq|_]; [contradiction|].
      now rewrite <- Hname, Hfind, Hk. }
  rewrite Hitem. cbn [mbind result_bind].
  rewrite (remove_faceit_item_run s k item Hfind). cbn [mbind result_bind].
  eexists. split; [reflexivity|].
  destruct (_ <=? _); cbn; auto.
Qed.

Lemma move_expression_item_run (direction : string) (s : scene) (k k' : nat)
  (item item' : expression_item) :
  faceit_expression_list_index s = Z.of_nat k ->
  faceit_expression_list s !! k = Some item ->
  faceit_expression_list s !! k' = Some item' ->
  Z.of_nat k' = Z.of_nat k + (if String.eqb direction "UP" then -1 else 1) ->
  exists s',
    move_expression_item direction s = Ok (Some s')
    /\ faceit_expression_list s'
       = list_move k' k
           (<[k' := set_item_frame item' (frame item)]>
              (<[k := set_item_frame item (frame item')]> (faceit_expression_list s)))
    /\ ow_action s'
       = on_curves (swap_keys (frame item) (frame item')
                      ((if String.eqb direction "UP" then -1 else 1) * 10)) <$> ow_action s
    /\ sh_action s'
       = on_curves (swap_keys (frame item) (frame item')
                      ((if String.eqb direction "UP" then -1 else 1) * 10)) <$> sh_action s.
Proof.
  intros Hidx Hk Hk' Hadj. unfold move_expression_item. rewrite Hidx.
  destruct (Z.ltb_spec (Z.of_nat k) 0) as [Hneg|_]; [lia|].
  rewrite Nat2Z.id, Hk. cbn [mbind result_bind].
  rewrite <- Hadj.
  pose proof (lookup_lt_Some _ _ _ Hk') as Hlt.
  destruct (Z.eqb_spec (Z.of_nat k') (Z.of_nat (length (faceit_expression_list s))))
    as [Heq|_]; [lia|].
  destruct (Z.eqb_spec (Z.of_nat k') (-1)) as [Heq|_]; [lia|].
  cbn [orb]. rewrite Nat2Z.id, Hk'. cbn [mbind result_bind].
  eexists. split; [reflexivity|]. cbn. auto.
Qed.

Lemma if_eqb_empty (m : string) : (if String.eqb m EmptyString then EmptyString else m) = m.
Proof. destruct (String.eqb_spec m EmptyString) as [->|_]; reflexivity. Qed.

(** What one run of the add operator leaves: the new item, followed by
    its mirror item when a custom shape with a side asks for one. *)
Lemma add_expression_item_shape
  (get_name : string -> list expression_item -> string)
  (expression_name side procedural mirror_name_overwrite : string)
  (custom_shape auto_mirror : bool) (l : list expression_item) :
  exists item rest selected,
    add_expression_item get_name (-1) expression_name side procedural
      mirror_name_overwrite custom_shape auto_mirror l = Ok (l ++ item :: rest, selected)
    /\ name item = get_name expression_name l
    /\ frame item = (Z.of_nat (length l) + 1) * 10
    /\ (rest = []
        \/ exists mirror,
             rest = [mirror] /\ custom_shape = true /\ auto_mirror = true
             /\ name mirror = get_name (mirror_name item) (l ++ [item])
             /\ frame mirror = (Z.of_nat (length l) + 2) * 10)
    /\ (custom_shape && auto_mirror && poll_side_in_expression_name side expression_name
        = false -> rest = [])
    /\ (custom_shape = false -> selected = None)
    /\ (custom_shape = true -> selected = Some (Z.of_nat (length l))).
Proof.
  unfold add_expression_item, add_expression_item_run.
  cbn [Z.eqb Pos.eqb mbind result_bind].
  rewrite !if_eqb_empty. cbn [mirror_name String.eqb].
  destruct custom_shape; cbn [andb];
    [|eexists _, [], None; repeat (split; [reflexivity || (now left) || discriminate|]);
      discriminate].
  set (side' := if negb (poll_side_in_expression_name side expression_name) then "N" else side).
  destruct (auto_mirror && negb (String.eqb side' "N")) eqn:Hm;
    cbn [mbind result_bind fst].
  - apply andb_prop in Hm as [-> Hside]. rewrite <- app_assoc. cbn [app].
    eexists _, [_], _. split; [reflexivity|].
    split; [destruct (String.eqb mirror_name_overwrite EmptyString); reflexivity|].
    split; [destruct (String.eqb mirror_name_overwrite EmptyString); reflexivity|].
    split; [|split; [|split; [discriminate | reflexivity]]].
    + right. eexists. split; [reflexivity|]. split; [reflexivity|]. split; [reflexivity|].
      cbn [name frame set_item_mirror_name]. split; [reflexivity|].
      rewrite length_app. cbn [length]. lia.
    + intros Hoff. exfalso. subst side'. cbn [andb] in Hoff. rewrite Hoff in Hside.
      discriminate Hside.
  - eexists _, [], _. split; [reflexivity|].
    split; [destruct (String.eqb mirror_name_overwrite EmptyString); reflexivity|].
    split; [destruct (String.eqb mirror_name_overwrite EmptyString); reflexivity|].
    split; [now left|]. split; [reflexivity|]. split; [discriminate | reflexivity].
Qed.

(** C10. The item at position [k] of the expression list has frame
    [(k+1)*10], and the three operators keep it so.  Adding appends an item
    with frame [(length + 1) * 10]; for a custom shape with a side and
    [auto_mirror] its mirror item follows with frame [(length + 2) * 10],
    and nothing else is added.  Removing an item (the names of the
    list being distinct) deletes it, moves the frame of every item after
    it back by 10 and, on each curve of the two shape actions with at most
    one key on the removed frame, deletes the keys on that frame and moves
    the later keys back by 10.  Moving an item up or down exchanges it with
    its neighbour, each taking the frame of the other, and on each curve of
    the two shape actions the keys on the two frames change places.  A list
    of at most one item is emptied by the removal. *)
Theorem C10_expression_list_frames :
  (forall get_name expression_name side procedural mirror_name_overwrite
          custom_shape auto_mirror l,
     exists item rest selected,
       add_expression_item get_name (-1) expression_name side procedural
         mirror_name_overwrite custom_shape auto_mirror l = Ok (l ++ item :: rest, selected)
       /\ frame item = (Z.of_nat (length l) + 1) * 10
       /\ (rest = []
           \/ exists mirror,
                rest = [mirror] /\ custom_shape = true /\ auto_mirror = true
                /\ frame mirror = (Z.of_nat (length l) + 2) * 10)
       /\ (custom_shape && auto_mirror = false -> rest = [])
       /\ (frames_ok l -> frames_ok (l ++ item :: rest)))
  /\ (forall get_name new_exp_index expression_name side procedural mirror_name_overwrite
             custom_shape auto_mirror l,
        new_exp_index <> -1 ->
        add_expression_item get_name new_exp_index expression_name side procedural
          mirror_name_overwrite custom_shape auto_mirror l = Raise UnboundLocalError)
  /\ (forall remove_item s,
        (length (faceit_expression_list s) <= 1)%nat ->
        exists s', remove_expression_item remove_item s = Ok s'
                   /\ faceit_expression_list s' = [])
  /\ (forall remove_item s k item,
        frames_ok (faceit_expression_list s) ->
        NoDup (map name (faceit_expression_list s)) ->
        (1 < length (faceit_expression_list s))%nat ->
        faceit_expression_list s !! k = Some item ->
        (remove_item = EmptyString /\ faceit_expression_list_index s = Z.of_nat k)
        \/ (remove_item <> EmptyString /\ name item = remove_item) ->
        exists s',
          remove_expression_item remove_item s = Ok s'
          /\ frames_ok (faceit_expression_list s')
          /\ map name (faceit_expression_list s')
             = map name (delete k (faceit_expression_list s))
          /\ curves_related (keys_removed (frame item)) (ow_action s) (ow_action s')
          /\ curves_related (keys_removed (frame item)) (sh_action s) (sh_action s'))
  /\ (forall direction s k k' item item',
        frames_ok (faceit_expression_list s) ->
        faceit_expression_list_index s = Z.of_nat k ->
        faceit_expression_list s !! k = Some item ->
        faceit_expression_list s !! k' = Some item' ->
        Z.of_nat k' = Z.of_nat k + (if String.eqb direction "UP" then -1 else 1) ->
        exists s',
          move_expression_item direction s = Ok (Some s')
          /\ frames_ok (faceit_expression_list s')
          /\ faceit_expression_list s' !! k' = Some (set_item_frame item (frame item'))
          /\ faceit_expression_list s' !! k = Some (set_item_frame item' (frame item))
          /\ curves_related
               (Forall2 (key_swapped (frame item) (frame item')
                           (frame item' - frame item)))
               (ow_action s) (ow_action s')
          /\ curves_related
               (Forall2 (key_swapped (frame item) (frame item')
                           (frame item' - frame item)))
               (sh_action s) (sh_action s')).
Proof.
  split; [|split; [|split; [|split]]].
  - intros get_name expression_name side procedural mo custom_shape auto_mirror l.
    destruct (add_expression_item_shape get_name expression_name side procedural mo
                custom_shape auto_mirror l)
      as (item & rest & selected & Hrun & _ & Hf & Hrest & Hone & _).
    exists item, rest, selected. split; [exact Hrun|]. split; [exact Hf|].
    split; [|split].
    + destruct Hrest as [->|(mirror & -> & Hc & Ha & _ & Hfm)]; [now left|].
      right. exists mirror. auto.
    + intros Hoff. apply Hone. rewrite Hoff. reflexivity.
    + intros Hok. destruct Hrest as [->|(mirror & -> & _ & _ & _ & Hfm)].
      * now apply frames_ok_app_new.
      * change (l ++ [item; mirror]) with (l ++ [item] ++ [mirror]). rewrite app_assoc.
        apply frames_ok_app_new; [|now apply frames_ok_app_new].
        rewrite Hfm, length_app. cbn [length]. lia.
  - intros get_name idx expression_name side procedural mo custom_shape auto_mirror l Hidx.
    unfold add_expression_item, add_expression_item_run.
    destruct (Z.eqb_spec idx (-1)) as [Heq|_]; [contradiction | reflexivity].
  - intros remove_item s Hlen. unfold remove_expression_item.
    destruct (Nat.leb_spec (length (faceit_expression_list s)) 1) as [_|Hgt]; [|lia].
    eexists. split; reflexivity.
  - intros remove_item s k item Hok Hnd Hlen Hk Hsel.
    destruct (remove_expression_item_run remove_item s k item Hnd Hlen Hk Hsel)
      as (s' & Hrun & Hl & How & Hsh).
    exists s'. split; [exact Hrun|]. rewrite Hl, How, Hsh. split; [|split; [|split]].
    + now apply frames_ok_remove.
    + rewrite map_map. apply map_ext. intros x.
      destruct (frame item <? frame x); reflexivity.
    + apply remove_frame_in_action_related.
    + apply remove_frame_in_action_related.
  - intros direction s k k' item item' Hok Hidx Hk Hk' Hadj.
    destruct (move_expression_item_run direction s k k' item item' Hidx Hk Hk' Hadj)
      as (s' & Hrun & Hl & How & Hsh).
    exists s'. split; [exact Hrun|].
    pose proof (Hok k item Hk) as Hf. pose proof (Hok k' item' Hk') as Hf'.
    set (add := (if String.eqb direction "UP" then -1 else 1) * 10) in *.
    assert (Hadd : add = 10 \/ add = -10).
    { subst add. destruct (String.eqb direction "UP"); auto. }
    assert (Hnf : frame item' = frame item + add).
    { subst add. rewrite Hf, Hf', Hadj. ring. }
    assert (Hlist : exists pre post,
              faceit_expression_list s' =
                (if String.eqb direction "UP"
                 then pre ++ set_item_frame item (frame item')
                          :: set_item_frame item' (frame item) :: post
                 else pre ++ set_item_frame item' (frame item)
                          :: set_item_frame item (frame item') :: post)
              /\ faceit_expression_list s =
                (if String.eqb direction "UP"
                 then pre ++ item' :: item :: post
                 else pre ++ item :: item' :: post)
              /\ length pre = (if String.eqb direction "UP" then k' else k)).
    { rewrite Hl. destruct (String.eqb direction "UP").
      - assert (k = S k') by lia. subst k.
        destruct (split_adjacent _ _ _ _ Hk' Hk) as [Hsplit Hlen].
        exists (take k' (faceit_expression_list s)),
               (drop (S (S k')) (faceit_expression_list s)).
        split; [|split; [exact Hsplit | exact Hlen]].
        rewrite Hsplit at 1. rewrite <- Hlen at 1 2 3 4. apply swap_up.
      - assert (k' = S k) by lia. subst k'.
        destruct (split_adjacent _ _ _ _ Hk Hk') as [Hsplit Hlen].
        exists (take k (faceit_expression_list s)),
               (drop (S (S k)) (faceit_expression_list s)).
        split; [|split; [exact Hsplit | exact Hlen]].
        rewrite Hsplit at 1. rewrite <- Hlen at 1 2 3 4. apply swap_down. }
    destruct Hlist as (pre & post & Hl' & Hl0 & Hpre).
    assert (Hrel : forall a,
              curves_related
                (Forall2 (key_swapped (frame item) (frame item') (frame item' - frame item)))
                a (on_curves (swap_keys (frame item) (frame item') add) <$> a)).
    { intros a. apply on_curves_related. intros pts.
      replace (frame item' - frame item) with add by lia. rewrite Hnf.
      now apply swap_keys_Forall2. }
    rewrite How, Hsh. split; [|split; [|split; [|split]]]; auto.
    + apply (frames_ok_same_frames (faceit_expression_list s)); [|exact Hok].
      rewrite Hl', Hl0. destruct (String.eqb direction "UP");
        rewrite !map_app; reflexivity.
    + rewrite Hl'. destruct (String.eqb direction "UP").
      * rewrite <- Hpre. now rewrite list_lookup_middle.
      * assert (k' = S (length pre)) by lia. subst k'.
        rewrite lookup_app_r by lia.
        replace (S (length pre) - length pre)%nat with 1%nat by lia. reflexivity.
    + rewrite Hl'. destruct (String.eqb direction "UP").
      * assert (k = S (length pre)) by lia. subst k.
        rewrite lookup_app_r by lia.
        replace (S (length pre) - length pre)%nat with 1%nat by lia. reflexivity.
      * rewrite <- Hpre. now rewrite list_lookup_middle.
Qed.

Lemma C10_expression_list_frames_witness :
  let l := [ExpressionItem "a" 10 "N" "NONE" EmptyString;
            ExpressionItem "b" 20 "N" "NONE" EmptyString;
            ExpressionItem "c" 30 "N" "NONE" EmptyString] in
  let curve := FCurve "pose.bones[jaw].location" 0
                 [Keyframe (1, 0)%Q "LINEAR"; Keyframe (10, 1)%Q "LINEAR";
                  Keyframe (11, 0)%Q "LINEAR"; Keyframe (20, 2)%Q "LINEAR";
                  Keyframe (21, 0)%Q "LINEAR"; Keyframe (30, 3)%Q "LINEAR";
                  Keyframe (31, 0)%Q "LINEAR"] in
  let s := Scene l 1 (Some (Action [curve] [])) (Some (Action [curve] [])) None in
  (exists item mirror selected,
     add_expression_item (fun n _ => n) (-1) "d_L" "L" "NONE" EmptyString true true l
     = Ok (l ++ [item; mirror], selected)
     /\ frame item = 40 /\ frame mirror = 50 /\ frames_ok (l ++ [item; mirror]))
  /\ (exists item selected,
       add_expression_item (fun n _ => n) (-1) "d" "N" "NONE" EmptyString false false l
       = Ok (l ++ [item], selected)
       /\ frame item = 40 /\ frames_ok (l ++ [item]))
  /\ add_expression_item (fun n _ => n) 2 "d" "N" "NONE" EmptyString false false l
     = Raise UnboundLocalError
  /\ (exists s', remove_expression_item EmptyString s = Ok s'
                 /\ frames_ok (faceit_expression_list s')
                 /\ map name (faceit_expression_list s') = ["a"; "c"])
  /\ (exists s', move_expression_item "DOWN" s = Ok (Some s')
                 /\ frames_ok (faceit_expression_list s')
                 /\ faceit_expression_list s' !! 2%nat
                    = Some (ExpressionItem "b" 30 "N" "NONE" EmptyString)
                 /\ faceit_expression_list s' !! 1%nat
                    = Some (ExpressionItem "c" 20 "N" "NONE" EmptyString)).
Proof.
  intros l curve s.
  assert (Hok : frames_ok l).
  { intros k item Hk. destruct k as [|[|[|k]]]; cbn in Hk; inversion Hk; reflexivity. }
  destruct C10_expression_list_frames as (Hadd & Hraise & _ & Hrem & Hmove).
  split; [|split; [|split; [|split]]].
  - destruct (Hadd (fun n (_ : list expression_item) => n) "d_L" "L" "NONE" EmptyString
                true true l)
      as (item & rest & selected & Hrun & Hf & Hrest & _ & Hkeep).
    destruct Hrest as [->|(mirror & -> & _ & _ & Hfm)]; [discriminate Hrun|].
    exists item, mirror, selected. split; [exact Hrun|]. split; [exact Hf|].
    split; [exact Hfm | exact (Hkeep Hok)].
  - destruct (Hadd (fun n (_ : list expression_item) => n) "d" "N" "NONE" EmptyString
                false false l)
      as (item & rest & selected & Hrun & Hf & _ & Hone & Hkeep).
    rewrite (Hone eq_refl) in Hrun, Hkeep.
    exists item, selected. split; [exact Hrun|]. split; [exact Hf | exact (Hkeep Hok)].
  - apply Hraise. lia.
  - destruct (Hrem EmptyString s 1%nat (ExpressionItem "b" 20 "N" "NONE" EmptyString))
      as (s' & Hrun & Hok' & Hnames & _).
    + exact Hok.
    + apply (bool_decide_unpack _). vm_compute. exact I.
    + cbn. lia.
    + reflexivity.
    + left. split; reflexivity.
    + exists s'. split; [exact Hrun|]. split; [exact Hok' | exact Hnames].
  - destruct (Hmove "DOWN" s 1%nat 2%nat (ExpressionItem "b" 20 "N" "NONE" EmptyString)
                (ExpressionItem "c" 30 "N" "NONE" EmptyString))
      as (s' & Hrun & Hok' & Hk' & Hk & _).
    + exact Hok.
    + reflexivity.
    + reflexivity.
    + reflexivity.
    + reflexivity.
    + exists s'. split; [exact Hrun|]. split; [exact Hok'|]. split; [exact Hk' | exact Hk].
Defined.

End ExpressionList.

(** * Further properties of the sources *)

(** ** Sides and mirror names *)

Section SidesFacts.
Import Mirror Sides.

(** X1. [get_side] and [poll_side_in_expression_name] agree: the side is
    ['L'] exactly when the name passes the test for ['L'], ['R'] exactly
    when it passes the test for ['R'] and not the one for ['L'], ['N']
    when it passes neither; a side other than ['L'] and ['R'] never
    passes.  So a name passes the test for its own side unless that side
    is ['N']. *)
Theorem X1_get_side_poll (expression_name : string) :
  (get_side expression_name = "L"
   <-> poll_side_in_expression_name "L" expression_name = true)
  /\ (get_side expression_name = "R"
      <-> poll_side_in_expression_name "R" expression_name = true
          /\ poll_side_in_expression_name "L" expression_name = false)
  /\ (get_side expression_name = "N"
      <-> poll_side_in_expression_name "L" expression_name = false
          /\ poll_side_in_expression_name "R" expression_name = false)
  /\ (forall side, side <> "L" -> side <> "R" ->
        poll_side_in_expression_name side expression_name = false)
  /\ (poll_side_in_expression_name (get_side expression_name) expression_name = true
      <-> get_side expression_name <> "N").
Proof.
  unfold get_side, poll_side_in_expression_name. cbn [String.eqb Ascii.eqb Bool.eqb].
  set (l := existsb (fun x => PyStr.contains (fst x) expression_name) mirror_sides_dict_L
            || existsb (fun x => PyStr.endswith expression_name (fst x)) mirror_sides_end_L).
  set (r := existsb (fun x => PyStr.contains (fst x) expression_name) mirror_sides_dict_R
            || existsb (fun x => PyStr.endswith expression_name (fst x)) mirror_sides_end_R).
  split; [|split; [|split; [|split]]].
  - destruct l, r; cbn; intuition congruence.
  - destruct l, r; cbn; intuition congruence.
  - destruct l, r; cbn; intuition congruence.
  - intros side HL HR.
    destruct (String.eqb_spec side "L"); [contradiction|].
    destruct (String.eqb_spec side "R"); [contradiction | reflexivity].
  - destruct l, r; cbn; intuition congruence.
Qed.

Lemma X1_get_side_poll_witness :
  get_side "cheekPuff_L" = "L"
  /\ poll_side_in_expression_name "L" "cheekPuff_L" = true
  /\ poll_side_in_expression_name "N" "cheekPuff_L" = false.
Proof.
  destruct (X1_get_side_poll "cheekPuff_L") as (HL & _ & _ & Hother & _).
  split; [|split].
  - apply HL. reflexivity.
  - apply HL. reflexivity.
  - apply Hother; discriminate.
Defined.

Lemma replace_nonempty (s old new : string) :
  s <> EmptyString -> new <> EmptyString -> PyStr.replace s old new <> EmptyString.
Proof.
  intros Hs Hnew. destruct s as [|c s]; [contradiction|].
  unfold PyStr.replace. cbn [PyStr.replace_from].
  destruct (String.prefix old (String c s)); [|discriminate].
  destruct new; [contradiction | discriminate].
Qed.

Lemma first_replace_None test items expression_name :
  Mirror.first_replace test items expression_name = None
  <-> existsb (fun x => test (fst x) expression_name) items = false.
Proof.
  induction items as [|[key value] items IH]; cbn [first_replace existsb fst].
  - tauto.
  - destruct (test key expression_name); cbn [orb]; [split; discriminate | exact IH].
Qed.

Lemma first_replace_nonempty test items expression_name m :
  expression_name <> EmptyString ->
  Forall (fun x => snd x <> EmptyString) items ->
  Mirror.first_replace test items expression_name = Some m -> m <> EmptyString.
Proof.
  intros Hn Hitems. induction Hitems as [|[key value] items Hv _ IH]; cbn [first_replace].
  - discriminate.
  - destruct (test key expression_name); [|exact IH].
    intros [= <-]. now apply replace_nonempty.
Qed.

Lemma mirror_with_empty dict_side end_side expression_name :
  expression_name <> EmptyString ->
  Forall (fun x => snd x <> EmptyString) dict_side ->
  Forall (fun x => snd x <> EmptyString) end_side ->
  match mirror_with dict_side end_side expression_name with
  | Some m => m <> EmptyString
           /\ existsb (fun x => PyStr.contains (fst x) expression_name) dict_side
              || existsb (fun x => PyStr.endswith expression_name (fst x)) end_side = true
  | None => existsb (fun x => PyStr.contains (fst x) expression_name) dict_side
            || existsb (fun x => PyStr.endswith expression_name (fst x)) end_side = false
  end.
Proof.
  intros Hn Hd He. unfold mirror_with.
  destruct (first_replace PyStr.contains dict_side expression_name) as [m|] eqn:H1.
  - split; [now apply (first_replace_nonempty _ _ _ _ Hn Hd H1)|].
    destruct (existsb _ dict_side) eqn:Hex; [reflexivity|].
    apply first_replace_None in Hex. congruence.
  - apply first_replace_None in H1. rewrite H1. cbn [orb].
    destruct (first_replace _ end_side expression_name) as [m|] eqn:H2.
    + split; [now apply (first_replace_nonempty _ _ _ _ Hn He H2)|].
      destruct (existsb _ end_side) eqn:Hex; [reflexivity|].
      apply (first_replace_None (fun key s => PyStr.endswith s key)) in Hex. congruence.
    + now apply (first_replace_None (fun key s => PyStr.endswith s key)) in H2.
Qed.

(** X2. [get_mirror_name] returns the empty string exactly when the name
    does not pass [poll_side_in_expression_name] for the given side: a
    name with a token of the side always gets a non-empty mirror name, and
    a side other than ['L'] and ['R'] never gets one. *)
Theorem X2_mirror_name_empty (side expression_name : string) :
  get_mirror_name side expression_name = EmptyString
  <-> poll_side_in_expression_name side expression_name = false.
Proof.
  destruct expression_name as [|c n].
  - unfold get_mirror_name, poll_side_in_expression_name.
    destruct (String.eqb side "L"), (String.eqb side "R"); split; reflexivity.
  - assert (Hn : String c n <> EmptyString) by discriminate.
    assert (HL := mirror_with_empty mirror_sides_dict_L mirror_sides_end_L (String c n) Hn).
    assert (HR := mirror_with_empty mirror_sides_dict_R mirror_sides_end_R (String c n) Hn).
    unfold get_mirror_name, poll_side_in_expression_name.
    destruct (String.eqb_spec side "L") as [->|HsL].
    + cbn [String.eqb Ascii.eqb Bool.eqb].
      destruct (mirror_with mirror_sides_dict_L mirror_sides_end_L (String c n)) as [m|].
      * destruct HL as [Hm ->]; [repeat constructor; discriminate.. |].
        split; [contradiction | discriminate].
      * rewrite HL by (repeat constructor; discriminate). split; reflexivity.
    + destruct (String.eqb_spec side "R") as [->|HsR]; [|split; reflexivity].
      destruct (mirror_with mirror_sides_dict_R mirror_sides_end_R (String c n)) as [m|].
      * destruct HR as [Hm ->]; [repeat constructor; discriminate.. |].
        split; [contradiction | discriminate].
      * rewrite HR by (repeat constructor; discriminate). split; reflexivity.
Qed.

End SidesFacts.

(** ** The expression list: selection and round trips *)

Section ExpressionListMore.
Import Host Mirror Sides ExprList.
Local Open Scope Z_scope.

Lemma set_item_frame_same (item : expression_item) :
  set_item_frame item (frame item) = item.
Proof. destruct item; reflexivity. Qed.

Lemma set_item_frame_twice (item : expression_item) (f g : Z) :
  set_item_frame (set_item_frame item f) g = set_item_frame item g.
Proof. reflexivity. Qed.

(** The list after a move, in terms of the part before the pair and the
    part after it. *)
Lemma moved_list_shape (direction : string) (l : list expression_item) (k k' : nat)
  (item item' : expression_item) :
  l !! k = Some item -> l !! k' = Some item' ->
  Z.of_nat k' = Z.of_nat k + (if String.eqb direction "UP" then -1 else 1) ->
  exists pre post,
    list_move k' k
      (<[k' := set_item_frame item' (frame item)]>
         (<[k := set_item_frame item (frame item')]> l))
    = (if String.eqb direction "UP"
       then pre ++ set_item_frame item (frame item')
                :: set_item_frame item' (frame item) :: post
       else pre ++ set_item_frame item' (frame item)
                :: set_item_frame item (frame item') :: post)
    /\ l = (if String.eqb direction "UP"
            then pre ++ item' :: item :: post
            else pre ++ item :: item' :: post)
    /\ length pre = (if String.eqb direction "UP" then k' else k).
Proof.
  intros Hk Hk' Hadj. destruct (String.eqb direction "UP").
  - assert (k = S k') by lia. subst k.
    destruct (split_adjacent _ _ _ _ Hk' Hk) as [Hsplit Hlen].
    exists (take k' l), (drop (S (S k')) l).
    split; [|split; [exact Hsplit | exact Hlen]].
    rewrite Hsplit at 1. rewrite <- Hlen at 1 2 3 4. apply swap_up.
  - assert (k' = S k) by lia. subst k'.
    destruct (split_adjacent _ _ _ _ Hk Hk') as [Hsplit Hlen].
    exists (take k l), (drop (S (S k)) l).
    split; [|split; [exact Hsplit | exact Hlen]].
    rewrite Hsplit at 1. rewrite <- Hlen at 1 2 3 4. apply swap_down.
Qed.

Lemma move_expression_item_index (direction : string) (s : scene) (k k' : nat)
  (item item' : expression_item) :
  faceit_expression_list_index s = Z.of_nat k ->
  faceit_expression_list s !! k = Some item ->
  faceit_expression_list s !! k' = Some item' ->
  Z.of_nat k' = Z.of_nat k + (if String.eqb direction "UP" then -1 else 1) ->
  exists s',
    move_expression_item direction s = Ok (Some s')
    /\ faceit_expression_list s'
       = list_move k' k
           (<[k' := set_item_frame item' (frame item)]>
              (<[k := set_item_frame item (frame item')]> (faceit_expression_list s)))
    /\ faceit_expression_list_index s' = Z.of_nat k'
    /\ cc_action s' = (fun a => shift_cc_curve (name item')
                                  (- ((if String.eqb direction "UP" then -1 else 1) * 10))
                                  (shift_cc_curve (name item)
                                     ((if String.eqb direction "UP" then -1 else 1) * 10) a))
                      <$> cc_action s.
Proof.
  intros Hidx Hk Hk' Hadj.
  destruct (moved_list_shape direction _ k k' item item' Hk Hk' Hadj)
    as (pre & post & Hshape & Hl & Hpre).
  assert (Hlen : length (list_move k' k
                    (<[k' := set_item_frame item' (frame item)]>
                       (<[k := set_item_frame item (frame item')]>
                          (faceit_expression_list s))))
                 = length (faceit_expression_list s)).
  { rewrite Hshape, Hl. destruct (String.eqb direction "UP"); rewrite !length_app; reflexivity. }
  unfold move_expression_item. rewrite Hidx.
  destruct (Z.ltb_spec (Z.of_nat k) 0) as [Hneg|_]; [lia|].
  rewrite Nat2Z.id, Hk. cbn [mbind result_bind].
  rewrite <- Hadj.
  pose proof (lookup_lt_Some _ _ _ Hk') as Hlt.
  destruct (Z.eqb_spec (Z.of_nat k') (Z.of_nat (length (faceit_expression_list s))))
    as [Heq|_]; [lia|].
  destruct (Z.eqb_spec (Z.of_nat k') (-1)) as [Heq|_]; [lia|].
  cbn [orb]. rewrite Nat2Z.id, Hk'. cbn [mbind result_bind].
  eexists. split; [reflexivity|]. cbn [faceit_expression_list faceit_expression_list_index
                                       cc_action].
  split; [reflexivity|]. split; [|reflexivity].
  rewrite Hlen. lia.
Qed.

(** X3. After a move the selected position is the new position of the
    moved expression: the item there has its name.  Moving the first item
    up, or the last item down, is cancelled and changes nothing. *)
Theorem X3_move_keeps_selection :
  (forall direction s k k' item item',
     faceit_expression_list_index s = Z.of_nat k ->
     faceit_expression_list s !! k = Some item ->
     faceit_expression_list s !! k' = Some item' ->
     Z.of_nat k' = Z.of_nat k + (if String.eqb direction "UP" then -1 else 1) ->
     exists s' moved,
       move_expression_item direction s = Ok (Some s')
       /\ faceit_expression_list_index s' = Z.of_nat k'
       /\ faceit_expression_list s' !! k' = Some moved
       /\ name moved = name item
       /\ length (faceit_expression_list s') = length (faceit_expression_list s))
  /\ (forall s item,
        faceit_expression_list_index s = 0 ->
        faceit_expression_list s !! 0%nat = Some item ->
        move_expression_item "UP" s = Ok None)
  /\ (forall direction s k item,
        direction <> "UP" ->
        faceit_expression_list_index s = Z.of_nat k ->
        faceit_expression_list s !! k = Some item ->
        S k = length (faceit_expression_list s) ->
        move_expression_item direction s = Ok None).
Proof.
  split; [|split].
  - intros direction s k k' item item' Hidx Hk Hk' Hadj.
    destruct (move_expression_item_index direction s k k' item item' Hidx Hk Hk' Hadj)
      as (s' & Hrun & Hl & Hi & _).
    destruct (moved_list_shape direction _ k k' item item' Hk Hk' Hadj)
      as (pre & post & Hshape & Hl0 & Hpre).
    exists s', (set_item_frame item (frame item')).
    split; [exact Hrun|]. split; [exact Hi|]. rewrite Hl, Hshape.
    split; [|split; [reflexivity|]].
    + destruct (String.eqb direction "UP").
      * rewrite <- Hpre. now rewrite list_lookup_middle.
      * assert (k' = S (length pre)) by lia. subst k'.
        rewrite lookup_app_r by lia.
        replace (S (length pre) - length pre)%nat with 1%nat by lia. reflexivity.
    + rewrite Hl0. destruct (String.eqb direction "UP"); rewrite !length_app; reflexivity.
  - intros s item Hidx Hk. unfold move_expression_item. rewrite Hidx.
    change (0 <? 0) with false. change (Z.to_nat 0) with 0%nat. cbv iota.
    rewrite Hk. cbn [mbind result_bind]. change (String.eqb "UP" "UP") with true.
    cbv iota. change (0 + -1 =? -1) with true. now rewrite orb_true_r.
  - intros direction s k item Hdir Hidx Hk Hlast. unfold move_expression_item.
    rewrite Hidx. destruct (Z.ltb_spec (Z.of_nat k) 0) as [Hneg|_]; [lia|].
    rewrite Nat2Z.id, Hk. cbn [mbind result_bind].
    destruct (String.eqb_spec direction "UP") as [Heq|_]; [contradiction|].
    destruct (Z.eqb_spec (Z.of_nat k + 1) (Z.of_nat (length (faceit_expression_list s))))
      as [_|Hne]; [reflexivity | lia].
Qed.

Lemma X3_move_keeps_selection_witness :
  let l := [ExpressionItem "a" 10 "N" "NONE" EmptyString;
            ExpressionItem "b" 20 "N" "NONE" EmptyString;
            ExpressionItem "c" 30 "N" "NONE" EmptyString] in
  (exists s' moved,
     move_expression_item "UP" (Scene l 2 None None None) = Ok (Some s')
     /\ faceit_expression_list_index s' = 1
     /\ faceit_expression_list s' !! 1%nat = Some moved
     /\ name moved = "c"
     /\ length (faceit_expression_list s') = 3%nat)
  /\ move_expression_item "UP" (Scene l 0 None None None) = Ok None
  /\ move_expression_item "DOWN" (Scene l 2 None None None) = Ok None.
Proof.
  intros l. destruct X3_move_keeps_selection as (Hmove & Hfirst & Hlast).
  split; [|split].
  - apply (Hmove "UP" (Scene l 2 None None None) 2%nat 1%nat
             (ExpressionItem "c" 30 "N" "NONE" EmptyString)
             (ExpressionItem "b" 20 "N" "NONE" EmptyString)); reflexivity.
  - apply (Hfirst (Scene l 0 None None None)
             (ExpressionItem "a" 10 "N" "NONE" EmptyString)); reflexivity.
  - apply (Hlast "DOWN" (Scene l 2 None None None) 2%nat
             (ExpressionItem "c" 30 "N" "NONE" EmptyString));
      [discriminate | reflexivity | reflexivity | reflexivity].
Defined.

(** X4. Moving an expression down and then up again gives back the
    expression list, item for item, and the selected position. *)
Theorem X4_move_down_up (direction : string) (s : scene) (k : nat)
  (item item' : expression_item) :
  direction <> "UP" ->
  faceit_expression_list_index s = Z.of_nat k ->
  faceit_expression_list s !! k = Some item ->
  faceit_expression_list s !! S k = Some item' ->
  exists s1 s2,
    move_expression_item direction s = Ok (Some s1)
    /\ move_expression_item "UP" s1 = Ok (Some s2)
    /\ faceit_expression_list s2 = faceit_expression_list s
    /\ faceit_expression_list_index s2 = faceit_expression_list_index s.
Proof.
  intros Hdir Hidx Hk Hk'.
  assert (Hadj : Z.of_nat (S k) = Z.of_nat k + (if String.eqb direction "UP" then -1 else 1)).
  { destruct (String.eqb_spec direction "UP"); [contradiction | lia]. }
  destruct (move_expression_item_index direction s k (S k) item item' Hidx Hk Hk' Hadj)
    as (s1 & Hrun1 & Hl1 & Hi1 & _).
  destruct (split_adjacent _ _ _ _ Hk Hk') as [Hsplit Hlen].
  set (pre := take k (faceit_expression_list s)) in *.
  set (post := drop (S (S k)) (faceit_expression_list s)) in *.
  assert (Hshape : faceit_expression_list s1
                   = pre ++ set_item_frame item' (frame item)
                         :: set_item_frame item (frame item') :: post).
  { rewrite Hl1. rewrite Hsplit at 1. rewrite <- Hlen at 1 2 3 4. apply swap_down. }
  assert (Hk1 : faceit_expression_list s1 !! S k = Some (set_item_frame item (frame item'))).
  { rewrite Hshape, lookup_app_r by lia.
    replace (S k - length pre)%nat with 1%nat by lia. reflexivity. }
  assert (Hk1' : faceit_expression_list s1 !! k = Some (set_item_frame item' (frame item))).
  { rewrite Hshape, <- Hlen. now rewrite list_lookup_middle. }
  destruct (move_expression_item_index "UP" s1 (S k) k _ _ Hi1 Hk1 Hk1')
    as (s2 & Hrun2 & Hl2 & Hi2 & _); [cbn; lia|].
  exists s1, s2. split; [exact Hrun1|]. split; [exact Hrun2|]. split; [|congruence].
  rewrite Hl2, Hshape.
  change (frame (set_item_frame item (frame item'))) with (frame item').
  change (frame (set_item_frame item' (frame item))) with (frame item).
  rewrite !set_item_frame_twice, !set_item_frame_same.
  rewrite <- Hlen at 1 2 3 4. rewrite swap_up.
  symmetry. exact Hsplit.
Qed.

Lemma X4_move_down_up_witness :
  let l := [ExpressionItem "a" 10 "N" "NONE" EmptyString;
            ExpressionItem "b" 20 "N" "NONE" EmptyString;
            ExpressionItem "c" 30 "N" "NONE" EmptyString] in
  let s := Scene l 1 None None None in
  exists s1 s2,
    move_expression_item "DOWN" s = Ok (Some s1)
    /\ move_expression_item "UP" s1 = Ok (Some s2)
    /\ faceit_expression_list s2 = l
    /\ faceit_expression_list_index s2 = 1.
Proof.
  intros l s.
  apply (X4_move_down_up "DOWN" s 1%nat (ExpressionItem "b" 20 "N" "NONE" EmptyString)
           (ExpressionItem "c" 30 "N" "NONE" EmptyString)).
  - discriminate.
  - reflexivity.
  - reflexivity.
  - reflexivity.
Defined.

Lemma NoDup_delete_not_In {A : Type} (l : list A) (k : nat) (x : A) :
  NoDup l -> l !! k = Some x -> ~ In x (delete k l).
Proof.
  intros Hnd Hk. rewrite <- (take_drop_middle l k x Hk) in Hnd.
  apply NoDup_app in Hnd as (_ & Hdisj & Hnd). apply NoDup_cons in Hnd as [Hx _].
  rewrite delete_take_drop. intros Hin. apply in_app_or in Hin as [Hin|Hin].
  - apply (Hdisj x); [now apply list_elem_of_In | left].
  - apply Hx. now apply list_elem_of_In.
Qed.

Lemma remove_by_position (remove_item : string) (s : scene) (k : nat)
  (item : expression_item) :
  (1 < length (faceit_expression_list s))%nat ->
  faceit_expression_list s !! k = Some item ->
  find_name (name item) (faceit_expression_list s) = Some k ->
  (remove_item = EmptyString /\ faceit_expression_list_index s = Z.of_nat k)
  \/ (remove_item <> EmptyString /\ name item = remove_item) ->
  let l' := map (fun x => if frame item <? frame x then set_item_frame x (frame x - 10) else x)
              (delete k (faceit_expression_list s)) in
  remove_expression_item remove_item s
  = Ok (Scene l'
          (if Z.of_nat (length l') <=? faceit_expression_list_index s
           then Z.of_nat (length l') - 1 else faceit_expression_list_index s)
          (remove_frame_in_action (frame item) <$> ow_action s)
          (remove_frame_in_action (frame item) <$> sh_action s)
          (remove_frame_in_action (frame item) <$> cc_action s)).
Proof.
  intros Hlen Hk Hfind Hsel l'. unfold remove_expression_item.
  destruct (Nat.leb_spec (length (faceit_expression_list s)) 1) as [Hle|_]; [lia|].
  assert (Hitem :
    (if String.eqb remove_item EmptyString
     then match (if faceit_expression_list_index s <? 0 then None
                 else faceit_expression_list s !! Z.to_nat (faceit_expression_list_index s)) with
          | Some item => Ok item
          | None => Raise IndexError
          end
     else match find_name remove_item (faceit_expression_list s) with
          | Some k => match faceit_expression_list s !! k with
                      | Some item => Ok item
                      | None => Raise KeyError
                      end
          | None => Raise KeyError
          end) = Ok item).
  { destruct Hsel as [[-> Hidx]|[Hne Hname]].
    - cbn [String.eqb]. rewrite Hidx.
      destruct (Z.ltb_spec (Z.of_nat k) 0) as [Hneg|_]; [lia|].
      now rewrite Nat2Z.id, Hk.
    - destruct (String.eqb_spec remove_item EmptyString) as [Heq|_]; [contradiction|].
      now rewrite <- Hname, Hfind, Hk. }
  rewrite Hitem. cbn [mbind result_bind].
  rewrite (remove_faceit_item_run s k item Hfind). cbn [mbind result_bind].
  cbn [faceit_expression_list faceit_expression_list_index ow_action sh_action cc_action].
  fold l'. destruct (Z.of_nat (length l') <=? faceit_expression_list_index s); reflexivity.
Qed.

(** X5. After the removal of the selected expression from a list of at
    least two items with distinct names, the list is one shorter, the name
    of the removed item is gone, and the selected position is again a
    position of the list: the old one, or the last one when the last item
    was removed.  A list of at most one item becomes empty with position
    -1. *)
Theorem X5_remove_selection :
  (forall s k item,
     NoDup (map name (faceit_expression_list s)) ->
     (1 < length (faceit_expression_list s))%nat ->
     faceit_expression_list_index s = Z.of_nat k ->
     faceit_expression_list s !! k = Some item ->
     exists s',
       remove_expression_item EmptyString s = Ok s'
       /\ S (length (faceit_expression_list s')) = length (faceit_expression_list s)
       /\ ~ In (name item) (map name (faceit_expression_list s'))
       /\ 0 <= faceit_expression_list_index s'
           < Z.of_nat (length (faceit_expression_list s'))
       /\ faceit_expression_list_index s'
          = Z.min (Z.of_nat k) (Z.of_nat (length (faceit_expression_list s)) - 2))
  /\ (forall remove_item s,
        (length (faceit_expression_list s) <= 1)%nat ->
        exists s',
          remove_expression_item remove_item s = Ok s'
          /\ faceit_expression_list s' = []
          /\ faceit_expression_list_index s' = -1
          /\ ow_action s' = None /\ sh_action s' = None).
Proof.
  split.
  - intros s k item Hnd Hlen Hidx Hk.
    pose proof (find_name_NoDup _ _ _ Hnd Hk) as Hfind.
    pose proof (remove_by_position EmptyString s k item Hlen Hk Hfind
                  (or_introl (conj eq_refl Hidx))) as Hrun.
    cbv zeta in Hrun. eexists. split; [exact Hrun|].
    cbn [faceit_expression_list faceit_expression_list_index].
    pose proof (lookup_lt_Some _ _ _ Hk) as Hklt.
    assert (Hl' : S (length (map (fun x => if frame item <? frame x
                                           then set_item_frame x (frame x - 10) else x)
                               (delete k (faceit_expression_list s))))
                  = length (faceit_expression_list s)).
    { rewrite length_map, length_delete by eauto. lia. }
    split; [exact Hl'|]. split.
    + rewrite map_map.
      replace (map _ (delete k (faceit_expression_list s)))
        with (map name (delete k (faceit_expression_list s))).
      2:{ apply map_ext. intros x. destruct (frame item <? frame x); reflexivity. }
      change (map name (delete k (faceit_expression_list s)))
        with (name <$> delete k (faceit_expression_list s)).
      rewrite list_fmap_delete.
      apply NoDup_delete_not_In; [exact Hnd|].
      change (map name ?l) with (name <$> l). now rewrite list_lookup_fmap, Hk.
    + rewrite Hidx.
      destruct (Z.leb_spec (Z.of_nat (length (map (fun x => if frame item <? frame x
                                           then set_item_frame x (frame x - 10) else x)
                               (delete k (faceit_expression_list s))))) (Z.of_nat k)); lia.
  - intros remove_item s Hlen. unfold remove_expression_item.
    destruct (Nat.leb_spec (length (faceit_expression_list s)) 1) as [_|Hgt]; [|lia].
    eexists. split; [reflexivity|]. repeat split.
Qed.

Lemma X5_remove_selection_witness :
  let l := [ExpressionItem "a" 10 "N" "NONE" EmptyString;
            ExpressionItem "b" 20 "N" "NONE" EmptyString;
            ExpressionItem "c" 30 "N" "NONE" EmptyString] in
  exists s',
    remove_expression_item EmptyString (Scene l 2 None None None) = Ok s'
    /\ S (length (faceit_expression_list s')) = 3%nat
    /\ ~ In "c" (map name (faceit_expression_list s'))
    /\ 0 <= faceit_expression_list_index s' < Z.of_nat (length (faceit_expression_list s'))
    /\ faceit_expression_list_index s' = Z.min 2 (3 - 2).
Proof.
  intros l. destruct X5_remove_selection as [Hrem _].
  apply (Hrem (Scene l 2 None None None) 2%nat (ExpressionItem "c" 30 "N" "NONE" EmptyString)).
  - apply (bool_decide_unpack _). vm_compute. exact I.
  - cbn. lia.
  - reflexivity.
  - reflexivity.
Defined.

Lemma find_name_app_new (n : string) (l : list expression_item) (item : expression_item) :
  ~ In n (map name l) -> name item = n -> find_name n (l ++ [item]) = Some (length l).
Proof.
  intros Hnot Hname. induction l as [|x l IH]; cbn [find_name app length].
  - rewrite Hname, String.eqb_refl. reflexivity.
  - destruct (String.eqb_spec (name x) n) as [Heq|_].
    + exfalso. apply Hnot. left. exact Heq.
    + rewrite IH; [reflexivity|]. intros Hin. apply Hnot. right. exact Hin.
Qed.

(** Removing the last item of a list by its name, the name being new to
    the items before it, gives these items back. *)
Lemma remove_last_by_name (l : list expression_item) (item : expression_item) (s : scene) :
  frames_ok l ->
  frame item = (Z.of_nat (length l) + 1) * 10 ->
  name item <> EmptyString ->
  ~ In (name item) (map name l) ->
  faceit_expression_list s = l ++ [item] ->
  exists s',
    remove_expression_item (name item) s = Ok s' /\ faceit_expression_list s' = l.
Proof.
  intros Hok Hf Hne Hfresh Hs.
  destruct (decide (l = [])) as [Hnil|Hnil].
  - subst l. eexists. unfold remove_expression_item. rewrite Hs.
    cbn [app length Nat.leb]. split; reflexivity.
  - assert (Hlen : (1 < length (faceit_expression_list s))%nat).
    { rewrite Hs, length_app. cbn [length].
      destruct l; [contradiction | cbn [length]; lia]. }
    pose proof (remove_by_position (name item) s (length l) item Hlen) as Hrun.
    eexists. split.
    + apply Hrun.
      * rewrite Hs. now rewrite list_lookup_middle.
      * rewrite Hs. now apply find_name_app_new.
      * right. split; [exact Hne | reflexivity].
    + cbn [faceit_expression_list]. rewrite Hs, (delete_middle l [] item), app_nil_r.
      rewrite <- (map_id l) at 2. apply map_ext_in. intros y Hy.
      apply list_elem_of_In, list_elem_of_lookup in Hy as [k Hk].
      rewrite (Hok k y Hk). pose proof (lookup_lt_Some _ _ _ Hk).
      destruct (Z.ltb_spec (frame item) ((Z.of_nat k + 1) * 10)) as [Hlt|_]; [|reflexivity].
      rewrite Hf in Hlt. lia.
Qed.

(** X6. The add operator on a list whose frames are in order, the new
    names being non-empty, new to the list and distinct.  Either one item
    has been added, and removing it by its name gives back the list; or a
    custom shape whose name passes the side test has been added with
    [auto_mirror], the list has gained the item and its mirror item, and
    removing the mirror item and then the item, each by its name, gives
    back the list. *)
Theorem X6_add_then_remove
  (get_expression_name_double_entries : string -> list expression_item -> string)
  (expression_name side procedural mirror_name_overwrite : string)
  (custom_shape auto_mirror : bool)
  (l l1 : list expression_item) (selected : option Z) (s : scene) :
  frames_ok l ->
  add_expression_item get_expression_name_double_entries (-1) expression_name side
    procedural mirror_name_overwrite custom_shape auto_mirror l = Ok (l1, selected) ->
  Forall (fun item => name item <> EmptyString /\ ~ In (name item) (map name l))
    (drop (length l) l1) ->
  NoDup (map name (drop (length l) l1)) ->
  faceit_expression_list s = l1 ->
  (exists item,
     l1 = l ++ [item]
     /\ exists s',
          remove_expression_item (name item) s = Ok s' /\ faceit_expression_list s' = l)
  \/ (exists item mirror,
        l1 = l ++ [item; mirror]
        /\ custom_shape = true /\ auto_mirror = true
        /\ poll_side_in_expression_name side expression_name = true
        /\ exists s1 s2,
             remove_expression_item (name mirror) s = Ok s1
             /\ faceit_expression_list s1 = l ++ [item]
             /\ remove_expression_item (name item) s1 = Ok s2
             /\ faceit_expression_list s2 = l).
Proof.
  intros Hok Hadd Hnew Hdist Hs.
  destruct (add_expression_item_shape get_expression_name_double_entries expression_name
              side procedural mirror_name_overwrite custom_shape auto_mirror l)
    as (item & rest & sel & Hrun & _ & Hf & Hrest & Hone & _).
  rewrite Hrun in Hadd. injection Hadd as Hl1 _. subst l1.
  rewrite drop_app_length in Hnew, Hdist.
  destruct Hrest as [->|(mirror & -> & Hc & Ha & _ & Hfm)].
  - left. exists item. split; [reflexivity|].
    apply Forall_cons in Hnew as [[Hne Hfresh] _].
    now apply remove_last_by_name.
  - right. exists item, mirror. split; [reflexivity|]. split; [exact Hc|].
    split; [exact Ha|]. split.
    { destruct (poll_side_in_expression_name side expression_name) eqn:Hp; [reflexivity|].
      assert (Hnil : [mirror] = []) by (apply Hone; rewrite Hc, Ha; reflexivity).
      discriminate Hnil. }
    apply Forall_cons in Hnew as [[Hne Hfresh] Hnew].
    apply Forall_cons in Hnew as [[Hnem Hfreshm] _].
    cbn [map] in Hdist. apply NoDup_cons in Hdist as [Hdiff _].
    assert (Hok1 : frames_ok (l ++ [item])) by now apply frames_ok_app_new.
    destruct (remove_last_by_name (l ++ [item]) mirror s Hok1) as (s1 & Hrun1 & Hs1).
    { rewrite Hfm, length_app. cbn [length]. lia. }
    { exact Hnem. }
    { rewrite map_app, in_app_iff. cbn [map In]. intros [H|[H|[]]]; [now apply Hfreshm|].
      apply Hdiff. rewrite H. apply list_elem_of_In. now left. }
    { rewrite Hs. change (l ++ [item; mirror]) with (l ++ [item] ++ [mirror]).
      now rewrite app_assoc. }
    destruct (remove_last_by_name l item s1 Hok Hf Hne Hfresh Hs1) as (s2 & Hrun2 & Hs2).
    exists s1, s2. auto.
Qed.

Lemma X6_add_then_remove_witness :
  let l := [ExpressionItem "a" 10 "N" "NONE" EmptyString;
            ExpressionItem "b" 20 "N" "NONE" EmptyString] in
  let item := ExpressionItem "brow_L" 30 "L" "NONE" "brow_R" in
  let mirror := ExpressionItem "brow_R" 40 "R" "NONE" "brow_L" in
  exists s1 s2,
    remove_expression_item "brow_R" (Scene (l ++ [item; mirror]) 2 None None None) = Ok s1
    /\ faceit_expression_list s1 = l ++ [item]
    /\ remove_expression_item "brow_L" s1 = Ok s2
    /\ faceit_expression_list s2 = l.
Proof.
  intros l item mirror.
  destruct (X6_add_then_remove (fun n _ => n) "brow_L" "L" "NONE" EmptyString true true
              l (l ++ [item; mirror]) (Some 2) (Scene (l ++ [item; mirror]) 2 None None None))
    as [(x & Hl1 & _)|(x & y & Hl1 & _ & _ & _ & Hrun)].
  - intros k it Hk. destruct k as [|[|[|k]]]; cbn in Hk; try discriminate;
      injection Hk as <-; reflexivity.
  - reflexivity.
  - cbn [length drop l]. repeat constructor; try discriminate;
      cbn; intros [H|[H|[]]]; discriminate.
  - cbn [length drop l map name item mirror]. apply (bool_decide_unpack _). vm_compute. exact I.
  - reflexivity.
  - apply (f_equal (@length _)) in Hl1. discriminate Hl1.
  - apply app_inv_head in Hl1. injection Hl1 as <- <-. exact Hrun.
Defined.

End ExpressionListMore.

(** ** The frames of the zero keys *)

Section ZeroFramesMore.
Import Append.
Local Open Scope Z_scope.

Lemma Sorted_frames_of_seq (a n : nat) :
  Sorted Z.le (map (fun i => Z.of_nat i * 10 + 1) (seq a n)).
Proof.
  revert a. induction n as [|n IH]; intros a; cbn [seq map]; [constructor|].
  constructor; [apply IH|]. destruct n; cbn [seq map]; constructor. lia.
Qed.

(** X7. The zero frames of [n >= 1] expressions are the [n + 1] frames
    1, 11, ..., 10 n + 1 in this order, each once; there is none for
    [n = 0].  No frame of an expression is a zero frame. *)
Theorem X7_zero_frames_closed_form (n : nat) :
  zero_frames n
  = match n with
    | O => []
    | S _ => map (fun i => Z.of_nat i * 10 + 1) (seq 0 (S n))
    end
  /\ forall f, In f (new_frames n) -> ~ In f (zero_frames n).
Proof.
  split.
  - destruct n as [|m]; [reflexivity|].
    apply (Sorted_unique Z.le).
    + apply (Sorted_merge_sort Z.le).
    + apply Sorted_frames_of_seq.
    + apply NoDup_Permutation.
      * unfold zero_frames. rewrite merge_sort_Permutation. apply NoDup_elements.
      * apply NoDup_fmap_2_strong; [|apply NoDup_seq].
        intros i j _ _ Hij. lia.
      * intros z. rewrite !list_elem_of_In, In_zero_frames, in_map_iff. split.
        -- intros (j & Hj & [->| ->]).
           ++ exists (S j). split; [lia | apply in_seq; lia].
           ++ exists j. split; [lia | apply in_seq; lia].
        -- intros (i & <- & Hi). apply in_seq in Hi. destruct i as [|i].
           ++ exists 0%nat. split; [lia | right; lia].
           ++ exists i. split; [lia | left; lia].
  - intros f Hf Hz. unfold new_frames in Hf. apply in_map_iff in Hf as (i & <- & _).
    apply In_zero_frames in Hz as (j & _ & [H|H]); lia.
Qed.

Lemma X7_zero_frames_closed_form_witness :
  zero_frames 2 = [1; 11; 21] /\ ~ In 20 (zero_frames 2).
Proof.
  destruct (X7_zero_frames_closed_form 2) as [Hclosed Hnew].
  split; [exact Hclosed | apply Hnew; cbn; auto].
Defined.

End ZeroFramesMore.

(** ** Baking: arrays that do not fit, shared arrays, sampled drivers *)

Section BakeMore.
Import Bake BakeSampling.
Local Open Scope Q_scope.

Lemma od_set_absent {V : Type} (k : string) (v : V) (d : list (string * V)) :
  od_get k d = None -> od_set k v d = d ++ [(k, v)].
Proof.
  induction d as [|[k' v'] d IH]; cbn [od_get od_set app]; [reflexivity|].
  destruct (String.eqb k k'); [discriminate|]. intros H. now rewrite IH.
Qed.

(** X8. [populate_motion_data_dict] on a data path without ['scale'] and
    one array index: a pair that is not yet in the dictionary is added at
    its end with the new array, and no array changes; for a present pair a
    new array of one row has its value added to every stored row; a new
    array whose row count is neither that of the stored array nor one is
    dropped, the dictionary and all arrays staying as they are. *)
Theorem X8_populate_new_broadcast_mismatch :
  (forall dp i new_kf_data bone_motion_data st,
     od_get (fcurve_identifier dp i) bone_motion_data = None ->
     populate_motion_data_dict dp (Single i) new_kf_data false bone_motion_data st
     = (bone_motion_data ++ [(fcurve_identifier dp i, MotionEntry dp i new_kf_data)], st))
  /\ (forall dp i new_kf_data bone_motion_data st e a rb,
        PyStr.contains "scale" dp = false ->
        od_get (fcurve_identifier dp i) bone_motion_data = Some e ->
        st !! kf_data e = Some a ->
        st !! new_kf_data = Some [rb] ->
        populate_motion_data_dict dp (Single i) new_kf_data false bone_motion_data st
        = (bone_motion_data,
           <[kf_data e := map (fun ra => (fst ra, snd ra + snd rb)) a]> st))
  /\ (forall dp i new_kf_data bone_motion_data st e a b,
        PyStr.contains "scale" dp = false ->
        od_get (fcurve_identifier dp i) bone_motion_data = Some e ->
        st !! kf_data e = Some a ->
        st !! new_kf_data = Some b ->
        length b <> length a -> length b <> 1%nat ->
        populate_motion_data_dict dp (Single i) new_kf_data false bone_motion_data st
        = (bone_motion_data, st)).
Proof.
  split; [|split].
  - intros dp i r bmd st Hget. unfold populate_motion_data_dict. cbn [fold_left].
    unfold populate_one. rewrite Hget. now rewrite od_set_absent.
  - intros dp i r bmd st e a rb Hdp Hget Ha Hb. unfold populate_motion_data_dict.
    cbn [fold_left]. unfold populate_one. rewrite Hget, Hdp. cbn [negb].
    rewrite Ha, Hb. unfold iadd_values. cbn [length].
    destruct (Nat.eqb_spec 1 (length a)) as [Hlen|_]; [|reflexivity].
    destruct a as [|ra [|? ?]]; try discriminate. reflexivity.
  - intros dp i r bmd st e a b Hdp Hget Ha Hb Hlen Hone. unfold populate_motion_data_dict.
    cbn [fold_left]. unfold populate_one. rewrite Hget, Hdp. cbn [negb].
    rewrite Ha, Hb. unfold iadd_values.
    destruct (Nat.eqb_spec (length b) (length a)) as [Heq|_]; [contradiction|].
    destruct b as [|rb [|? ?]]; try reflexivity. now contradiction Hone.
Qed.

Lemma X8_populate_new_broadcast_mismatch_witness :
  populate_motion_data_dict "location" (Single 1) 1%nat false
    [("location_1", MotionEntry "location" 1 0%nat)]
    [[(1, 1 # 2); (2, 1 # 4)]; [(1, 1 # 4)]]
  = ([("location_1", MotionEntry "location" 1 0%nat)],
     [[(1, (1 # 2) + (1 # 4)); (2, (1 # 4) + (1 # 4))]; [(1, 1 # 4)]])
  /\ populate_motion_data_dict "location" (Single 1) 1%nat false
       [("location_1", MotionEntry "location" 1 0%nat)]
       [[(1, 1 # 2)]; [(1, 1 # 4); (2, 1 # 4)]]
     = ([("location_1", MotionEntry "location" 1 0%nat)],
        [[(1, 1 # 2)]; [(1, 1 # 4); (2, 1 # 4)]]).
Proof.
  destruct X8_populate_new_broadcast_mismatch as (_ & Hone & Hdrop). split.
  - exact (Hone "location" 1%Z 1%nat [("location_1", MotionEntry "location" 1 0%nat)]
             [[(1, 1 # 2); (2, 1 # 4)]; [(1, 1 # 4)]] (MotionEntry "location" 1 0%nat)
             [(1, 1 # 2); (2, 1 # 4)] (1, 1 # 4) eq_refl eq_refl eq_refl eq_refl).
  - apply (Hdrop "location" 1%Z 1%nat _ _ (MotionEntry "location" 1 0%nat)
             [(1, 1 # 2)] [(1, 1 # 4); (2, 1 # 4)]); try reflexivity; cbn; lia.
Defined.

Lemma od_get_append_eq {V : Type} (k : string) (x : V) (d : list (string * list V)) :
  od_get k (od_append k x d) = Some (default [] (od_get k d) ++ [x]).
Proof.
  induction d as [|[k' l] d IH]; cbn [od_get od_append].
  - now rewrite String.eqb_refl.
  - destruct (String.eqb k k') eqn:E; cbn [od_get]; rewrite ?String.eqb_refl, ?E; auto.
Qed.

Lemma od_get_append_ne {V : Type} (k k' : string) (x : V) (d : list (string * list V)) :
  k <> k' -> od_get k' (od_append k x d) = od_get k' d.
Proof.
  intros Hne. induction d as [|[k0 l] d IH]; cbn [od_get od_append].
  - destruct (String.eqb_spec k' k); [congruence | reflexivity].
  - destruct (String.eqb_spec k k0) as [->|Hk]; cbn [od_get].
    + destruct (String.eqb_spec k' k0); [congruence | reflexivity].
    + destruct (String.eqb k' k0); [reflexivity | exact IH].
Qed.

(** X9. The entries that one call of [populate_motion_data_dict] creates
    for several array indices hold one and the same array.  So when a
    second array is added through the entry of the index [i] alone, the
    entry of the index [j] shows the sum as well; and when the second call
    names both indices again, the second array is added twice. *)
Theorem X9_entries_share_one_array
  (dp : string) (i j : Z) (r1 r2 : ref) (bone_motion_data : motion_dict) (st : store)
  (a b : kf_array) :
  PyStr.contains "scale" dp = false ->
  i <> j ->
  od_get (fcurve_identifier dp i) bone_motion_data = None ->
  od_get (fcurve_identifier dp j) bone_motion_data = None ->
  st !! r1 = Some a -> st !! r2 = Some b -> r1 <> r2 -> length b = length a ->
  let sum := zip_with (fun ra rb : row => (fst ra, snd ra + snd rb)) in
  let s1 := populate_motion_data_dict dp (Many [i; j]) r1 false bone_motion_data st in
  let s2 := populate_motion_data_dict dp (Single i) r2 false (fst s1) (snd s1) in
  let s2' := populate_motion_data_dict dp (Many [i; j]) r2 false (fst s1) (snd s1) in
  od_get (fcurve_identifier dp i) (fst s1) = Some (MotionEntry dp i r1)
  /\ od_get (fcurve_identifier dp j) (fst s1) = Some (MotionEntry dp j r1)
  /\ snd s1 = st
  /\ fst s2 = fst s1 /\ snd s2 !! r1 = Some (sum a b)
  /\ fst s2' = fst s1 /\ snd s2' !! r1 = Some (sum (sum a b) b).
Proof.
  intros Hdp Hij Hi Hj Ha Hb Hr Hlen sum s1 s2 s2'.
  pose proof (lookup_lt_Some _ _ _ Ha) as Hr1.
  assert (Hne : fcurve_identifier dp i <> fcurve_identifier dp j).
  { intros H. apply Hij. exact (fcurve_identifier_inj _ _ _ H). }
  set (bmd1 := od_set (fcurve_identifier dp j) (MotionEntry dp j r1)
                 (od_set (fcurve_identifier dp i) (MotionEntry dp i r1) bone_motion_data)).
  assert (Hs1 : s1 = (bmd1, st)).
  { subst s1. unfold populate_motion_data_dict. cbn [fold_left]. unfold populate_one at 2.
    rewrite Hi. unfold populate_one. rewrite od_get_set_ne by exact Hne. now rewrite Hj. }
  assert (Hgi : od_get (fcurve_identifier dp i) bmd1 = Some (MotionEntry dp i r1)).
  { subst bmd1. rewrite od_get_set_ne by congruence. apply od_get_set_eq. }
  assert (Hgj : od_get (fcurve_identifier dp j) bmd1 = Some (MotionEntry dp j r1)).
  { subst bmd1. apply od_get_set_eq. }
  assert (Hstep : populate_one dp r2 i (bmd1, st) = (bmd1, <[r1 := sum a b]> st)).
  { unfold populate_one. rewrite Hgi, Hdp. cbn [negb kf_data]. rewrite Ha, Hb.
    unfold iadd_values. rewrite Hlen, Nat.eqb_refl. reflexivity. }
  subst s2 s2'. rewrite Hs1. cbn [fst snd]. unfold populate_motion_data_dict.
  cbn [fold_left]. rewrite Hstep. cbn [fst snd].
  split; [exact Hgi|]. split; [exact Hgj|]. split; [reflexivity|].
  split; [reflexivity|]. split; [now apply list_lookup_insert_eq|].
  unfold populate_one. rewrite Hgj, Hdp. cbn [negb kf_data].
  rewrite list_lookup_insert_eq by exact Hr1.
  rewrite list_lookup_insert_ne by exact Hr. rewrite Hb.
  unfold iadd_values.
  assert (Hlen2 : length b = length (sum a b)).
  { subst sum. rewrite length_zip_with. lia. }
  rewrite Hlen2, Nat.eqb_refl. cbn [fst snd].
  split; [reflexivity|]. apply list_lookup_insert_eq. now rewrite length_insert.
Qed.

Lemma X9_entries_share_one_array_witness :
  let st := [[(1, 1 # 2)]; [(1, 1 # 4)]] in
  let s1 := populate_motion_data_dict "location" (Many [0; 1]%Z) 0%nat false [] st in
  let s2 := populate_motion_data_dict "location" (Single 0%Z) 1%nat false (fst s1) (snd s1) in
  let s2' := populate_motion_data_dict "location" (Many [0; 1]%Z) 1%nat false (fst s1) (snd s1) in
  od_get "location_0" (fst s1) = Some (MotionEntry "location" 0 0%nat)
  /\ od_get "location_1" (fst s1) = Some (MotionEntry "location" 1 0%nat)
  /\ snd s1 = st
  /\ fst s2 = fst s1 /\ snd s2 !! 0%nat = Some [(1, (1 # 2) + (1 # 4))]
  /\ fst s2' = fst s1 /\ snd s2' !! 0%nat = Some [(1, (1 # 2) + (1 # 4) + (1 # 4))].
Proof.
  intros st.
  exact (X9_entries_share_one_array "location" 0%Z 1%Z 0%nat 1%nat [] st
           [(1, 1 # 2)] [(1, 1 # 4)] eq_refl ltac:(discriminate) eq_refl eq_refl
           eq_refl eq_refl ltac:(discriminate) eq_refl).
Defined.

(** One object at one frame: a data path that is already processed keeps
    its samples, a driver of the object gets one sample more. *)
Lemma sample_drivers (fr : Q) (sk_id : shape_key_id) (drivers : list string) :
  forall (processed : list string) (d : list (string * kf_array)) (dp : string),
    let s' := fold_left
                (fun '(processed_data_paths, anim_data_dict) dp =>
                   if existsb (String.eqb dp) processed_data_paths
                   then (processed_data_paths, anim_data_dict)
                   else (processed_data_paths ++ [dp],
                         od_append dp (fr, sk_resolve sk_id fr dp) anim_data_dict))
                drivers (processed, d) in
    existsb (String.eqb dp) (fst s')
    = existsb (String.eqb dp) processed || existsb (String.eqb dp) drivers
    /\ od_get dp (snd s')
       = if existsb (String.eqb dp) processed then od_get dp d
         else if existsb (String.eqb dp) drivers
              then Some (default [] (od_get dp d) ++ [(fr, sk_resolve sk_id fr dp)])
              else od_get dp d.
Proof.
  induction drivers as [|d0 drivers IH]; intros processed d dp; cbn [fold_left existsb].
  - cbn [fst snd]. rewrite orb_false_r. split; [reflexivity|].
    destruct (existsb (String.eqb dp) processed); reflexivity.
  - destruct (existsb (String.eqb d0) processed) eqn:Hd0.
    + destruct (IH processed d dp) as [IH1 IH2]. cbv zeta in IH1, IH2.
      rewrite IH1, IH2. clear IH IH1 IH2.
      destruct (String.eqb_spec dp d0) as [->|Hne]; cbn [orb].
      * rewrite Hd0. split; reflexivity.
      * split; reflexivity.
    + destruct (IH (processed ++ [d0]) (od_append d0 (fr, sk_resolve sk_id fr d0) d) dp)
        as [IH1 IH2]. cbv zeta in IH1, IH2. rewrite IH1, IH2. clear IH IH1 IH2.
      rewrite existsb_app. cbn [existsb]. rewrite orb_false_r.
      destruct (String.eqb_spec dp d0) as [->|Hne]; cbn [orb].
      * rewrite Hd0, orb_true_r. cbn [orb]. split; [reflexivity|]. apply od_get_append_eq.
      * rewrite od_get_append_ne by congruence.
        destruct (existsb (String.eqb dp) processed), (existsb (String.eqb dp) drivers);
          split; reflexivity.
Qed.

Lemma sample_objects (fr : Q) (target_objects : list (option shape_key_id)) :
  forall (processed : list string) (d : list (string * kf_array)) (dp : string),
    let s' := fold_left (sample_object fr) target_objects (processed, d) in
    existsb (String.eqb dp) (fst s')
    = existsb (String.eqb dp) processed || existsb (has_driver dp) target_objects
    /\ od_get dp (snd s')
       = if existsb (String.eqb dp) processed then od_get dp d
         else match driver_object dp target_objects with
              | Some sk_id => Some (default [] (od_get dp d) ++ [(fr, sk_resolve sk_id fr dp)])
              | None => od_get dp d
              end.
Proof.
  induction target_objects as [|obj objs IH]; intros processed d dp;
    cbn [fold_left existsb driver_object].
  - cbn [fst snd]. rewrite orb_false_r. split; [reflexivity|].
    destruct (existsb (String.eqb dp) processed); reflexivity.
  - destruct obj as [sk_id|]; [destruct (sk_drivers sk_id) as [drivers|] eqn:Hdrv|].
    + unfold sample_object at 2 4. rewrite Hdrv. unfold has_driver at 1 3. rewrite Hdrv.
      pose proof (sample_drivers fr sk_id drivers processed d dp) as Hone.
      cbv zeta in Hone.
      destruct (fold_left _ drivers (processed, d)) as [p1 d1]. cbn [fst snd] in Hone.
      destruct Hone as [H1 H2]. destruct (IH p1 d1 dp) as [IH1 IH2]. cbv zeta in IH1, IH2.
      rewrite IH1, IH2, H1, H2. clear IH IH1 IH2 H1 H2.
      split; [now rewrite orb_assoc|].
      destruct (existsb (String.eqb dp) processed); cbn [orb]; [reflexivity|].
      destruct (existsb (String.eqb dp) drivers); reflexivity.
    + unfold sample_object at 2 4. rewrite Hdrv. unfold has_driver at 1 3. rewrite Hdrv.
      cbn [orb]. apply IH.
    + cbn [sample_object has_driver orb]. apply IH.
Qed.

(** X10. What [bake_ctrl_rig_animation_to_shape_keys] samples for a data
    path: when some target object has a driver on it and there is a frame,
    one row per frame, in the order of the frames, with the value the first
    such object resolves at this frame; nothing otherwise. *)
Theorem X10_sampled_rows (all_frames : list Q) (target_objects : list (option shape_key_id))
  (dp : string) :
  od_get dp (sample_frames all_frames target_objects)
  = match driver_object dp target_objects, all_frames with
    | Some sk_id, _ :: _ => Some (map (fun fr => (fr, sk_resolve sk_id fr dp)) all_frames)
    | _, _ => None
    end.
Proof.
  unfold sample_frames.
  assert (Hgen : forall acc,
    od_get dp (fold_left
                 (fun anim_data_dict fr =>
                    snd (fold_left (sample_object fr) target_objects ([], anim_data_dict)))
                 all_frames acc)
    = match driver_object dp target_objects, all_frames with
      | Some sk_id, _ :: _ =>
          Some (default [] (od_get dp acc)
                  ++ map (fun fr => (fr, sk_resolve sk_id fr dp)) all_frames)
      | _, _ => od_get dp acc
      end).
  { induction all_frames as [|fr frames IH]; intros acc; cbn [fold_left].
    - destruct (driver_object dp target_objects); reflexivity.
    - rewrite IH. destruct (sample_objects fr target_objects [] acc dp) as [_ Hacc].
      cbv zeta in Hacc. cbn [existsb] in Hacc. rewrite Hacc.
      destruct (driver_object dp target_objects) as [sk_id|]; [|reflexivity].
      destruct frames as [|fr' frames]; [reflexivity|].
      change (default [] (Some ?x)) with x. rewrite <- app_assoc. reflexivity. }
  rewrite Hgen. cbn [od_get default app].
  destruct (driver_object dp target_objects), all_frames; reflexivity.
Qed.

End BakeMore.

(** ** Baking: the source curves *)

Section BakeCollectFacts.
Import Host BakeCollect.

Lemma od_set_not_nil {V : Type} (k : string) (v : V) (d : list (string * V)) :
  od_set k v d <> [].
Proof. destruct d as [|[k' v'] d]; cbn [od_set]; [|destruct (String.eqb k k')]; discriminate. Qed.

Lemma od_get_set_inv {V : Type} (k k' : string) (v v' : V) (d : list (string * V)) :
  od_get k' (od_set k v d) = Some v' -> (k' = k /\ v' = v) \/ od_get k' d = Some v'.
Proof.
  destruct (String.eqb_spec k k') as [->|Hne].
  - rewrite od_get_set_eq. intros [= <-]. now left.
  - rewrite od_get_set_ne by exact Hne. now right.
Qed.

Section Runs.
Variable find : string -> option fcurve.
Variable is_empty : fcurve -> bool.

Lemma collect_target_shape_eq (resample : bool) (name : string)
  (a : list (string * fcurve)) (m : list string) (ts : string) :
  collect_target_shape find is_empty resample name (a, m) ts
  = match find (key_block_path ts) with
    | Some fc =>
        if is_empty fc then Ok (a, m)
        else if resample then Raise TypeError else Ok (od_set name fc a, m)
    | None => Ok (a, m ++ [ts])
    end.
Proof.
  unfold collect_target_shape. destruct (find (key_block_path ts)) as [fc|]; [|reflexivity].
  destruct (is_empty fc); reflexivity.
Qed.

Lemma has_animation_eq (ts : string) :
  has_animation find is_empty ts
  = match find (key_block_path ts) with
    | Some fc => negb (is_empty fc)
    | None => false
    end.
Proof. reflexivity. Qed.

Lemma collect_shape_item_eq (resample : bool) (crig_version : Q)
  (s : list (string * fcurve) * list string) (item : shape_item) :
  collect_shape_item find is_empty resample crig_version s item
  = if passed_over crig_version (si_name item) then Ok s
    else Append.foldlM (collect_target_shape find is_empty resample (si_name item))
           (target_shapes item) s.
Proof. reflexivity. Qed.

Lemma item_has_animation_eq (crig_version : Q) (item : shape_item) :
  item_has_animation find is_empty crig_version item
  = negb (passed_over crig_version (si_name item))
    && existsb (has_animation find is_empty) (target_shapes item).
Proof. reflexivity. Qed.

Lemma collect_target_shapes_runs (name : string) (shapes : list string) :
  forall a m,
  exists a' m',
    Append.foldlM (collect_target_shape find is_empty false name) shapes (a, m) = Ok (a', m')
    /\ (existsb (has_animation find is_empty) shapes = false -> a' = a)
    /\ (existsb (has_animation find is_empty) shapes = true -> a' <> [])
    /\ Append.foldlM (collect_target_shape find is_empty true name) shapes (a, m)
       = (if existsb (has_animation find is_empty) shapes then Raise TypeError
          else Ok (a, m'))
    /\ (forall k fc, od_get k a' = Some fc ->
          od_get k a = Some fc
          \/ (k = name /\ is_empty fc = false
              /\ exists target_shape, In target_shape shapes
                   /\ find (key_block_path target_shape) = Some fc)).
Proof.
  induction shapes as [|ts shapes IH]; intros a m; cbn [Append.foldlM existsb].
  - exists a, m. split; [reflexivity|]. split; [reflexivity|]. split; [discriminate|].
    split; [reflexivity|]. intros k fc Hk. now left.
  - rewrite !collect_target_shape_eq, !has_animation_eq.
    destruct (find (key_block_path ts)) as [fc|] eqn:Hfind;
      [destruct (is_empty fc) eqn:Hemp|]; cbn [negb mbind result_bind orb].
    + destruct (IH a m) as (a' & m' & Hrun & Hno & Hyes & Htrue & Hkeys).
      exists a', m'. split; [exact Hrun|]. split; [exact Hno|]. split; [exact Hyes|].
      split; [exact Htrue|].
      intros k fc' Hk. destruct (Hkeys k fc' Hk) as [H|(-> & He & t & Hin & Hf)]; [now left|].
      right. repeat split; auto. exists t. split; [now right | exact Hf].
    + destruct (IH (od_set name fc a) m) as (a' & m' & Hrun & Hno & Hyes & _ & Hkeys).
      exists a', m'. split; [exact Hrun|]. split; [discriminate|]. split.
      { intros _. destruct (existsb (has_animation find is_empty) shapes) eqn:Hex.
        - now apply Hyes.
        - rewrite Hno by reflexivity. apply od_set_not_nil. }
      split; [reflexivity|].
      intros k fc' Hk. destruct (Hkeys k fc' Hk) as [H|(-> & He & t & Hin & Hf)].
      * apply od_get_set_inv in H as [[-> ->]|H]; [|now left].
        right. repeat split; auto. exists ts. split; [now left | exact Hfind].
      * right. repeat split; auto. exists t. split; [now right | exact Hf].
    + destruct (IH a (m ++ [ts])) as (a' & m' & Hrun & Hno & Hyes & Htrue & Hkeys).
      exists a', m'. split; [exact Hrun|]. split; [exact Hno|]. split; [exact Hyes|].
      split; [exact Htrue|].
      intros k fc' Hk. destruct (Hkeys k fc' Hk) as [H|(-> & He & t & Hin & Hf)]; [now left|].
      right. repeat split; auto. exists t. split; [now right | exact Hf].
Qed.

Lemma collect_shape_items_runs (crig_version : Q) (crig_targets : list shape_item) :
  forall a m,
  exists a' m',
    Append.foldlM (collect_shape_item find is_empty false crig_version) crig_targets (a, m)
    = Ok (a', m')
    /\ (existsb (item_has_animation find is_empty crig_version) crig_targets = false ->
        a' = a)
    /\ (existsb (item_has_animation find is_empty crig_version) crig_targets = true ->
        a' <> [])
    /\ Append.foldlM (collect_shape_item find is_empty true crig_version) crig_targets (a, m)
       = (if existsb (item_has_animation find is_empty crig_version) crig_targets
          then Raise TypeError else Ok (a, m'))
    /\ (forall k fc, od_get k a' = Some fc ->
          od_get k a = Some fc
          \/ (is_empty fc = false
              /\ exists item target_shape,
                   In item crig_targets /\ si_name item = k
                   /\ passed_over crig_version k = false
                   /\ In target_shape (target_shapes item)
                   /\ find (key_block_path target_shape) = Some fc)).
Proof.
  induction crig_targets as [|item items IH]; intros a m; cbn [Append.foldlM existsb].
  - exists a, m. split; [reflexivity|]. split; [reflexivity|]. split; [discriminate|].
    split; [reflexivity|]. intros k fc Hk. now left.
  - rewrite !collect_shape_item_eq, !item_has_animation_eq.
    destruct (passed_over crig_version (si_name item)) eqn:Hpass;
      cbn [negb andb orb mbind result_bind].
    + destruct (IH a m) as (a' & m' & Hrun & Hno & Hyes & Htrue & Hkeys).
      exists a', m'. split; [exact Hrun|]. split; [exact Hno|]. split; [exact Hyes|].
      split; [exact Htrue|].
      intros k fc Hk. destruct (Hkeys k fc Hk) as [H|(He & it & t & Hin & Hrest)]; [now left|].
      right. split; [exact He|]. exists it, t. split; [now right | exact Hrest].
    + destruct (collect_target_shapes_runs (si_name item) (target_shapes item) a m)
        as (a1 & m1 & Hrun1 & Hno1 & Hyes1 & Htrue1 & Hkeys1).
      rewrite Hrun1, Htrue1. cbn [mbind result_bind].
      destruct (IH a1 m1) as (a' & m' & Hrun & Hno & Hyes & Htrue & Hkeys).
      exists a', m'. split; [exact Hrun|].
      destruct (existsb (has_animation find is_empty) (target_shapes item)) eqn:Hex;
        cbn [orb mbind result_bind].
      * split; [discriminate|]. split.
        { intros _.
          destruct (existsb (item_has_animation find is_empty crig_version) items) eqn:Hex2.
          - now apply Hyes.
          - rewrite Hno by reflexivity. now apply Hyes1. }
        split; [reflexivity|].
        intros k fc Hk. destruct (Hkeys k fc Hk) as [H|(He & it & t & Hin & Hrest)].
        -- destruct (Hkeys1 k fc H) as [H1|(-> & He & t & Hin & Hf)]; [now left|].
           right. split; [exact He|]. exists item, t. split; [now left|]. auto.
        -- right. split; [exact He|]. exists it, t. split; [now right | exact Hrest].
      * rewrite (Hno1 eq_refl) in *. split; [exact Hno|]. split; [exact Hyes|].
        split; [exact Htrue|].
        intros k fc Hk. destruct (Hkeys k fc Hk) as [H|(He & it & t & Hin & Hrest)]; [now left|].
        right. split; [exact He|]. exists it, t. split; [now right | exact Hrest].
Qed.

End Runs.

(** X11. The first loop of [bake_shape_keys_to_ctrl_rig] without resampling
    always ends normally, and every entry it stores is a non-empty curve
    found for a target shape of a shape item of that name which is not
    passed over (so from version 1.2 on no right-eye look shape is stored).
    With [resample_fcurves] set, the loop raises [TypeError] exactly when
    the run without resampling stores a curve, and stores nothing
    otherwise: a bake with resampling never gets to write a key frame. *)
Theorem X11_resample_raises (find : string -> option fcurve) (is_empty : fcurve -> bool)
  (crig_version : Q) (crig_targets : list shape_item) :
  exists arkit_curves_values missing_animation,
    collect_source_curves find is_empty false crig_version crig_targets
    = Ok (arkit_curves_values, missing_animation)
    /\ (forall k fc, od_get k arkit_curves_values = Some fc ->
          is_empty fc = false
          /\ passed_over crig_version k = false
          /\ exists item target_shape,
               In item crig_targets /\ si_name item = k
               /\ In target_shape (target_shapes item)
               /\ find (key_block_path target_shape) = Some fc)
    /\ (arkit_curves_values <> [] ->
        collect_source_curves find is_empty true crig_version crig_targets
        = Raise TypeError)
    /\ (arkit_curves_values = [] ->
        collect_source_curves find is_empty true crig_version crig_targets
        = Ok ([], missing_animation)).
Proof.
  unfold collect_source_curves.
  destruct (collect_shape_items_runs find is_empty crig_version crig_targets [] [])
    as (a' & m' & Hrun & Hno & Hyes & Htrue & Hkeys).
  exists a', m'. split; [exact Hrun|]. split; [|split].
  - intros k fc Hk. destruct (Hkeys k fc Hk) as [H|(He & it & t & Hin & Hn & Hp & Ht & Hf)];
      [discriminate|].
    split; [exact He|]. split; [exact Hp|]. exists it, t. auto.
  - intros Hne. rewrite Htrue.
    destruct (existsb (item_has_animation find is_empty crig_version) crig_targets);
      [reflexivity|]. exfalso. apply Hne. now apply Hno.
  - intros Hnil. rewrite Htrue.
    destruct (existsb (item_has_animation find is_empty crig_version) crig_targets);
      [|reflexivity]. exfalso. now apply Hyes.
Qed.

Lemma X11_resample_raises_witness :
  let find := fun dp : string =>
    if String.eqb dp (key_block_path "jawOpen")
    then Some (FCurve dp 0 [Keyframe (1%Q, 1%Q) "LINEAR"]) else None in
  let is_empty := fun fc : fcurve => match keyframe_points fc with [] => true | _ => false end in
  exists arkit_curves_values missing_animation,
    collect_source_curves find is_empty false (13 # 10) [ShapeItem "jawOpen" ["jawOpen"]]
    = Ok (arkit_curves_values, missing_animation)
    /\ collect_source_curves find is_empty true (13 # 10) [ShapeItem "jawOpen" ["jawOpen"]]
       = Raise TypeError.
Proof.
  intros find is_empty.
  destruct (X11_resample_raises find is_empty (13 # 10) [ShapeItem "jawOpen" ["jawOpen"]])
    as (a & m & Hrun & _ & Hraise & _).
  exists a, m. split; [exact Hrun|]. apply Hraise.
  intros ->. vm_compute in Hrun. discriminate Hrun.
Defined.

End BakeCollectFacts.

(** ** The names of baked actions *)

Section CrigNamesFacts.
Import CrigNames.

Lemma length_append (s t : string) :
  String.length (String.append s t) = (String.length s + String.length t)%nat.
Proof. induction s as [|c s IH]; simpl; [reflexivity | now f_equal]. Qed.

Lemma substring_append_r (s t : string) :
  String.substring (String.length s) (String.length t) (String.append s t) = t.
Proof.
  induction s as [|c s IH]; simpl.
  - induction t as [|c t IH]; simpl; [reflexivity | now f_equal].
  - exact IH.
Qed.

Lemma substring_append_l (s t : string) :
  String.substring 0 (String.length s) (String.append s t) = s.
Proof.
  induction s as [|c s IH]; simpl.
  - destruct t; reflexivity.
  - now f_equal.
Qed.

Lemma endswith_append (s t : string) : PyStr.endswith (String.append s t) t = true.
Proof.
  unfold PyStr.endswith. rewrite length_append.
  replace (String.length s + String.length t - String.length t)%nat
    with (String.length s) by lia.
  rewrite substring_append_r, String.eqb_refl, andb_true_r.
  apply Nat.leb_le. lia.
Qed.

(** X12. The name [update_enum] derives from a source action and the name
    [update_enum_non_sk] derives from an action are inverse to each other:
    adding the suffix to a non-empty name and taking it off again gives the
    name back. *)
Theorem X12_action_name_round_trip (action_source old_name old_name' : string) :
  action_source <> EmptyString ->
  update_enum_non_sk (update_enum action_source old_name) old_name' = action_source.
Proof.
  intros Hne. unfold update_enum.
  destruct (String.eqb_spec action_source EmptyString) as [|_]; [contradiction|].
  unfold update_enum_non_sk.
  destruct (String.eqb_spec (String.append action_source CRIG_ACTION_SUFFIX) EmptyString)
    as [Hempty|_].
  { apply (f_equal String.length) in Hempty. rewrite length_append in Hempty.
    cbn in Hempty. lia. }
  rewrite endswith_append. unfold drop_last. rewrite length_append.
  replace (String.length action_source + String.length CRIG_ACTION_SUFFIX
           - String.length CRIG_ACTION_SUFFIX)%nat
    with (String.length action_source) by lia.
  apply substring_append_l.
Qed.

Lemma X12_action_name_round_trip_witness :
  update_enum_non_sk (update_enum "mocap" "x") "y" = "mocap".
Proof. apply (X12_action_name_round_trip "mocap" "x" "y"). discriminate. Defined.

Lemma list_ascii_of_string_append (s t : string) :
  list_ascii_of_string (String.append s t)
  = list_ascii_of_string s ++ list_ascii_of_string t.
Proof. induction s as [|c s IH]; simpl; [reflexivity | now f_equal]. Qed.

Lemma lstrip_app_all (chars : string) (t l : list ascii) :
  forallb (in_chars chars) t = true -> lstrip chars (t ++ l) = lstrip chars l.
Proof.
  induction t as [|c t IH]; cbn [forallb app lstrip]; [reflexivity|].
  intros H. apply andb_true_iff in H as [Hc Ht]. rewrite Hc. now apply IH.
Qed.

Lemma lstrip_all (chars : string) (l : list ascii) :
  forallb (in_chars chars) l = true -> lstrip chars l = [].
Proof. intros H. rewrite <- (app_nil_r l). now rewrite lstrip_app_all. Qed.

Lemma lstrip_app (chars : string) (l t : list ascii) :
  lstrip chars (l ++ t)
  = if forallb (in_chars chars) l then lstrip chars t else lstrip chars l ++ t.
Proof.
  induction l as [|c l IH]; cbn [forallb app lstrip]; [reflexivity|].
  destruct (in_chars chars c); cbn [andb]; [exact IH | reflexivity].
Qed.

Lemma forallb_rev {A : Type} (f : A -> bool) (l : list A) :
  forallb f (rev l) = forallb f l.
Proof.
  induction l as [|x l IH]; cbn [rev forallb]; [reflexivity|].
  rewrite forallb_app, IH. cbn [forallb]. now rewrite andb_true_r, andb_comm.
Qed.

Lemma length_lstrip (chars : string) (l : list ascii) :
  (length (lstrip chars l) <= length l)%nat.
Proof.
  induction l as [|c l IH]; cbn [lstrip length]; [lia|].
  destruct (in_chars chars c); cbn [length]; lia.
Qed.

Lemma lstrip_id_iff (chars : string) (l : list ascii) :
  lstrip chars l = l <-> forall c, head l = Some c -> in_chars chars c = false.
Proof.
  destruct l as [|c l]; cbn [lstrip head].
  - split; [discriminate | reflexivity].
  - destruct (in_chars chars c) eqn:Hc; split.
    + intros H. apply (f_equal (@length ascii)) in H. cbn [length] in H.
      pose proof (length_lstrip chars l). lia.
    + intros H. specialize (H c eq_refl). congruence.
    + intros _ c' [= <-]. exact Hc.
    + reflexivity.
Qed.

Lemma head_rev_last {A : Type} (l : list A) : head (rev l) = last l.
Proof.
  induction l as [|x l _] using rev_ind; [reflexivity|].
  rewrite rev_unit, last_snoc. reflexivity.
Qed.

(** X13. The name [FACEIT_OT_BakeControlRigToShapeKeys.execute] derives
    from a source action called [base + '_control_rig'] is [base] with the
    characters of ['_control_rig'] taken off both of its ends; it is [base]
    exactly when [base] neither begins nor ends with one of the characters
    [_ c o n t r l i g]. *)
Theorem X13_strip_takes_more_than_the_suffix (base : string) :
  bake_new_action_name (String.append base CRIG_ACTION_SUFFIX)
  = py_strip base CRIG_ACTION_SUFFIX
  /\ (py_strip base CRIG_ACTION_SUFFIX = base
      <-> forall c, head (list_ascii_of_string base) = Some c
                    \/ last (list_ascii_of_string base) = Some c ->
                    in_chars CRIG_ACTION_SUFFIX c = false).
Proof.
  split.
  - unfold bake_new_action_name. rewrite endswith_append. unfold py_strip.
    rewrite list_ascii_of_string_append. f_equal.
    set (l := list_ascii_of_string base).
    assert (Hsuf : forallb (in_chars CRIG_ACTION_SUFFIX)
                     (list_ascii_of_string CRIG_ACTION_SUFFIX) = true) by reflexivity.
    rewrite lstrip_app.
    destruct (forallb (in_chars CRIG_ACTION_SUFFIX) l) eqn:Hl.
    + now rewrite (lstrip_all _ _ Hsuf), (lstrip_all _ _ Hl).
    + rewrite rev_app_distr, lstrip_app_all; [reflexivity|].
      now rewrite forallb_rev.
  - unfold py_strip. set (l := list_ascii_of_string base).
    set (chars := CRIG_ACTION_SUFFIX).
    assert (Hiff : rev (lstrip chars (rev (lstrip chars l))) = l
                   <-> lstrip chars l = l /\ lstrip chars (rev l) = rev l).
    { split.
      - intros H.
        assert (Hlen : length (lstrip chars l) = length l).
        { pose proof (length_lstrip chars l). pose proof (length_lstrip chars (rev (lstrip chars l))).
          apply (f_equal (@length ascii)) in H. rewrite !length_rev in *. lia. }
        assert (Hl : lstrip chars l = l).
        { destruct l as [|c l']; [reflexivity|]. cbn [lstrip] in *.
          destruct (in_chars chars c); [|reflexivity].
          pose proof (length_lstrip chars l'). cbn [length] in Hlen. lia. }
        split; [exact Hl|]. rewrite Hl in H. rewrite <- H at 2. now rewrite rev_involutive.
      - intros [H1 H2]. now rewrite H1, H2, rev_involutive. }
    split.
    + intros H. apply (f_equal list_ascii_of_string) in H.
      rewrite list_ascii_of_string_of_list_ascii in H. fold l in H.
      apply Hiff in H as [H1 H2]. intros c [Hc|Hc].
      * exact (proj1 (lstrip_id_iff chars l) H1 c Hc).
      * apply (proj1 (lstrip_id_iff chars (rev l)) H2 c). now rewrite head_rev_last.
    + intros H.
      assert (Hl : rev (lstrip chars (rev (lstrip chars l))) = l).
      { apply Hiff. split; apply lstrip_id_iff; intros c Hc; apply H.
        - now left.
        - right. now rewrite <- head_rev_last. }
      rewrite Hl. apply string_of_list_ascii_of_string.
Qed.

Lemma X13_strip_takes_more_than_the_suffix_witness :
  bake_new_action_name "mocap_control_rig" = "mocap".
Proof.
  destruct (X13_strip_takes_more_than_the_suffix "mocap") as [Hname [_ Hsame]].
  change "mocap_control_rig" with (String.append "mocap" CRIG_ACTION_SUFFIX).
  rewrite Hname. apply Hsame.
  intros c [H|H]; injection H as <-; reflexivity.
Defined.

End CrigNamesFacts.

(** ** The control bones *)

Section ControlBonesFacts.
Import Host ControlBones.

Lemma existsb_eqb_In (n : string) (l : list string) :
  existsb (String.eqb n) l = true <-> In n l.
Proof.
  rewrite existsb_exists. split.
  - intros (x & Hx & Heq). apply String.eqb_eq in Heq. now subst.
  - intros H. exists n. split; [exact H | apply String.eqb_refl].
Qed.

Lemma add_control_bones_spec (names : list string) :
  forall bones,
  exists new,
    fold_left add_control_bone names bones = bones ++ new
    /\ NoDup new
    /\ (forall n, In n new <-> In n names /\ ~ In n bones).
Proof.
  induction names as [|n names IH]; intros bones; cbn [fold_left].
  - exists []. rewrite app_nil_r. split; [reflexivity|]. split; [constructor|].
    intros n. cbn. tauto.
  - unfold add_control_bone at 2.
    destruct (existsb (String.eqb n) bones) eqn:Hn.
    + apply existsb_eqb_In in Hn. destruct (IH bones) as (new & Hrun & Hnd & Hin).
      exists new. split; [exact Hrun|]. split; [exact Hnd|].
      intros n'. rewrite Hin. cbn [In]. split; [tauto|].
      intros [[<-|H] Hnot]; [contradiction | tauto].
    + assert (Hn' : ~ In n bones).
      { intros H. apply existsb_eqb_In in H. congruence. }
      destruct (IH (bones ++ [n])) as (new & Hrun & Hnd & Hin).
      exists (n :: new). split; [now rewrite Hrun, <- app_assoc|]. split.
      * apply NoDup_cons. split; [|exact Hnd].
        rewrite list_elem_of_In, Hin, in_app_iff. cbn [In]. tauto.
      * intros n'. cbn [In]. rewrite Hin, in_app_iff. cbn [In].
        destruct (String.eqb_spec n n') as [->|Hne]; tauto.
Qed.

Lemma add_control_bones_present (names bones : list string) :
  (forall n, In n names -> In n bones) ->
  fold_left add_control_bone names bones = bones.
Proof.
  intros H. induction names as [|n names IH]; cbn [fold_left]; [reflexivity|].
  unfold add_control_bone at 2.
  rewrite (proj2 (existsb_eqb_In n bones)) by (apply H; now left).
  apply IH. intros n' Hn'. apply H. now right.
Qed.

Lemma register_control_bones_eq (selected bones : list string) (added : bool) :
  fold_left (fun '(bones, _) pb_name => (add_control_bone bones pb_name, true))
    selected (bones, added)
  = (fold_left add_control_bone selected bones,
     match selected with [] => added | _ => true end).
Proof.
  revert bones added. induction selected as [|n selected IH]; intros bones added;
    cbn [fold_left]; [reflexivity|].
  rewrite IH. destruct selected; reflexivity.
Qed.

(** X14. [FACEIT_OT_RegisterControlBones.execute] keeps the items of the
    collection in place and adds, behind them, one item for every selected
    bone that has none, each once; [added_any] is set whenever a bone is
    selected, whether or not an item is added; a collection without
    duplicates stays so; and running the operator again on the same
    selection adds nothing. *)
Theorem X14_register_control_bones (selected_pose_bones faceit_control_bones : list string) :
  exists new,
    register_control_bones selected_pose_bones faceit_control_bones
    = (faceit_control_bones ++ new,
       match selected_pose_bones with [] => false | _ => true end)
    /\ NoDup new
    /\ (forall n, In n new <-> In n selected_pose_bones /\ ~ In n faceit_control_bones)
    /\ (NoDup faceit_control_bones -> NoDup (faceit_control_bones ++ new))
    /\ fst (register_control_bones selected_pose_bones (faceit_control_bones ++ new))
       = faceit_control_bones ++ new.
Proof.
  unfold register_control_bones. rewrite register_control_bones_eq.
  destruct (add_control_bones_spec selected_pose_bones faceit_control_bones)
    as (new & Hrun & Hnd & Hin).
  exists new. rewrite Hrun. split; [reflexivity|]. split; [exact Hnd|].
  split; [exact Hin|]. split.
  - intros Hb. apply NoDup_app. split; [exact Hb|]. split; [|exact Hnd].
    intros n Hn Hn'. apply list_elem_of_In, Hin in Hn'. apply Hn'.
    now apply list_elem_of_In.
  - rewrite register_control_bones_eq. cbn [fst].
    apply add_control_bones_present. intros n Hn. apply in_app_iff.
    destruct (in_dec string_dec n faceit_control_bones) as [Hb|Hb]; [now left|].
    right. apply Hin. split; assumption.
Qed.

Lemma X14_register_control_bones_witness :
  exists new,
    register_control_bones ["jaw"; "lip.T"; "jaw"] ["lip.T"] = (["lip.T"] ++ new, true)
    /\ NoDup (["lip.T"] ++ new).
Proof.
  destruct (X14_register_control_bones ["jaw"; "lip.T"; "jaw"] ["lip.T"])
    as (new & Hrun & _ & _ & Hnd & _).
  exists new. split; [exact Hrun|]. apply Hnd.
  apply NoDup_cons. split; [apply not_elem_of_nil | constructor].
Defined.

Lemma py_split_no_sep (sep : ascii) (s : string) :
  ~ In sep (list_ascii_of_string s) -> py_split sep s = [s].
Proof.
  induction s as [|c s IH]; cbn [py_split list_ascii_of_string]; [reflexivity|].
  intros H. destruct (Ascii.eqb_spec c sep) as [->|_].
  - exfalso. apply H. now left.
  - rewrite IH; [reflexivity|]. intros Hin. apply H. now right.
Qed.

Lemma py_split_at_sep (sep : ascii) (pre rest : string) :
  ~ In sep (list_ascii_of_string pre) ->
  py_split sep (String.append pre (String sep rest)) = pre :: py_split sep rest.
Proof.
  induction pre as [|c pre IH]; intros H.
  - change (String.append EmptyString (String sep rest)) with (String sep rest).
    cbn [py_split]. now rewrite Ascii.eqb_refl.
  - change (String.append (String c pre) (String sep rest))
      with (String c (String.append pre (String sep rest))).
    cbn [py_split]. destruct (Ascii.eqb_spec c sep) as [->|_].
    + exfalso. apply H. now left.
    + rewrite IH; [reflexivity|]. intros Hin. apply H. now right.
Qed.

Lemma bone_name_of_quoted (pre bone_name post : string) :
  ~ In ExprList.dquote (list_ascii_of_string pre) ->
  ~ In ExprList.dquote (list_ascii_of_string bone_name) ->
  bone_name_of
    (String.append pre
       (String ExprList.dquote (String.append bone_name (String ExprList.dquote post))))
  = Ok bone_name.
Proof.
  intros Hpre Hb. unfold bone_name_of.
  rewrite py_split_at_sep by exact Hpre. rewrite py_split_at_sep by exact Hb.
  reflexivity.
Qed.

Lemma bone_name_of_no_quote (data_path : string) :
  ~ In ExprList.dquote (list_ascii_of_string data_path) ->
  bone_name_of data_path = Raise IndexError.
Proof. intros H. unfold bone_name_of. now rewrite py_split_no_sep. Qed.

Lemma bone_name_of_raises (data_path : string) (e : py_exn) :
  bone_name_of data_path = Raise e -> e = IndexError.
Proof.
  unfold bone_name_of. destruct (py_split ExprList.dquote data_path !! 1%nat); [discriminate|].
  now intros [= <-].
Qed.

Lemma bone_names_collected (fcs : list fcurve) (names : list string) :
  Forall2 (fun fc n => bone_name_of (data_path fc) = Ok n) fcs names ->
  forall acc : gset string,
    Append.foldlM
      (fun (bone_names : gset string) fc =>
         bone_name ← bone_name_of (data_path fc); Ok (bone_names ∪ {[ bone_name ]}))
      fcs acc
    = Ok (acc ∪ list_to_set names).
Proof.
  induction 1 as [|fc n fcs names Hn _ IH]; intros acc; cbn [Append.foldlM].
  - f_equal. cbn [list_to_set]. now rewrite (right_id_L ∅ (∪)).
  - rewrite Hn. cbn [mbind result_bind]. rewrite IH. f_equal. cbn [list_to_set].
    now rewrite (assoc_L (∪)).
Qed.

Lemma bone_names_raise (fcs : list fcurve) :
  (exists fc, In fc fcs /\ bone_name_of (data_path fc) = Raise IndexError) ->
  forall acc : gset string,
    Append.foldlM
      (fun (bone_names : gset string) fc =>
         bone_name ← bone_name_of (data_path fc); Ok (bone_names ∪ {[ bone_name ]}))
      fcs acc
    = Raise IndexError.
Proof.
  induction fcs as [|fc fcs IH]; intros (fc' & Hin & Hraise) acc; [destruct Hin|].
  cbn [Append.foldlM]. destruct (bone_name_of (data_path fc)) as [n|e] eqn:Hfc.
  - cbn [mbind result_bind]. apply IH. exists fc'. split; [|exact Hraise].
    destruct Hin as [->|Hin]; [congruence | exact Hin].
  - cbn [mbind result_bind]. now rewrite (bone_name_of_raises _ _ Hfc).
Qed.

(** X15. [FACEIT_OT_UpdateControlBones.execute]: without the overwrite
    action the operator raises [TypeError]; a curve whose data path has no
    double quote makes it raise [IndexError] before any item is added;
    otherwise the items of the collection stay in place and behind them
    comes one item, and only one, for every bone named by a curve that had
    none, in whatever order the set of names is walked.  The name taken
    from a path [pre"bone"post] is [bone]. *)
Theorem X15_update_control_bones (iter : gset string -> list string)
  (faceit_control_bones : list string) :
  (forall (X : gset string) n, In n (iter X) <-> n ∈ X) ->
  update_control_bones iter None faceit_control_bones = Raise TypeError
  /\ (forall fcs channelbags names,
        Forall2 (fun fc n => bone_name_of (data_path fc) = Ok n) fcs names ->
        exists new,
          update_control_bones iter (Some (Action fcs channelbags)) faceit_control_bones
          = Ok (faceit_control_bones ++ new)
          /\ NoDup new
          /\ (forall n, In n new <-> In n names /\ ~ In n faceit_control_bones))
  /\ (forall fcs channelbags fc,
        In fc fcs -> ~ In ExprList.dquote (list_ascii_of_string (data_path fc)) ->
        update_control_bones iter (Some (Action fcs channelbags)) faceit_control_bones
        = Raise IndexError)
  /\ (forall pre bone_name post,
        ~ In ExprList.dquote (list_ascii_of_string pre) ->
        ~ In ExprList.dquote (list_ascii_of_string bone_name) ->
        bone_name_of
          (String.append pre
             (String ExprList.dquote
                (String.append bone_name (String ExprList.dquote post))))
        = Ok bone_name).
Proof.
  intros Hiter. split; [reflexivity|]. split; [|split].
  - intros fcs cbs names Hnames. unfold update_control_bones. cbn [fcurves].
    rewrite (bone_names_collected fcs names Hnames). cbn [mbind result_bind].
    destruct (add_control_bones_spec (iter (∅ ∪ list_to_set names)) faceit_control_bones)
      as (new & Hrun & Hnd & Hin).
    exists new. rewrite Hrun. split; [reflexivity|]. split; [exact Hnd|].
    intros n. rewrite Hin, Hiter, elem_of_union, elem_of_list_to_set, list_elem_of_In.
    split; [intros [[H|H] Hb]; [now apply not_elem_of_empty in H | tauto] | tauto].
  - intros fcs cbs fc Hin Hq. unfold update_control_bones. cbn [fcurves].
    rewrite bone_names_raise; [reflexivity|].
    exists fc. split; [exact Hin | now apply bone_name_of_no_quote].
  - apply bone_name_of_quoted.
Qed.

Lemma X15_update_control_bones_witness :
  let dp := String.append "pose.bones["
              (String ExprList.dquote (String.append "jaw" (String ExprList.dquote "].location"))) in
  exists new,
    update_control_bones elements (Some (Action [FCurve dp 0 []; FCurve dp 1 []] []))
      ["lip.T"]
    = Ok (["lip.T"] ++ new)
    /\ (forall n, In n new <-> In n ["jaw"; "jaw"] /\ ~ In n ["lip.T"]).
Proof.
  intros dp.
  destruct (X15_update_control_bones elements ["lip.T"]) as (_ & Hrun & _ & _).
  { intros X n. rewrite <- list_elem_of_In. apply elem_of_elements. }
  destruct (Hrun [FCurve dp 0 []; FCurve dp 1 []] [] ["jaw"; "jaw"])
    as (new & Hnew & _ & Hin).
  { repeat constructor. }
  exists new. split; [exact Hnew | exact Hin].
Defined.

End ControlBonesFacts.

(** ** Mirroring a shape key *)

Section MirrorShapeFacts.
Import MirrorShape.
Local Open Scope Q_scope.

Lemma Qopp_opp_eq (x : Q) : - - x = x.
Proof. destruct x as [n d]. unfold Qopp. cbn [Qnum Qden]. now rewrite Z.opp_involutive. Qed.

Lemma negate_axis_alter (axis : nat) (co : vec) :
  (axis < length co)%nat -> negate_axis axis co = Ok (alter Qopp axis co).
Proof.
  intros H. unfold negate_axis. destruct (lookup_lt_is_Some_2 co axis H) as [x Hx].
  rewrite Hx. f_equal. revert axis H Hx. induction co as [|y co IH]; intros [|axis] H Hx;
    cbn in *; try discriminate; try lia.
  - now injection Hx as ->.
  - f_equal. apply IH; [lia | exact Hx].
Qed.

Lemma alter_Qopp_twice (axis : nat) (co : vec) :
  alter Qopp axis (alter Qopp axis co) = co.
Proof.
  revert axis. induction co as [|y co IH]; intros [|axis]; cbn; try reflexivity.
  - now rewrite Qopp_opp_eq.
  - f_equal. apply IH.
Qed.

Lemma range_test_false (a i : nat) : (a <=? i)%nat && (i <? a + 0)%nat = false.
Proof. destruct (Nat.leb_spec a i), (Nat.ltb_spec i (a + 0)); try reflexivity. lia. Qed.

Lemma match_nonempty {A B : Type} (l : list A) (x y : B) :
  l <> [] -> match l with [] => x | _ :: _ => y end = y.
Proof. destruct l; [contradiction | reflexivity]. Qed.

Lemma get_item_Some {A : Type} (l : list A) (i : nat) (x : A) :
  l !! i = Some x -> get_item l i = Ok x.
Proof. intros H. unfold get_item. now rewrite H. Qed.

Lemma set_item_lt {A : Type} (l : list A) (i : nat) (x : A) :
  (i < length l)%nat -> set_item l i x = Ok (<[i := x]> l).
Proof. intros H. unfold set_item. now destruct (Nat.ltb_spec i (length l)); [|lia]. Qed.

(** A loop that sets the positions [a], [a+1], ... of a list one after the
    other. *)
Lemma seq_write {A : Type} (step : list A -> nat -> result (list A)) (F : nat -> A)
  (n : nat) :
  forall k a nd,
    (a + k <= n)%nat -> length nd = n ->
    (forall nd' i, (a <= i < a + k)%nat -> length nd' = n ->
       step nd' i = set_item nd' i (F i)) ->
    exists nd',
      Append.foldlM step (seq a k) nd = Ok nd'
      /\ length nd' = n
      /\ forall i, nd' !! i
                   = if (a <=? i)%nat && (i <? a + k)%nat then Some (F i) else nd !! i.
Proof.
  induction k as [|k IH]; intros a nd Hle Hlen Hstep; cbn [seq Append.foldlM].
  - exists nd. split; [reflexivity|]. split; [exact Hlen|].
    intros i. now rewrite range_test_false.
  - rewrite Hstep by (try exact Hlen; lia). assert (Ha : (a < length nd)%nat) by lia.
    rewrite (set_item_lt nd a (F a) Ha). cbn [mbind result_bind].
    destruct (IH (S a) (<[a := F a]> nd)) as (nd' & Hrun & Hlen' & Hget).
    + lia.
    + now rewrite length_insert.
    + intros nd1 i Hi Hl1. apply Hstep; [lia | exact Hl1].
    + exists nd'. split; [exact Hrun|]. split; [exact Hlen'|].
      intros i. rewrite Hget.
      destruct (Nat.eq_dec i a) as [->|Hne].
      * destruct (Nat.leb_spec (S a) a); [lia|]. cbn [andb].
        rewrite list_lookup_insert_eq by exact Ha.
        destruct (Nat.leb_spec a a), (Nat.ltb_spec a (a + S k)); try lia. reflexivity.
      * rewrite list_lookup_insert_ne by congruence.
        destruct (Nat.leb_spec (S a) i), (Nat.ltb_spec i (S a + k)),
          (Nat.leb_spec a i), (Nat.ltb_spec i (a + S k)); cbn [andb]; try reflexivity; lia.
Qed.

(** The loop of lines 2049-2050. *)
Lemma imap_write {A : Type} (l : list A) :
  forall a data,
    (a + length l <= length data)%nat ->
    exists data',
      Append.foldlM (fun data '(i, co) => set_item data i co)
        (imap (fun i co => ((a + i)%nat, co)) l) data = Ok data'
      /\ length data' = length data
      /\ forall i, data' !! i
                   = if (a <=? i)%nat && (i <? a + length l)%nat
                     then l !! (i - a)%nat else data !! i.
Proof.
  induction l as [|x l IH]; intros a data Hle; cbn [imap Append.foldlM length] in *.
  - exists data. split; [reflexivity|]. split; [reflexivity|].
    intros i. now rewrite range_test_false.
  - rewrite Nat.add_0_r. assert (Ha : (a < length data)%nat) by lia.
    rewrite (set_item_lt data a x Ha). cbn [mbind result_bind].
    destruct (IH (S a) (<[a := x]> data)) as (data' & Hrun & Hlen' & Hget).
    { rewrite length_insert. lia. }
    exists data'. split.
    { rewrite <- Hrun. f_equal. apply imap_ext. intros i y _. cbn. f_equal. lia. }
    split; [now rewrite Hlen', length_insert|].
    intros i. rewrite Hget.
    destruct (Nat.eq_dec i a) as [->|Hne].
    + destruct (Nat.leb_spec (S a) a); [lia|]. cbn [andb].
      rewrite list_lookup_insert_eq by exact Ha.
      destruct (Nat.leb_spec a a), (Nat.ltb_spec a (a + S (length l))); try lia.
      cbn [andb]. now rewrite Nat.sub_diag.
    + rewrite list_lookup_insert_ne by congruence.
      destruct (Nat.leb_spec (S a) i), (Nat.ltb_spec i (S a + length l)),
        (Nat.leb_spec a i), (Nat.ltb_spec i (a + S (length l))); cbn [andb];
        try reflexivity; try lia.
      replace (i - a)%nat with (S (i - S a)) by lia. reflexivity.
Qed.

Section Runs.
Variable kd_find : list vec -> vec -> nat.

Lemma mirror_shape_key_run (vertices : list vec) (axis : nat)
  (mirror_from_shape mirror_to_shape : list vec) :
  vertices <> [] ->
  length mirror_from_shape = length vertices ->
  length mirror_to_shape = length vertices ->
  Forall (fun co => (axis < length co)%nat) vertices ->
  Forall (fun co => (axis < length co)%nat) mirror_from_shape ->
  (forall i, (i < length vertices)%nat ->
     (mirror_index kd_find vertices axis i < length vertices)%nat) ->
  mirror_shape_key kd_find vertices axis mirror_from_shape mirror_to_shape
  = Ok (map (fun i => alter Qopp axis (mirror_from_shape !!! mirror_index kd_find vertices axis i))
          (seq 0 (length vertices))).
Proof.
  intros Hne HlenA HlenB HV HA Hidx. unfold mirror_shape_key.
  set (n := length vertices) in *.
  rewrite (mapM_Ok _ (fun co => kd_find vertices (alter Qopp axis co))).
  2:{ intros co Hco. rewrite Forall_forall in HV.
      rewrite negate_axis_alter by (apply HV; now apply list_elem_of_In). reflexivity. }
  cbn [mbind result_bind].
  set (idx := map (fun co => kd_find vertices (alter Qopp axis co)) vertices).
  assert (Hidx_get : forall i, (i < n)%nat -> idx !! i = Some (mirror_index kd_find vertices axis i)).
  { intros i Hi. subst idx. change (map ?f ?l) with (f <$> l).
    rewrite list_lookup_fmap. destruct (lookup_lt_is_Some_2 vertices i Hi) as [co Hco].
    rewrite Hco. cbn. unfold mirror_index. now rewrite (list_lookup_total_correct _ _ _ Hco). }
  rewrite (match_nonempty idx).
  2:{ subst idx. destruct vertices; [contradiction | discriminate]. }
  set (F := fun i => alter Qopp axis (mirror_from_shape !!! mirror_index kd_find vertices axis i)).
  destruct (seq_write
              (fun new_data i =>
                 j ← get_item idx i; co ← get_item mirror_from_shape j;
                 new_co ← negate_axis axis co; set_item new_data i new_co)
              F n n 0%nat vertices) as (nd & Hrun & Hlen & Hget).
  { lia. }
  { reflexivity. }
  { intros nd' i Hi _. rewrite (get_item_Some idx i _ (Hidx_get i ltac:(lia))).
    cbn [mbind result_bind].
    assert (Hj : (mirror_index kd_find vertices axis i < length mirror_from_shape)%nat).
    { rewrite HlenA. apply Hidx. lia. }
    destruct (lookup_lt_is_Some_2 _ _ Hj) as [co Hco].
    rewrite (get_item_Some _ _ _ Hco).
    cbn [mbind result_bind]. rewrite negate_axis_alter.
    - cbn [mbind result_bind]. subst F. cbn beta.
      now rewrite (list_lookup_total_correct _ _ _ Hco).
    - rewrite Forall_forall in HA. apply HA. apply list_elem_of_lookup. eauto. }
  rewrite HlenA, Hrun. cbn [mbind result_bind].
  destruct (imap_write nd 0%nat mirror_to_shape) as (data' & Hrun2 & Hlen2 & Hget2).
  { rewrite Hlen, HlenB. lia. }
  cbn [Nat.add] in Hrun2. rewrite Hrun2. f_equal.
  apply list_eq. intros i. rewrite Hget2, Hlen, Nat.sub_0_r, Hget.
  change (map ?f ?l) with (f <$> l). rewrite list_lookup_fmap.
  destruct (Nat.ltb_spec i (0 + n)) as [Hi|Hi]; cbn [Nat.leb andb].
  - rewrite lookup_seq_lt by lia. reflexivity.
  - rewrite lookup_seq_ge by lia. cbn. apply lookup_ge_None. lia.
Qed.

End Runs.

(** X16. [mirror_shape_key] on a mesh without vertices raises
    [UnboundLocalError].  On a mesh with vertices, when the tree pairs the
    vertices up (the vertex next to the mirror image of the one next to the
    mirror image of [i] is [i] again), the target shape gets at [i] the
    source coordinate of the paired vertex with the axis negated, and
    mirroring the result once more gives back the source shape. *)
Theorem X16_mirror_shape_key (kd_find : list vec -> vec -> nat) :
  (forall axis mirror_from_shape mirror_to_shape,
     mirror_shape_key kd_find [] axis mirror_from_shape mirror_to_shape
     = Raise UnboundLocalError)
  /\ (forall vertices axis mirror_from_shape mirror_to_shape third_shape,
        vertices <> [] ->
        length mirror_from_shape = length vertices ->
        length mirror_to_shape = length vertices ->
        length third_shape = length vertices ->
        Forall (fun co => (axis < length co)%nat) vertices ->
        Forall (fun co => (axis < length co)%nat) mirror_from_shape ->
        (forall i, (i < length vertices)%nat ->
           (mirror_index kd_find vertices axis i < length vertices)%nat
           /\ mirror_index kd_find vertices axis (mirror_index kd_find vertices axis i) = i) ->
        exists mirrored,
          mirror_shape_key kd_find vertices axis mirror_from_shape mirror_to_shape
          = Ok mirrored
          /\ length mirrored = length vertices
          /\ (forall i, (i < length vertices)%nat ->
                mirrored !! i
                = Some (alter Qopp axis
                          (mirror_from_shape !!! mirror_index kd_find vertices axis i)))
          /\ mirror_shape_key kd_find vertices axis mirrored third_shape
             = Ok mirror_from_shape).
Proof.
  split; [reflexivity|].
  intros vertices axis A B C Hne HlenA HlenB HlenC HV HA Hpair.
  set (n := length vertices) in *.
  set (sigma := mirror_index kd_find vertices axis) in *.
  set (F := fun i => alter Qopp axis (A !!! sigma i)).
  assert (Hget : forall i, (i < n)%nat -> (F <$> seq 0 n) !! i = Some (F i)).
  { intros i Hi. rewrite list_lookup_fmap, lookup_seq_lt by exact Hi. reflexivity. }
  exists (map F (seq 0 n)). split; [|split; [|split]].
  - apply mirror_shape_key_run; auto. intros i Hi. now apply Hpair.
  - now rewrite length_map, length_seq.
  - exact Hget.
  - rewrite mirror_shape_key_run; auto.
    + f_equal. fold n. fold sigma. apply list_eq. intros i.
      change (map ?f ?l) with (f <$> l). rewrite list_lookup_fmap.
      destruct (Nat.lt_ge_cases i n) as [Hi|Hi].
      * rewrite lookup_seq_lt by exact Hi. cbn [fmap option_fmap option_map].
        destruct (Hpair i Hi) as [Hs Hinv]. fold sigma in Hs, Hinv.
        rewrite (list_lookup_total_correct _ _ _ (Hget (sigma i) Hs)).
        unfold F. rewrite Hinv, alter_Qopp_twice.
        symmetry. apply list_lookup_lookup_total_lt. fold n in HlenA. lia.
      * rewrite lookup_seq_ge by exact Hi. symmetry. apply lookup_ge_None.
        fold n in HlenA. cbn. lia.
    + now rewrite length_map, length_seq.
    + apply Forall_forall. intros co Hco. apply list_elem_of_In, in_map_iff in Hco
        as (i & <- & Hi). unfold F. rewrite length_alter.
      rewrite Forall_forall in HA. apply HA. apply list_elem_of_lookup.
      exists (sigma i). apply list_lookup_lookup_total_lt. apply in_seq in Hi.
      destruct (Hpair i) as [Hs _]; [lia|]. fold sigma in Hs. fold n in HlenA. lia.
    + intros i Hi. now apply Hpair.
Qed.

Lemma X16_mirror_shape_key_witness :
  let kd_find := fun (vertices : list vec) (co : vec) =>
    if Qle_bool 0 (nth 0 co 0) then 0%nat else 1%nat in
  mirror_shape_key kd_find [[1; 0; 0]; [-1; 0; 0]] 0 [[2; 0; 0]; [-1; 1; 0]]
    [[0; 0; 0]; [0; 0; 0]]
  = Ok [[1; 1; 0]; [-2; 0; 0]]
  /\ mirror_shape_key kd_find [[1; 0; 0]; [-1; 0; 0]] 0 [[1; 1; 0]; [-2; 0; 0]]
       [[0; 0; 0]; [0; 0; 0]]
     = Ok [[2; 0; 0]; [-1; 1; 0]].
Proof.
  intros kd_find.
  destruct (X16_mirror_shape_key kd_find) as [_ Hrun].
  destruct (Hrun [[1; 0; 0]; [-1; 0; 0]] 0%nat [[2; 0; 0]; [-1; 1; 0]]
              [[0; 0; 0]; [0; 0; 0]] [[0; 0; 0]; [0; 0; 0]])
    as (mirrored & Hm & _ & _ & Hback); try reflexivity; try discriminate.
  - repeat constructor.
  - repeat constructor.
  - intros [|[|i]] Hi; [split; [vm_compute; lia | reflexivity]
                        | split; [vm_compute; lia | reflexivity]
                        | cbn in Hi; lia].
  - vm_compute in Hm. injection Hm as <-. split; [reflexivity | exact Hback].
Defined.

End MirrorShapeFacts.

(** ** Wrapping text *)

Section WrapTextFacts.
Import WrapText.
Local Open Scope Q_scope.

Lemma append_cons (x : ascii) (a b : string) :
  String.append (String x a) b = String x (String.append a b).
Proof. reflexivity. Qed.

Lemma append_assoc (a b c : string) :
  String.append (String.append a b) c = String.append a (String.append b c).
Proof. induction a as [|x a IH]; [reflexivity | now rewrite !append_cons, IH]. Qed.

Lemma append_nil_r (a : string) : String.append a EmptyString = a.
Proof. induction a as [|x a IH]; [reflexivity | now rewrite append_cons, IH]. Qed.


Section Rows.
Variable dimensions : string -> Q.



End Rows.



End WrapTextFacts.

(** ** The slots of an action *)

Section SlotsFacts.
Import Slots.
Local Open Scope Z_scope.

Lemma py_int_py_str (n : Z) : Append.py_int (py_str n) = Ok n.
Proof.
  unfold Append.py_int, py_str. rewrite NilZero.isi.
  - now rewrite DecimalZ.of_to.
  - destruct n; cbn; try discriminate. intros [= H].
    now apply (DecimalPos.Unsigned.to_uint_nonnil p).
  - destruct n; cbn; try discriminate. intros [= H].
    now apply (DecimalPos.Unsigned.to_uint_nonnil p).
Qed.

Lemma find_slot_by_handle_Some (slots : list action_slot) (h : Z) (slot : action_slot) :
  find_slot_by_handle slots h = Some slot -> In slot slots /\ handle slot = h.
Proof.
  induction slots as [|x slots IH]; cbn [find_slot_by_handle]; [discriminate|].
  destruct (Z.eqb_spec (handle x) h) as [Hh|_].
  - intros [= <-]. split; [now left | exact Hh].
  - intros H. destruct (IH H). split; [now right | assumption].
Qed.

Lemma find_slot_by_handle_In (slots : list action_slot) (slot : action_slot) :
  In slot slots -> exists slot', find_slot_by_handle slots (handle slot) = Some slot'.
Proof.
  induction slots as [|x slots IH]; intros Hin; [destruct Hin|].
  cbn [find_slot_by_handle]. destruct (Z.eqb_spec (handle x) (handle slot)); [eauto|].
  destruct Hin as [->|Hin]; [congruence | now apply IH].
Qed.

Lemma find_slot_by_handle_NoDup (slots : list action_slot) (slot : action_slot) :
  NoDup (map handle slots) -> In slot slots ->
  find_slot_by_handle slots (handle slot) = Some slot.
Proof.
  induction slots as [|x slots IH]; intros Hnd Hin; [destruct Hin|].
  cbn [map] in Hnd. apply NoDup_cons in Hnd as [Hx Hnd]. cbn [find_slot_by_handle].
  destruct Hin as [->|Hin]; [now rewrite Z.eqb_refl|].
  destruct (Z.eqb_spec (handle x) (handle slot)) as [Heq|_]; [|now apply IH].
  exfalso. apply Hx. rewrite Heq. apply list_elem_of_In, in_map. exact Hin.
Qed.

(** X18. Every item [get_slot_items] offers for an action comes from a
    slot of the wanted target type, and choosing it makes
    [FACEIT_OT_SelectSlotMenu.execute] store the handle of that slot, under
    which [find_slot_by_handle] finds a slot again - that very slot when
    the handles of the action are distinct.  Every slot of the wanted type
    is offered.  [find_slot_by_handle] returns nothing exactly for a handle
    no slot has. *)
Theorem X18_slot_items_select (slots : list action_slot) (id_type : string) :
  (forall item, In item (get_slot_items (Some slots) id_type) ->
     exists slot,
       In slot (get_slots_of_id_type slots id_type)
       /\ target_id_type slot = id_type
       /\ item = (py_str (handle slot), name_display slot, identifier slot)
       /\ select_slot (Some slots) (fst (fst item)) = Ok (Some (handle slot))
       /\ (exists slot', find_slot_by_handle slots (handle slot) = Some slot'
                         /\ handle slot' = handle slot)
       /\ (NoDup (map handle slots) ->
           find_slot_by_handle slots (handle slot) = Some slot))
  /\ (forall slot, In slot slots -> target_id_type slot = id_type ->
        In (py_str (handle slot), name_display slot, identifier slot)
          (get_slot_items (Some slots) id_type))
  /\ (forall h, find_slot_by_handle slots h = None <-> ~ In h (map handle slots))
  /\ get_valid_slots_for_id slots id_type = get_slots_of_id_type slots id_type.
Proof.
  split; [|split; [|split]].
  - intros item Hin. unfold get_slot_items in Hin. apply in_map_iff in Hin as (slot & <- & Hs).
    exists slot. pose proof Hs as Hs'. apply filter_In in Hs' as [Hin Ht].
    apply String.eqb_eq in Ht.
    split; [exact Hs|]. split; [exact Ht|]. split; [reflexivity|]. split.
    { cbn [fst select_slot]. now rewrite py_int_py_str. }
    split.
    + destruct (find_slot_by_handle_In slots slot Hin) as [slot' Hf].
      exists slot'. split; [exact Hf|]. now apply find_slot_by_handle_Some in Hf.
    + intros Hnd. now apply find_slot_by_handle_NoDup.
  - intros slot Hin Ht. unfold get_slot_items. apply in_map_iff. exists slot.
    split; [reflexivity|]. apply filter_In. split; [exact Hin|]. now apply String.eqb_eq.
  - intros h. split.
    + intros Hnone Hin. apply in_map_iff in Hin as (slot & <- & Hin).
      destruct (find_slot_by_handle_In slots slot Hin) as [slot' Hf]. congruence.
    + intros Hnot. destruct (find_slot_by_handle slots h) as [slot|] eqn:Hf; [|reflexivity].
      apply find_slot_by_handle_Some in Hf as [Hin <-]. exfalso. apply Hnot.
      now apply in_map.
  - reflexivity.
Qed.

Lemma X18_slot_items_select_witness :
  let slots := [ActionSlot 7 "OBJECT" "Rig" "OBRig"; ActionSlot 12 "KEY" "Keys" "KEKeys"] in
  exists slot,
    In slot (get_slots_of_id_type slots "KEY")
    /\ select_slot (Some slots) "12" = Ok (Some (handle slot))
    /\ find_slot_by_handle slots (handle slot) = Some slot.
Proof.
  intros slots. destruct (X18_slot_items_select slots "KEY") as [Hitems _].
  destruct (Hitems ("12", "Keys", "KEKeys")) as (slot & Hin & _ & _ & Hsel & _ & Hfind).
  { vm_compute. left. reflexivity. }
  exists slot. split; [exact Hin|]. split; [exact Hsel|]. apply Hfind.
  apply (bool_decide_unpack _). vm_compute. exact I.
Defined.

End SlotsFacts.

(** ** The actions offered for the head *)

Section HeadPollFacts.
Import HeadPoll.

(** X19. [head_action_poll] never accepts the shape action.  Any other
    action with f-curves is accepted for an armature exactly when it is
    refused for an object of another type, and an action without f-curves
    is accepted for both; without a head object the result is [None]. *)
Theorem X19_head_action_poll (action_name : string) (data_paths : list string) :
  (forall head_obj,
     head_action_poll head_obj "faceit_shape_action" data_paths = Some false)
  /\ (action_name <> "faceit_shape_action" ->
      head_action_poll None action_name data_paths = None
      /\ (forall type, type <> "ARMATURE" ->
            exists b b',
              head_action_poll (Some "ARMATURE") action_name data_paths = Some b
              /\ head_action_poll (Some type) action_name data_paths = Some b'
              /\ (data_paths = [] -> b = true /\ b' = true)
              /\ (data_paths <> [] -> b' = negb b)
              /\ (b = true <-> data_paths = []
                               \/ exists dp, In dp data_paths
                                    /\ PyStr.contains "pose.bones" dp = true))).
Proof.
  split; [reflexivity|].
  intros Hname. unfold head_action_poll. cbn [existsb].
  destruct (String.eqb_spec action_name "faceit_shape_action") as [|_]; [contradiction|].
  cbn [orb]. split; [reflexivity|].
  intros type Htype. destruct (String.eqb_spec type "ARMATURE") as [|_]; [contradiction|].
  cbn [String.eqb Ascii.eqb Bool.eqb].
  eexists. eexists. split; [reflexivity|]. split; [reflexivity|].
  destruct data_paths as [|dp data_paths].
  - cbn. split; [auto|]. split; [congruence|]. split; [now left | reflexivity].
  - cbn [length Nat.eqb]. rewrite !orb_false_r. split; [discriminate|].
    split; [reflexivity|]. rewrite existsb_exists. split.
    + intros (x & Hx & Hc). right. eauto.
    + intros [H|(x & Hx & Hc)]; [discriminate | eauto].
Qed.

Lemma X19_head_action_poll_witness :
  head_action_poll None "head_action" ["location"] = None
  /\ exists b b',
       head_action_poll (Some "ARMATURE") "head_action" ["location"] = Some b
       /\ head_action_poll (Some "MESH") "head_action" ["location"] = Some b'
       /\ b' = negb b.
Proof.
  destruct (X19_head_action_poll "head_action" ["location"]) as [_ H].
  destruct H as [Hnone Hboth]; [discriminate|]. split; [exact Hnone|].
  destruct (Hboth "MESH") as (b & b' & H1 & H2 & _ & Hneg & _); [discriminate|].
  exists b, b'. split; [exact H1|]. split; [exact H2|]. apply Hneg. discriminate.
Defined.

End HeadPollFacts.

(** ** Appending a preset *)

Section AppendLoadFacts.
Import Host ExprList AppendLoad.

Lemma add_expression_item_eq
  (get_expression_name_double_entries : string -> list expression_item -> string)
  (expression_name side procedural mirror_name_overwrite : string)
  (expression_list : list expression_item) :
  add_expression_item get_expression_name_double_entries (-1) expression_name side
    procedural mirror_name_overwrite false false expression_list
  = Ok (expression_list
        ++ [ExpressionItem
              (get_expression_name_double_entries expression_name expression_list)
              ((Z.of_nat (length expression_list) + 1) * 10) side procedural
              (if String.eqb mirror_name_overwrite EmptyString
               then EmptyString else mirror_name_overwrite)], None).
Proof. reflexivity. Qed.

Lemma load_expressions_frames
  (get_expression_name_double_entries : string -> list expression_item -> string)
  (expression_data_loaded : list (string * expression_data)) :
  forall expression_list,
    frames_ok expression_list ->
    exists new_items,
      load_expressions get_expression_name_double_entries expression_data_loaded
        expression_list = Ok (expression_list ++ new_items)
      /\ length new_items = length expression_data_loaded
      /\ frames_ok (expression_list ++ new_items).
Proof.
  unfold load_expressions.
  induction expression_data_loaded as [|[n d] loaded IH]; intros l Hok; cbn [Append.foldlM].
  - exists []. rewrite app_nil_r. auto.
  - rewrite add_expression_item_eq. cbn [mbind result_bind fst].
    match goal with
    | |- context [Append.foldlM _ loaded (l ++ [?item])] => set (new := item)
    end.
    destruct (IH (l ++ [new])) as (items & Hrun & Hlen & Hok').
    { apply frames_ok_app_new; [reflexivity | exact Hok]. }
    exists (new :: items). rewrite Hrun. rewrite <- app_assoc in *. cbn [app] in *.
    split; [reflexivity|]. split; [cbn [length]; now rewrite Hlen | exact Hok'].
Qed.

Lemma frame_offset_after (n : nat) (frame_range_end : Q) :
  (frame_range_end == inject_Z (10 * Z.of_nat n + 1))%Q ->
  frame_offset frame_range_end = (10 * Z.of_nat n)%Z.
Proof.
  intros Hend. unfold frame_offset, py_int_float.
  assert (Hq : (frame_range_end - 1 == inject_Z (10 * Z.of_nat n))%Q).
  { rewrite Hend. rewrite inject_Z_plus. change (inject_Z 1) with 1%Q. ring. }
  destruct (Qle_bool 0 (frame_range_end - 1)).
  - rewrite (Qfloor_comp _ _ Hq). apply Qfloor_Z.
  - rewrite (Qceiling_comp _ _ Hq). apply Qceiling_Z.
Qed.

Lemma append_keyframes_both (frame_range_end : Q) (shape_action ow_action : action)
  (import_fcurves : list fcurve) :
  append_keyframes frame_range_end (Some shape_action) (Some ow_action) import_fcurves
  = (flat_map
       (fun import_fc =>
          let rows := map (fun r => (fst r + inject_Z (frame_offset frame_range_end), snd r)%Q)
                        (map co (keyframe_points import_fc)) in
          [AppendWrite ShapeAction (data_path import_fc) (array_index import_fc) rows;
           AppendWrite OverwriteAction (data_path import_fc) (array_index import_fc) rows])
       import_fcurves,
     false).
Proof.
  unfold append_keyframes.
  assert (Hgen : forall writes,
    fold_left
      (fun '(writes, warnings) import_fc =>
         let '(ws, w) := append_curve (frame_offset frame_range_end) (Some shape_action)
                           (Some ow_action) import_fc in
         (writes ++ ws, warnings || w))
      import_fcurves (writes, false)
    = (writes ++ flat_map
         (fun import_fc =>
            let rows := map (fun r => (fst r + inject_Z (frame_offset frame_range_end), snd r)%Q)
                          (map co (keyframe_points import_fc)) in
            [AppendWrite ShapeAction (data_path import_fc) (array_index import_fc) rows;
             AppendWrite OverwriteAction (data_path import_fc) (array_index import_fc) rows])
         import_fcurves, false)).
  { induction import_fcurves as [|fc fcs IH]; intros writes; cbn [fold_left flat_map].
    - now rewrite app_nil_r.
    - unfold append_curve at 2. cbn [app orb]. rewrite IH.
      unfold ExportJson.kf_data_to_numpy_array. now rewrite <- app_assoc. }
  apply Hgen.
Qed.

(** X20. The start of [FACEIT_OT_AppendActionToFaceitRig.execute] leaves
    either the method ['OVERWRITE'] with an empty list and no action, or
    the method ['APPEND'] with the list and both actions as they were, the
    list not empty.  The expressions of the file are then added behind the
    list, their frames following on in steps of ten.  In the second case,
    when the overwrite action ends on the zero frame behind the last
    expression, each curve of the temporary action is written to both
    actions, no warning is raised, and a key that was on the frame of the
    [j]-th expression of the file is written on the frame of the item added
    for it. *)
Theorem X20_append_alignment
  (get_expression_name_double_entries : string -> list expression_item -> string)
  (load_method : string) (expression_list : list expression_item)
  (shape_action ow_action : option action)
  (expression_data_loaded : list (string * expression_data))
  (frame_range_end : Q) (import_fcurves : list fcurve) :
  load_method = "APPEND" \/ load_method = "OVERWRITE" ->
  frames_ok expression_list ->
  (frame_range_end == inject_Z (10 * Z.of_nat (length expression_list) + 1))%Q ->
  let '(load_method', expression_list', shape_action', ow_action') :=
    load_method_fallback load_method expression_list shape_action ow_action in
  exists new_items,
    load_expressions get_expression_name_double_entries expression_data_loaded
      expression_list' = Ok (expression_list' ++ new_items)
    /\ length new_items = length expression_data_loaded
    /\ frames_ok (expression_list' ++ new_items)
    /\ ((load_method' = "OVERWRITE" /\ expression_list' = []
         /\ shape_action' = None /\ ow_action' = None
         /\ map frame new_items = Append.new_frames (length expression_data_loaded))
        \/ (load_method' = "APPEND" /\ expression_list' = expression_list
            /\ expression_list <> []
            /\ shape_action' = shape_action /\ ow_action' = ow_action
            /\ is_Some shape_action /\ is_Some ow_action
            /\ snd (append_keyframes frame_range_end shape_action' ow_action' import_fcurves)
               = false
            /\ (forall import_fc, In import_fc import_fcurves ->
                  forall target,
                    In (AppendWrite target (data_path import_fc) (array_index import_fc)
                          (map (fun r => (fst r + inject_Z (frame_offset frame_range_end),
                                          snd r)%Q)
                             (map co (keyframe_points import_fc))))
                       (fst (append_keyframes frame_range_end shape_action' ow_action'
                               import_fcurves)))
            /\ (forall j item, new_items !! j = Some item ->
                  frame item
                  = ((Z.of_nat j + 1) * 10 + frame_offset frame_range_end)%Z))).
Proof.
  intros Hmethod Hok Hend.
  destruct (load_method_fallback load_method expression_list shape_action ow_action)
    as [[[m' l'] sh'] ow'] eqn:Hfb.
  assert (Hcases :
    (m' = "OVERWRITE" /\ l' = [] /\ sh' = None /\ ow' = None)
    \/ (m' = "APPEND" /\ l' = expression_list /\ expression_list <> []
        /\ sh' = shape_action /\ ow' = ow_action
        /\ is_Some shape_action /\ is_Some ow_action)).
  { unfold load_method_fallback in Hfb. destruct Hmethod as [-> | ->].
    - cbn [String.eqb Ascii.eqb Bool.eqb] in Hfb.
      destruct expression_list as [|x l], shape_action as [sa|], ow_action as [oa|];
        cbn in Hfb; injection Hfb as <- <- <- <-; try (left; repeat split; reflexivity).
      right. repeat split; eauto; discriminate.
    - cbn in Hfb. injection Hfb as <- <- <- <-. left. repeat split; reflexivity. }
  assert (Hok' : frames_ok l').
  { destruct Hcases as [(_ & -> & _)|(_ & -> & _)]; [|exact Hok].
    intros k item Hk. discriminate Hk. }
  destruct (load_expressions_frames get_expression_name_double_entries
              expression_data_loaded l' Hok') as (new_items & Hrun & Hlen & Hok'').
  exists new_items. split; [exact Hrun|]. split; [exact Hlen|]. split; [exact Hok''|].
  destruct Hcases as [(-> & -> & -> & ->)|(-> & -> & Hne & -> & -> & Hsh & How)].
  - left. repeat split; try reflexivity. cbn [app] in Hok''. rewrite <- Hlen.
    unfold Append.new_frames. apply list_eq. intros k.
    change (map ?f ?l) with (f <$> l). rewrite !list_lookup_fmap.
    destruct (new_items !! k) as [item|] eqn:Hk.
    + rewrite lookup_seq_lt by (apply lookup_lt_Some in Hk; exact Hk).
      cbn. f_equal. now apply Hok''.
    + rewrite lookup_seq_ge by (apply lookup_ge_None in Hk; exact Hk). reflexivity.
  - right. destruct Hsh as [sa ->], How as [oa ->].
    rewrite append_keyframes_both. cbn [fst snd].
    repeat split; eauto.
    + intros fc Hin target. apply in_flat_map. exists fc. split; [exact Hin|].
      destruct target; [now left | right; now left].
    + intros j item Hj. rewrite (frame_offset_after _ _ Hend).
      rewrite (Hok'' (length expression_list + j)%nat item).
      * lia.
      * rewrite lookup_app_r by lia.
        now replace (length expression_list + j - length expression_list)%nat with j by lia.
Qed.

Lemma X20_append_alignment_witness :
  let l := [ExpressionItem "a" 10 "N" "NONE" EmptyString] in
  let fc := FCurve "location" 0 [Keyframe (10%Q, 1%Q) "LINEAR"] in
  exists new_items,
    load_expressions (fun n _ => n) [("b", ExpressionData None None None)] l
    = Ok (l ++ new_items)
    /\ frames_ok (l ++ new_items)
    /\ In (AppendWrite OverwriteAction "location" 0 [((10 + inject_Z (frame_offset 11))%Q, 1%Q)])
         (fst (append_keyframes 11 (Some (Action [] [])) (Some (Action [] [])) [fc])).
Proof.
  intros l fc.
  pose proof (X20_append_alignment (fun n _ => n) "APPEND" l (Some (Action [] []))
                (Some (Action [] [])) [("b", ExpressionData None None None)] 11 [fc]
                (or_introl eq_refl)) as H.
  change (load_method_fallback "APPEND" l (Some (Action [] [])) (Some (Action [] [])))
    with ("APPEND", l, Some (Action [] []), Some (Action [] [])) in H.
  cbv iota beta in H.
  destruct H as (new_items & Hrun & _ & Hok & [(Hm & _)|Happ]).
  - intros k item Hk. destruct k as [|k]; [|destruct k; discriminate Hk].
    injection Hk as <-. reflexivity.
  - reflexivity.
  - discriminate Hm.
  - destruct Happ as (_ & _ & _ & _ & _ & _ & _ & _ & Hw & _).
    exists new_items. split; [exact Hrun|]. split; [exact Hok|].
    exact (Hw fc (or_introl eq_refl) OverwriteAction).
Defined.

End AppendLoadFacts.

(** ** Importing and exporting again *)

Section ImportExport.
Import Host Append ExportJson.
Local Open Scope Q_scope.

Lemma zero_frame_not_exported (n : nat) (z : Z) :
  In z (zero_frames n) -> Qeq_bool (py_mod (inject_Z z) 10) 0 = false.
Proof.
  intros Hz. destruct (Qeq_bool (py_mod (inject_Z z) 10) 0) eqn:Hm; [|reflexivity].
  apply py_mod_10_multiple in Hm as [k Hk].
  unfold Qeq in Hk. cbn [inject_Z Qnum Qden] in Hk.
  apply In_zero_frames in Hz as (j & _ & [H|H]); lia.
Qed.

(** X21. A channel of a preset that is imported on a new curve and
    exported again: the export holds the rows of the file that lie on a
    frame that is a multiple of ten and differ from the neutral value of
    the channel; the zero keys the import adds are not exported.  So a
    file that was written by the export is read and written back as it
    is - given that populating a curve puts the rows of the array behind
    its keys and leaves its data path and index alone. *)
Theorem X21_import_then_export
  (populate : fcurve -> list (Q * Q) -> fcurve)
  (dp : string) (data_per_array_index : list (string * list (Q * Q)))
  (default : list Q) (n i : nat) (d : Q) (fcs : list fcurve) :
  (forall fc rows,
     map co (keyframe_points (populate fc rows)) = map co (keyframe_points fc) ++ rows
     /\ data_path (populate fc rows) = data_path fc
     /\ array_index (populate fc rows) = array_index fc) ->
  default !! i = Some d ->
  (0 < n)%nat ->
  find_fcurve fcs dp (Z.of_nat i) = None ->
  let rows := match od_get (pretty (Z.of_nat i)) data_per_array_index with
              | Some rows => rows
              | None => []
              end in
  let neutral : Q :=
    if PyStr.contains "scale" dp
       || (PyStr.contains "rotation_quaternion" dp && (Z.of_nat i =? 0)%Z)
    then 1 else 0 in
  exists fcs' fc,
    populate_channel populate dp data_per_array_index (Some default) (zero_frames n) fcs i
    = Ok fcs'
    /\ fcs' !! length fcs = Some fc
    /\ data_path fc = dp /\ array_index fc = Z.of_nat i
    /\ kept_keyframes fc
       = List.filter
           (fun r => Qeq_bool (py_mod (fst r) 10) 0 && negb (Qeq_bool (snd r) neutral)) rows
    /\ (Forall (fun r => Qeq_bool (py_mod (fst r) 10) 0 = true
                         /\ Qeq_bool (snd r) neutral = false) rows ->
        kept_keyframes fc = rows).
Proof.
  intros Hpop Hd Hn Hnew rows neutral. unfold populate_channel. rewrite Hnew.
  rewrite (mapM_zero_rows _ _ _ _ Hd). cbn [mbind result_bind].
  set (kf_zero_data := map (fun f => (inject_Z f, d)) (zero_frames n)).
  assert (Hzs : kf_zero_data <> []).
  { subst kf_zero_data. intros Hnil. apply map_eq_nil in Hnil.
    assert (Hin : In 11%Z (zero_frames n)).
    { apply In_zero_frames. exists 0%nat. split; [lia | left; reflexivity]. }
    rewrite Hnil in Hin. destruct Hin. }
  assert (Hstack : match od_get (pretty (Z.of_nat i)) data_per_array_index with
                   | Some ((_ :: _) as data) => vstack data kf_zero_data
                   | _ => Ok kf_zero_data
                   end = Ok (rows ++ kf_zero_data)).
  { subst rows. destruct (od_get (pretty (Z.of_nat i)) data_per_array_index) as [[|r rs]|];
      try reflexivity.
    unfold vstack. destruct kf_zero_data; [contradiction | reflexivity]. }
  rewrite Hstack. cbn [mbind result_bind].
  set (new := FCurve dp (Z.of_nat i) []).
  set (fc := set_linear (populate new (rows ++ kf_zero_data))).
  exists (alter (fun fc => set_linear (populate fc (rows ++ kf_zero_data))) (length fcs)
            (fcs ++ [new])), fc.
  split; [reflexivity|].
  destruct (Hpop new (rows ++ kf_zero_data)) as (Hco & Hdp & Hidx).
  assert (Hkept : kept_keyframes fc
                  = List.filter
                      (fun r => Qeq_bool (py_mod (fst r) 10) 0
                                && negb (Qeq_bool (snd r) neutral)) rows).
  { rewrite kept_keyframes_filter.
    assert (Hmap : map co (keyframe_points fc) = rows ++ kf_zero_data).
    { subst fc. unfold set_linear. cbn [keyframe_points].
      transitivity (map co (keyframe_points (populate new (rows ++ kf_zero_data)))).
      - rewrite map_map. apply map_ext. reflexivity.
      - rewrite Hco. reflexivity. }
    rewrite Hmap. subst fc. unfold set_linear. cbn [data_path array_index].
    rewrite Hdp, Hidx. cbn [data_path array_index new]. fold neutral.
    rewrite List.filter_app.
    assert (Hzero : List.filter
                      (fun r => Qeq_bool (py_mod (fst r) 10) 0
                                && negb (Qeq_bool (snd r) neutral)) kf_zero_data = []).
    { subst kf_zero_data.
      assert (Hgen : forall zs, (forall z, In z zs -> In z (zero_frames n)) ->
                List.filter
                  (fun r => Qeq_bool (py_mod (fst r) 10) 0
                            && negb (Qeq_bool (snd r) neutral))
                  (map (fun f => (inject_Z f, d)) zs) = []).
      { induction zs as [|z zs IH]; intros Hsub; [reflexivity|].
        cbn [map List.filter fst snd].
        rewrite (zero_frame_not_exported n z) by (apply Hsub; now left).
        cbn [andb]. apply IH. intros z' Hz'. apply Hsub. now right. }
      apply Hgen. auto. }
    now rewrite Hzero, app_nil_r. }
  split; [|split; [|split; [|split]]].
  - rewrite list_lookup_alter_eq, list_lookup_middle by reflexivity. reflexivity.
  - subst fc. unfold set_linear. cbn [data_path]. now rewrite Hdp.
  - subst fc. unfold set_linear. cbn [array_index]. now rewrite Hidx.
  - exact Hkept.
  - intros Hall. rewrite Hkept. clear -Hall. induction Hall as [|r rs [H1 H2] _ IH];
      [reflexivity|]. cbn [List.filter]. rewrite H1, H2. cbn [negb andb]. now rewrite IH.
Qed.

Lemma X21_import_then_export_witness :
  let populate := fun fc rows =>
    FCurve (data_path fc) (array_index fc)
      (keyframe_points fc ++ map (fun r => Keyframe r "BEZIER") rows) in
  exists fcs' fc,
    populate_channel populate "location" [("0", [(10, 1 # 2)])] (Some [0; 0; 0])
      (zero_frames 1) [] 0 = Ok fcs'
    /\ fcs' !! 0%nat = Some fc
    /\ kept_keyframes fc = [(10, 1 # 2)].
Proof.
  intros populate.
  destruct (X21_import_then_export populate "location" [("0", [(10, 1 # 2)])]
              [0; 0; 0] 1 0 0 [])
    as (fcs' & fc & Hrun & Hget & _ & _ & _ & Hsame).
  - intros fc rows. subst populate. cbn [keyframe_points data_path array_index].
    split; [|split; reflexivity].
    rewrite map_app, map_map. f_equal. rewrite <- (map_id rows) at 2.
    apply map_ext. reflexivity.
  - reflexivity.
  - lia.
  - reflexivity.
  - exists fcs', fc. split; [exact Hrun|]. split; [exact Hget|]. apply Hsame.
    constructor; [split; reflexivity | constructor].
Defined.

End ImportExport.

(** ** Exporting the expression list and loading it again *)

Section ExportListFacts.
Import ExprList AppendLoad ExportList.
Local Open Scope Z_scope.

Lemma od_get_app_absent {V : Type} (k : string) (d : list (string * V)) (k' : string) (v : V) :
  od_get k d = None -> k <> k' -> od_get k (d ++ [(k', v)]) = None.
Proof.
  intros Hd Hne. induction d as [|[k0 v0] d IH]; cbn [od_get app] in *.
  - destruct (String.eqb_spec k k'); [contradiction | reflexivity].
  - destruct (String.eqb k k0); [discriminate | now apply IH].
Qed.

Lemma export_expression_list_map (rig_type : string) (l : list expression_item) :
  NoDup (map name l) ->
  export_expression_list rig_type l
  = map (fun exp => (name exp,
                     ExpressionData (Some (mirror_name exp)) (Some (side exp))
                       (Some (exported_procedural rig_type exp)))) l.
Proof.
  unfold export_expression_list.
  assert (Hgen : forall d,
    NoDup (map name l) -> (forall exp, In exp l -> od_get (name exp) d = None) ->
    fold_left
      (fun expression_list_data exp =>
         od_set (name exp)
           (ExpressionData (Some (mirror_name exp)) (Some (side exp))
              (Some (exported_procedural rig_type exp))) expression_list_data) l d
    = d ++ map (fun exp => (name exp,
                            ExpressionData (Some (mirror_name exp)) (Some (side exp))
                              (Some (exported_procedural rig_type exp)))) l).
  { induction l as [|x l IH]; intros d Hnd Habs; cbn [fold_left map].
    - now rewrite app_nil_r.
    - cbn [map] in Hnd. apply NoDup_cons in Hnd as [Hx Hnd].
      rewrite od_set_absent by (apply Habs; now left).
      rewrite IH; [now rewrite <- app_assoc | exact Hnd |].
      intros exp Hexp. apply od_get_app_absent; [apply Habs; now right|].
      intros Heq. apply Hx. rewrite <- Heq. apply list_elem_of_In, in_map. exact Hexp. }
  intros Hnd. apply (Hgen [] Hnd). reflexivity.
Qed.

(** X22. The expression list written by the export and loaded again into
    an empty list comes back item for item - name, frame, side and mirror
    name - with the [procedural] entry the export wrote: ['NONE'] for a rig
    type without ['RIGIFY'] in it, and for the others the value of the item,
    ['EYEBLINKS'] taking the place of ['NONE'] for [eyeBlinkLeft] and
    [eyeBlinkRight].  This holds for a list with distinct names, frames in
    order and sides that are set, a name that is new being taken as it
    is. *)
Theorem X22_export_then_load
  (get_expression_name_double_entries : string -> list expression_item -> string)
  (rig_type : string) (expression_list : list expression_item) :
  (forall n l, ~ In n (map name l) -> get_expression_name_double_entries n l = n) ->
  NoDup (map name expression_list) ->
  frames_ok expression_list ->
  Forall (fun exp => side exp <> EmptyString) expression_list ->
  load_expressions get_expression_name_double_entries
    (export_expression_list rig_type expression_list) []
  = Ok (map (fun exp => ExpressionItem (name exp) (frame exp) (side exp)
                          (exported_procedural rig_type exp) (mirror_name exp))
          expression_list)
  /\ ((forall exp, In exp expression_list ->
         exported_procedural rig_type exp = procedural exp) ->
      load_expressions get_expression_name_double_entries
        (export_expression_list rig_type expression_list) []
      = Ok expression_list).
Proof.
  intros Hg Hnd Hok Hside.
  set (h := fun exp => ExpressionItem (name exp) (frame exp) (side exp)
                         (exported_procedural rig_type exp) (mirror_name exp)).
  assert (Hrun : load_expressions get_expression_name_double_entries
                   (export_expression_list rig_type expression_list) []
                 = Ok (map h expression_list)).
  { rewrite export_expression_list_map by exact Hnd. unfold load_expressions.
    assert (Hgen : forall l2 l1,
      expression_list = l1 ++ l2 ->
      Append.foldlM
        (fun expression_list '(expression_name, expression_data) =>
           let mirror_name := default EmptyString (ed_mirror_name expression_data) in
           let side :=
             match ed_side expression_data with
             | Some side => if String.eqb side EmptyString then "N" else side
             | None => "N"
             end in
           let procedural := default "NONE" (ed_procedural expression_data) in
           r ← add_expression_item get_expression_name_double_entries (-1) expression_name
                 side procedural mirror_name false false expression_list;
           Ok (fst r))
        (map (fun exp => (name exp,
                          ExpressionData (Some (mirror_name exp)) (Some (side exp))
                            (Some (exported_procedural rig_type exp)))) l2)
        (map h l1)
      = Ok (map h (l1 ++ l2))).
    { induction l2 as [|x l2 IH]; intros l1 Hl; cbn [map Append.foldlM].
      - now rewrite app_nil_r.
      - cbn [ed_mirror_name ed_side ed_procedural default from_option id].
        rewrite add_expression_item_eq. cbn [mbind result_bind fst].
        assert (Hx : expression_list !! length l1 = Some x).
        { rewrite Hl. now rewrite list_lookup_middle. }
        assert (Hfresh : ~ In (name x) (map name (map h l1))).
        { rewrite map_map. cbn [name h]. intros Hin.
          rewrite Hl, map_app in Hnd. cbn [map] in Hnd.
          apply NoDup_app in Hnd as (_ & Hdisj & _).
          apply (Hdisj (name x)); [now apply list_elem_of_In | left]. }
        rewrite (Hg _ _ Hfresh), length_map.
        rewrite <- (Hok _ _ Hx).
        assert (Hs : side x <> EmptyString).
        { rewrite Forall_forall in Hside. apply Hside.
          apply list_elem_of_lookup. eauto. }
        destruct (String.eqb_spec (side x) EmptyString) as [|_]; [contradiction|].
        assert (Hm : (if String.eqb (mirror_name x) EmptyString
                      then EmptyString else mirror_name x) = mirror_name x).
        { destruct (String.eqb_spec (mirror_name x) EmptyString) as [->|]; reflexivity. }
        rewrite Hm.
        change (ExpressionItem (name x) (frame x) (side x)
                  (exported_procedural rig_type x) (mirror_name x)) with (h x).
        replace (map h l1 ++ [h x]) with (map h (l1 ++ [x])) by now rewrite map_app.
        rewrite IH by (rewrite Hl, <- app_assoc; reflexivity).
        now rewrite <- app_assoc. }
    apply (Hgen expression_list []). reflexivity. }
  split; [exact Hrun|].
  intros Hproc. rewrite Hrun. f_equal. rewrite <- (map_id expression_list) at 2.
  apply map_ext_in. intros exp Hexp. subst h. cbn beta. rewrite (Hproc exp Hexp).
  destruct exp; reflexivity.
Qed.

Lemma X22_export_then_load_witness :
  let l := [ExpressionItem "eyeBlinkLeft" 10 "L" "EYEBLINKS" "eyeBlinkRight";
            ExpressionItem "jawOpen" 20 "N" "NONE" EmptyString] in
  load_expressions (fun n _ => n) (export_expression_list "RIGIFY_NEW" l) [] = Ok l.
Proof.
  intros l.
  apply (X22_export_then_load (fun n _ => n) "RIGIFY_NEW" l).
  - reflexivity.
  - apply (bool_decide_unpack _). vm_compute. exact I.
  - intros k item Hk. destruct k as [|[|k]]; cbn in Hk; try discriminate;
      injection Hk as <-; reflexivity.
  - repeat constructor; discriminate.
  - intros exp [<-|[<-|[]]]; reflexivity.
Defined.

End ExportListFacts.

(** ** Converting the rotation mode *)

Section RotationFacts.
Import Append RotationVector.
Local Open Scope Q_scope.

Lemma pretty_nat_key_inj (i j : nat) :
  pretty (Z.of_nat i) = pretty (Z.of_nat j) -> i = j.
Proof. intros H. apply Nat2Z.inj. exact (inj (pretty (A:=Z)) _ _ H). Qed.

(** The rows one frame adds: the channel [i] gets the [i]-th converted
    value, the channels the vector has no value for get nothing. *)
Lemma append_converted (frame : Q) (values : list Q) :
  forall (a : nat) (d : list (string * list (Q * Q))) (i : nat),
    od_get (pretty (Z.of_nat i))
      (fold_left (fun d '(j, value) => od_append (pretty (Z.of_nat j)) (frame, value) d)
         (imap (fun j value => ((a + j)%nat, value)) values) d)
    = if (a <=? i)%nat
      then match values !! (i - a)%nat with
           | Some value =>
               Some (default [] (od_get (pretty (Z.of_nat i)) d) ++ [(frame, value)])
           | None => od_get (pretty (Z.of_nat i)) d
           end
      else od_get (pretty (Z.of_nat i)) d.
Proof.
  induction values as [|v values IH]; intros a d i; cbn [imap fold_left].
  - destruct (a <=? i)%nat; reflexivity.
  - rewrite Nat.add_0_r.
    assert (Hext : imap ((fun j value => ((a + j)%nat, value)) ∘ S) values
                   = imap (fun j value => ((S a + j)%nat, value)) values).
    { apply imap_ext. intros j x _. cbn. f_equal. lia. }
    rewrite Hext, IH.
    destruct (Nat.leb_spec (S a) i) as [Hlt|Hge].
    + destruct (Nat.leb_spec a i) as [_|]; [|lia].
      replace (i - a)%nat with (S (i - S a)) by lia. cbn [lookup list_lookup].
      rewrite od_get_append_ne; [reflexivity|].
      intros Heq. apply pretty_nat_key_inj in Heq. lia.
    + destruct (Nat.leb_spec a i) as [Hle|Hgt].
      * assert (i = a) by lia. subst i. rewrite Nat.sub_diag. cbn [lookup list_lookup].
        apply od_get_append_eq.
      * rewrite od_get_append_ne; [reflexivity|].
        intros Heq. apply pretty_nat_key_inj in Heq. lia.
Qed.

Lemma convert_frame_eq (convert_rotation_values : list Q -> list Q) (channels : nat)
  (default : option (list Q)) (data : list (string * list (Q * Q)))
  (frame : Q) (value_dict : gmap Z Q) :
  convert_frame convert_rotation_values channels default data (frame, value_dict)
  = (rot_value ← rot_value_of channels default value_dict;
     Ok (fold_left
           (fun d '(i, value) => od_append (pretty (Z.of_nat i)) (frame, value) d)
           (imap (fun i value => (i, value)) (convert_rotation_values rot_value)) data)).
Proof. reflexivity. Qed.

(** X23. The data of a channel group after the conversion of the rotation
    mode, when every channel has a default and the conversion gives
    [new_channels] values: each of the new channels has one key for every
    frame on which some channel of the file has a key, in the order in
    which these frames come up first, and its value is that of the
    converted rotation vector of the frame.  So all new channels are keyed
    on the same frames; there is no entry for another index, and none at
    all for a file without keys. *)
Theorem X23_converted_channels (convert_rotation_values : list Q -> list Q)
  (channels new_channels : nat) (default : list Q)
  (data_per_array_index : list (string * list (Q * Q)))
  (frames_dict : list (Q * gmap Z Q)) :
  (channels <= length default)%nat ->
  (forall v, length (convert_rotation_values v) = new_channels) ->
  frames_dict_of data_per_array_index = Ok frames_dict ->
  exists converted,
    convert_rotation_data convert_rotation_values channels (Some default)
      data_per_array_index = Ok converted
    /\ forall i,
         od_get (pretty (Z.of_nat i)) converted
         = if (i <? new_channels)%nat && negb (length frames_dict =? 0)%nat
           then Some (map (fun fv =>
                             (fst fv,
                              nth i (convert_rotation_values
                                       (rot_vector channels default (snd fv))) 0))
                        frames_dict)
           else None.
Proof.
  intros Hch Hlen Hfd. unfold convert_rotation_data. rewrite Hfd. cbn [mbind result_bind].
  assert (Hgen : forall fd acc,
    exists converted,
      foldlM (convert_frame convert_rotation_values channels (Some default)) fd acc
      = Ok converted
      /\ forall i,
           od_get (pretty (Z.of_nat i)) converted
           = if (i <? new_channels)%nat && negb (length fd =? 0)%nat
             then Some (from_option id [] (od_get (pretty (Z.of_nat i)) acc)
                        ++ map (fun fv =>
                                  (fst fv,
                                   nth i (convert_rotation_values
                                            (rot_vector channels default (snd fv))) 0)) fd)
             else od_get (pretty (Z.of_nat i)) acc).
  { induction fd as [|[frame vd] fd IH]; intros acc; cbn [foldlM].
    - exists acc. split; [reflexivity|]. intros i. cbn [length Nat.eqb negb].
      now rewrite andb_false_r.
    - rewrite convert_frame_eq. rewrite (rot_value_of_spec _ _ _ Hch).
      cbn [mbind result_bind]. fold (rot_vector channels default vd).
      set (values := convert_rotation_values (rot_vector channels default vd)).
      set (acc1 := fold_left _ (imap _ values) acc).
      destruct (IH acc1) as (converted & Hrun & Hget).
      exists converted. split; [exact Hrun|]. intros i. rewrite Hget.
      assert (Hacc1 : od_get (pretty (Z.of_nat i)) acc1
                      = match values !! i with
                        | Some value =>
                            Some (from_option id [] (od_get (pretty (Z.of_nat i)) acc)
                                  ++ [(frame, value)])
                        | None => od_get (pretty (Z.of_nat i)) acc
                        end).
      { subst acc1. pose proof (append_converted frame values 0 acc i) as H.
        cbn [Nat.add Nat.leb] in H. rewrite Nat.sub_0_r in H. exact H. }
      cbn [length Nat.eqb negb map fst snd]. rewrite andb_true_r.
      destruct (Nat.ltb_spec i new_channels) as [Hi|Hi]; cbn [andb].
      + assert (Hv : values !! i = Some (nth i values 0)).
        { destruct (lookup_lt_is_Some_2 values i) as [v Hv0].
          - subst values. rewrite Hlen. exact Hi.
          - now rewrite (nth_lookup_Some _ _ 0 _ Hv0). }
        rewrite Hacc1, Hv. fold values.
        destruct fd as [|fv fd]; cbn [length Nat.eqb negb map].
        * reflexivity.
        * change (from_option id [] (Some ?x)) with x. now rewrite <- app_assoc.
      + rewrite Hacc1.
        rewrite (proj2 (lookup_ge_None values i)); [reflexivity|].
        subst values. rewrite Hlen. exact Hi. }
  destruct (Hgen frames_dict []) as (converted & Hrun & Hget).
  exists converted. split; [exact Hrun|]. intros i. rewrite Hget. reflexivity.
Qed.

Lemma X23_converted_channels_witness :
  let convert := fun v : list Q => [nth 1 v 0; nth 2 v 0; nth 3 v 0] in
  exists converted,
    convert_rotation_data convert 4 (Some [1; 0; 0; 0])
      [("1", [(10, 1 # 2); (20, 1 # 4)]); ("2", [(20, 1 # 3)])] = Ok converted
    /\ od_get "0" converted = Some [(10, 1 # 2); (20, 1 # 4)]
    /\ od_get "1" converted = Some [(10, 0); (20, 1 # 3)]
    /\ od_get "3" converted = None.
Proof.
  intros convert.
  destruct (X23_converted_channels convert 4 3 [1; 0; 0; 0]
              [("1", [(10, 1 # 2); (20, 1 # 4)]); ("2", [(20, 1 # 3)])]
              [(10, {[1%Z := 1 # 2]}); (20, <[2%Z := 1 # 3]> {[1%Z := 1 # 4]})])
    as (converted & Hrun & Hget).
  - cbn. lia.
  - reflexivity.
  - reflexivity.
  - exists converted. split; [exact Hrun|].
    split; [exact (Hget 0%nat) | split; [exact (Hget 1%nat) | exact (Hget 3%nat)]].
Defined.

End RotationFacts.

(** ** The scale of an imported action *)

Section AutoScaleFacts.
Import Append.
Local Open Scope Q_scope.

(** X25. The ['AUTO'] scale for control bones none of whose import
    dimensions is zero is, axis by axis, the dimension of the rig divided
    by the dimension in the file, and the action is scaled exactly when one
    of the three factors is not 1.  In particular an action whose file
    holds the rest positions the bones have on this rig is not scaled. *)
Theorem X25_auto_action_scale (rest_pose : gmap string (Q * Q * Q))
  (bone_dimensions_check : list pose_bone) (dx dy dz rx ry rz : Q) :
  bone_dimensions_check <> [] ->
  get_rig_dimensions bone_dimensions_check = Ok [rx; ry; rz] ->
  (get_import_rig_dimensions rest_pose bone_dimensions_check = Ok [dx; dy; dz] ->
   ~ dx == 0 -> ~ dy == 0 -> ~ dz == 0 ->
   exists scaled,
     auto_action_scale rest_pose bone_dimensions_check
     = Ok ([rx / dx; ry / dy; rz / dz], scaled)
     /\ (scaled = false <-> rx == dx /\ ry == dy /\ rz == dz))
  /\ ((forall pb, In pb bone_dimensions_check ->
         rest_pose !! pb_name pb = Some (pb_translation pb)) ->
      ~ rx == 0 -> ~ ry == 0 -> ~ rz == 0 ->
      auto_action_scale rest_pose bone_dimensions_check
      = Ok ([rx / rx; ry / ry; rz / rz], false)).
Proof.
  intros Hne Hrig.
  assert (Hgen : forall dx dy dz,
    get_import_rig_dimensions rest_pose bone_dimensions_check = Ok [dx; dy; dz] ->
    ~ dx == 0 -> ~ dy == 0 -> ~ dz == 0 ->
    exists scaled,
      auto_action_scale rest_pose bone_dimensions_check
      = Ok ([rx / dx; ry / dy; rz / dz], scaled)
      /\ (scaled = false <-> rx == dx /\ ry == dy /\ rz == dz)).
  { clear dx dy dz. intros dx dy dz Himp Hx Hy Hz.
    assert (Hbx : Qeq_bool dx 0 = false).
    { destruct (Qeq_bool dx 0) eqn:E; [apply Qeq_bool_iff in E; contradiction | reflexivity]. }
    assert (Hby : Qeq_bool dy 0 = false).
    { destruct (Qeq_bool dy 0) eqn:E; [apply Qeq_bool_iff in E; contradiction | reflexivity]. }
    assert (Hbz : Qeq_bool dz 0 = false).
    { destruct (Qeq_bool dz 0) eqn:E; [apply Qeq_bool_iff in E; contradiction | reflexivity]. }
    eexists. split.
    - apply (auto_action_scale_no_zero rest_pose bone_dimensions_check dx dy dz rx ry rz);
        assumption.
    - rewrite negb_false_iff. cbn [forallb]. rewrite andb_true_r, !andb_true_iff.
      rewrite !Qeq_bool_iff.
      assert (Hdiv : forall r d, ~ d == 0 -> (r / d == 1 <-> r == d)).
      { intros r d Hd. split; intros H.
        - rewrite <- (Qmult_1_l d), <- H. field. exact Hd.
        - rewrite H. field. exact Hd. }
      rewrite (Hdiv rx dx Hx), (Hdiv ry dy Hy), (Hdiv rz dz Hz). tauto. }
  split; [apply Hgen|].
  intros Hsame Hx Hy Hz.
  assert (Himp : get_import_rig_dimensions rest_pose bone_dimensions_check = Ok [rx; ry; rz]).
  { unfold get_import_rig_dimensions.
    rewrite (mapM_Ok _ pb_translation).
    - exact Hrig.
    - intros pb Hpb. now rewrite (Hsame pb Hpb). }
  destruct (Hgen rx ry rz Himp Hx Hy Hz) as (scaled & Hrun & Hiff).
  rewrite Hrun. do 2 f_equal. apply Hiff. repeat split; reflexivity.
Qed.

Lemma X25_auto_action_scale_witness :
  let pose_bones := [PoseBone "jaw" (0, 0, 0); PoseBone "brow" (1, 2, 3)] in
  let rest_pose : gmap string (Q * Q * Q) :=
    <["brow" := (1, 2, 3)]> {["jaw" := (0, 0, 0)]} in
  auto_action_scale rest_pose pose_bones
  = Ok ([(1 - 0) / (1 - 0); (2 - 0) / (2 - 0); (3 - 0) / (3 - 0)], false).
Proof.
  intros pose_bones rest_pose.
  destruct (X25_auto_action_scale rest_pose pose_bones 1 1 1 (1 - 0) (2 - 0) (3 - 0))
    as [_ Hsame].
  - discriminate.
  - reflexivity.
  - apply Hsame.
    + intros pb [<-|[<-|[]]]; reflexivity.
    + discriminate.
    + discriminate.
    + discriminate.
Defined.

End AutoScaleFacts.

(** ** The f-curves of an ID and of a slot *)

Section ActiveFcurvesMore.
Import Host AnimUtils.

(** X24. For an ID with an action, [get_active_animation_fcurves_from_id]
    gives what [get_fcurves_from_slot] gives for this action and the slot
    of the ID without [ensure], an exception included; and whenever it
    returns f-curves, [get_fcurves_from_slot] returns the same ones with
    [ensure] as well, the channel bag then being there. *)
Theorem X24_active_fcurves_of_slot
  (_ensure_channelbag_exists : action -> option Z -> result (list fcurve))
  (version : Z * Z * Z) (id : ID) (adt : anim_data) (a : action) :
  animation_data id = Some adt ->
  adt_action adt = Some a ->
  get_active_animation_fcurves_from_id version (Some id)
  = get_fcurves_from_slot _ensure_channelbag_exists version a (action_slot adt) false
  /\ (forall fcs,
        get_active_animation_fcurves_from_id version (Some id) = Ok fcs ->
        get_fcurves_from_slot _ensure_channelbag_exists version a (action_slot adt) true
        = Ok fcs).
Proof.
  intros Hadt Ha. unfold get_active_animation_fcurves_from_id, get_fcurves_from_slot.
  rewrite Hadt, Ha. destruct (version_ge version (4, 4, 0)%Z); [|split; auto].
  destruct (action_slot adt) as [h|]; cbn [action_get_channelbag_for_slot].
  - destruct (channelbag_of (channelbags a) h); split; auto; discriminate.
  - split; [reflexivity | discriminate].
Qed.

Lemma X24_active_fcurves_of_slot_witness :
  let fc := FCurve "location" 0 [] in
  let a := Action [] [(7%Z, [fc])] in
  get_active_animation_fcurves_from_id (4, 5, 0)%Z
    (Some (MkID (Some (AnimData (Some a) (Some 7%Z)))))
  = get_fcurves_from_slot (fun _ _ => Ok []) (4, 5, 0)%Z a (Some 7%Z) false.
Proof.
  intros fc a.
  exact (proj1 (X24_active_fcurves_of_slot (fun _ _ => Ok []) (4, 5, 0)%Z
                  (MkID (Some (AnimData (Some a) (Some 7%Z))))
                  (AnimData (Some a) (Some 7%Z)) a eq_refl eq_refl)).
Defined.

End ActiveFcurvesMore.

(** ** The mirror name and the other side *)

Section MirrorSideFacts.
Import Mirror Sides.

Lemma prefix_append (new rest : string) : String.prefix new (String.append new rest) = true.
Proof. apply String.prefix_correct. apply substring_append_l. Qed.

Lemma contains_prefix (sub s : string) :
  String.prefix sub s = true -> PyStr.contains sub s = true.
Proof. intros H. destruct s; cbn [PyStr.contains]; now rewrite H. Qed.

Lemma contains_cons (sub : string) (c : ascii) (s : string) :
  PyStr.contains sub s = true -> PyStr.contains sub (String c s) = true.
Proof. intros H. cbn [PyStr.contains]. rewrite H. apply orb_true_r. Qed.

Lemma replace_from_cons (old new : string) (c : ascii) (s : string) :
  PyStr.replace_from old new (String c s) 0
  = if String.prefix old (String c s)
    then String.append new (PyStr.replace_from old new s (String.length old - 1))
    else String c (PyStr.replace_from old new s 0).
Proof. reflexivity. Qed.

(** A name that holds [old] holds [new] once [old] is replaced. *)
Lemma contains_replace (old new s : string) :
  old <> EmptyString ->
  PyStr.contains old s = true -> PyStr.contains new (PyStr.replace s old new) = true.
Proof.
  intros Hold. unfold PyStr.replace. induction s as [|c s IH].
  - cbn [PyStr.contains]. destruct old; [contradiction | discriminate].
  - intros Hc. rewrite replace_from_cons.
    destruct (String.prefix old (String c s)) eqn:Hp.
    + apply contains_prefix, prefix_append.
    + apply contains_cons, IH. cbn [PyStr.contains] in Hc. now rewrite Hp in Hc.
Qed.

Lemma substring_full (s : string) : String.substring 0 (String.length s) s = s.
Proof. induction s as [|c s IH]; simpl; [reflexivity | now f_equal]. Qed.

Lemma substring_split (n : nat) (s : string) :
  (n <= String.length s)%nat ->
  s = String.append (String.substring 0 n s) (String.substring n (String.length s - n) s).
Proof.
  revert s. induction n as [|n IH]; intros s Hn.
  - rewrite Nat.sub_0_r, substring_full. destruct s; reflexivity.
  - destruct s as [|c s]; [cbn in Hn; lia|]. cbn [String.length] in *.
    cbn [String.substring Nat.sub]. rewrite append_cons. f_equal. apply IH. lia.
Qed.

Lemma endswith_split (s suf : string) :
  PyStr.endswith s suf = true -> exists pre, s = String.append pre suf.
Proof.
  unfold PyStr.endswith. intros H. apply andb_true_iff in H as [Hlen Heq].
  apply Nat.leb_le in Hlen. apply String.eqb_eq in Heq.
  exists (String.substring 0 (String.length s - String.length suf) s).
  pose proof (substring_split (String.length s - String.length suf) s ltac:(lia)) as Hs.
  replace (String.length s - (String.length s - String.length suf))%nat
    with (String.length suf) in Hs by lia.
  rewrite Heq in Hs. exact Hs.
Qed.

(** A name that ends with a token of one character ends with the new
    token once the token is replaced. *)
Lemma append_nil_l (t : string) : String.append EmptyString t = t.
Proof. reflexivity. Qed.

Lemma replace_suffix_1 (x : ascii) (new pre : string) :
  exists pre',
    PyStr.replace_from (String x EmptyString) new
      (String.append pre (String x EmptyString)) 0
    = String.append pre' new.
Proof.
  induction pre as [|c pre [pre' IH]].
  - exists EmptyString. rewrite !append_nil_l, replace_from_cons.
    cbn [String.prefix]. destruct (ascii_dec x x); [|contradiction].
    cbn [String.length Nat.sub PyStr.replace_from]. now rewrite append_nil_r.
  - rewrite append_cons, replace_from_cons.
    destruct (String.prefix _ _).
    + cbn [String.length Nat.sub]. rewrite IH. exists (String.append new pre').
      now rewrite append_assoc.
    + rewrite IH. exists (String c pre'). reflexivity.
Qed.

(** The same for a token of two different characters. *)
Lemma replace_suffix_2 (x y : ascii) (new : string) :
  x <> y ->
  forall n pre, (String.length pre <= n)%nat ->
    exists pre',
      PyStr.replace_from (String x (String y EmptyString)) new
        (String.append pre (String x (String y EmptyString))) 0
      = String.append pre' new.
Proof.
  intros Hxy. induction n as [|n IH]; intros pre Hlen.
  - destruct pre; [|cbn in Hlen; lia]. exists EmptyString.
    rewrite !append_nil_l, replace_from_cons. cbn [String.prefix].
    destruct (ascii_dec x x); [|contradiction]. destruct (ascii_dec y y); [|contradiction].
    cbn [String.length Nat.sub PyStr.replace_from]. now rewrite append_nil_r.
  - destruct pre as [|c pre].
    + apply (IH EmptyString). cbn. lia.
    + cbn [String.length] in Hlen. rewrite append_cons, replace_from_cons.
      destruct (String.prefix _ _) eqn:Hp.
      * cbn [String.length Nat.sub].
        destruct pre as [|c2 pre].
        -- exfalso. rewrite append_nil_l in Hp. cbn [String.prefix] in Hp.
           destruct (ascii_dec x c); [|discriminate].
           destruct (ascii_dec y x); [congruence | discriminate].
        -- rewrite append_cons. cbn [PyStr.replace_from].
           destruct (IH pre) as [pre' Hpre]; [cbn [String.length] in Hlen; lia|].
           rewrite Hpre. exists (String.append new pre'). now rewrite append_assoc.
      * destruct (IH pre) as [pre' Hpre]; [lia|].
        rewrite Hpre. exists (String c pre'). reflexivity.
Qed.

Lemma first_replace_Some test items expression_name m :
  first_replace test items expression_name = Some m ->
  exists key value,
    In (key, value) items /\ test key expression_name = true
    /\ m = PyStr.replace expression_name key value.
Proof.
  induction items as [|[key value] items IH]; cbn [first_replace]; [discriminate|].
  destruct (test key expression_name) eqn:Ht.
  - intros [= <-]. exists key, value. split; [now left | auto].
  - intros H. destruct (IH H) as (k & v & Hin & Hk & Hm). exists k, v.
    split; [now right | auto].
Qed.

Lemma endswith_replaced_1 (x : ascii) (new s : string) :
  PyStr.endswith s (String x EmptyString) = true ->
  PyStr.endswith (PyStr.replace s (String x EmptyString) new) new = true.
Proof.
  intros H. apply endswith_split in H as [pre ->]. unfold PyStr.replace.
  destruct (replace_suffix_1 x new pre) as [pre' ->]. apply endswith_append.
Qed.

Lemma endswith_replaced_2 (x y : ascii) (new s : string) :
  x <> y ->
  PyStr.endswith s (String x (String y EmptyString)) = true ->
  PyStr.endswith (PyStr.replace s (String x (String y EmptyString)) new) new = true.
Proof.
  intros Hxy H. apply endswith_split in H as [pre ->]. unfold PyStr.replace.
  destruct (replace_suffix_2 x y new Hxy (String.length pre) pre (le_n _)) as [pre' ->].
  apply endswith_append.
Qed.

(** X26. The mirror name of a name that passes the side test of ['L']
    passes the side test of ['R'], and the other way round: the token of
    the side is replaced by the token of the other side, which the mirror
    name then holds, or ends with. *)
Theorem X26_mirror_name_other_side (expression_name : string) :
  (poll_side_in_expression_name "L" expression_name = true ->
   poll_side_in_expression_name "R" (get_mirror_name "L" expression_name) = true)
  /\ (poll_side_in_expression_name "R" expression_name = true ->
      poll_side_in_expression_name "L" (get_mirror_name "R" expression_name) = true).
Proof.
  split; intros Hpoll.
  - unfold poll_side_in_expression_name in Hpoll. cbn [String.eqb Ascii.eqb Bool.eqb] in Hpoll.
    unfold get_mirror_name. cbn [String.eqb Ascii.eqb Bool.eqb]. unfold mirror_with.
    destruct (first_replace PyStr.contains mirror_sides_dict_L expression_name)
      as [m|] eqn:H1.
    + apply first_replace_Some in H1 as (key & value & Hin & Hc & ->).
      unfold poll_side_in_expression_name. cbn [String.eqb Ascii.eqb Bool.eqb].
      cbn [mirror_sides_dict_R existsb fst].
      cbv [mirror_sides_dict_L mirror_sides_dict_R In] in Hin.
      destruct Hin as [[= <- <-]|[[= <- <-]|[[= <- <-]|[]]]];
        rewrite contains_replace by (discriminate || exact Hc);
        rewrite ?orb_true_r; reflexivity.
    + apply first_replace_None in H1. rewrite H1 in Hpoll. cbn [orb] in Hpoll.
      destruct (first_replace (fun key s => PyStr.endswith s key) mirror_sides_end_L
                  expression_name) as [m|] eqn:H2.
      * apply first_replace_Some in H2 as (key & value & Hin & Hc & ->).
        unfold poll_side_in_expression_name. cbn [String.eqb Ascii.eqb Bool.eqb].
        cbn [mirror_sides_end_R existsb fst].
        cbv [mirror_sides_end_L mirror_sides_end_R In] in Hin.
        destruct Hin as [[= <- <-]|[[= <- <-]|[]]].
        -- rewrite endswith_replaced_1 by exact Hc. now rewrite orb_true_r.
        -- rewrite endswith_replaced_2 by (discriminate || exact Hc).
           now rewrite !orb_true_r.
      * apply (first_replace_None (fun key s => PyStr.endswith s key)) in H2. congruence.
  - unfold poll_side_in_expression_name in Hpoll. cbn [String.eqb Ascii.eqb Bool.eqb] in Hpoll.
    unfold get_mirror_name. cbn [String.eqb Ascii.eqb Bool.eqb]. unfold mirror_with.
    destruct (first_replace PyStr.contains mirror_sides_dict_R expression_name)
      as [m|] eqn:H1.
    + apply first_replace_Some in H1 as (key & value & Hin & Hc & ->).
      unfold poll_side_in_expression_name. cbn [String.eqb Ascii.eqb Bool.eqb].
      cbn [mirror_sides_dict_L existsb fst].
      cbv [mirror_sides_dict_L mirror_sides_dict_R In] in Hin.
      destruct Hin as [[= <- <-]|[[= <- <-]|[[= <- <-]|[]]]];
        rewrite contains_replace by (discriminate || exact Hc);
        rewrite ?orb_true_r; reflexivity.
    + apply first_replace_None in H1. rewrite H1 in Hpoll. cbn [orb] in Hpoll.
      destruct (first_replace (fun key s => PyStr.endswith s key) mirror_sides_end_R
                  expression_name) as [m|] eqn:H2.
      * apply first_replace_Some in H2 as (key & value & Hin & Hc & ->).
        unfold poll_side_in_expression_name. cbn [String.eqb Ascii.eqb Bool.eqb].
        cbn [mirror_sides_end_L existsb fst].
        cbv [mirror_sides_end_L mirror_sides_end_R In] in Hin.
        destruct Hin as [[= <- <-]|[[= <- <-]|[]]].
        -- rewrite endswith_replaced_1 by exact Hc. now rewrite orb_true_r.
        -- rewrite endswith_replaced_2 by (discriminate || exact Hc).
           now rewrite !orb_true_r.
      * apply (first_replace_None (fun key s => PyStr.endswith s key)) in H2. congruence.
Qed.

Lemma X26_mirror_name_other_side_witness :
  poll_side_in_expression_name "R" (get_mirror_name "L" "cheekRaiser_L") = true.
Proof.
  destruct (X26_mirror_name_other_side "cheekRaiser_L") as [HL _].
  apply HL. reflexivity.
Defined.

End MirrorSideFacts.

(** ** Passing an action to the objects *)

Section PopulateActionFacts.
Import Host Slots PopulateAction.
Local Open Scope Z_scope.

(** With a slot at hand every object with shape keys gets this slot, and
    the handle of the scene stays. *)
Lemma assign_objects_slot (new_api has_action : bool) (objs : list target_object)
  (slot : action_slot) (h : Z) :
  snd (assign_objects new_api has_action objs (Some slot) h) = h
  /\ forall i x,
       fst (assign_objects new_api has_action objs (Some slot) h) !! i
       = Some (Assigned (Some x)) -> x = Some slot.
Proof.
  induction objs as [|obj objs [IHh IHa]]; cbn [assign_objects].
  - split; [reflexivity|]. intros i x H. discriminate H.
  - destruct (assign_objects new_api has_action objs (Some slot) h) as [asg h'] eqn:Hrun.
    cbn [fst snd] in IHh, IHa.
    destruct (negb (has_shape_keys obj)); [|destruct (new_api && has_action)];
      cbn [fst snd]; (split; [exact IHh|]); intros [|i] x H; cbn in H;
      try discriminate; try (now apply (IHa i)).
    now injection H as <-.
Qed.

Lemma assign_objects_spec (new_api has_action : bool) (objs : list target_object) :
  forall (new_slot : option action_slot) (h : Z),
    (forall slot, new_slot = Some slot -> handle slot = h) ->
    let r := assign_objects new_api has_action objs new_slot h in
    length (fst r) = length objs
    /\ (forall i obj, objs !! i = Some obj ->
          (fst r !! i = Some Skipped <-> has_shape_keys obj = false))
    /\ (forall i slot, fst r !! i = Some (Assigned (Some (Some slot))) ->
          handle slot = snd r)
    /\ (forall i j slot x, (i <= j)%nat ->
          fst r !! i = Some (Assigned (Some (Some slot))) ->
          fst r !! j = Some (Assigned (Some x)) -> x = Some slot).
Proof.
  induction objs as [|obj objs IH]; intros new_slot h Hinv; cbn [assign_objects].
  - cbv zeta. cbn [fst snd length]. split; [reflexivity|].
    split; [intros i obj H; discriminate H|].
    split; intros i; intros; discriminate.
  - destruct (has_shape_keys obj) eqn:Hsk; cbn [negb].
    + destruct (new_api && has_action) eqn:Hapi.
      * set (st := match new_slot with
                   | None => match action_suitable_slots obj with
                             | slot :: _ => (Some slot, handle slot)
                             | [] => (None, h)
                             end
                   | Some _ => (new_slot, h)
                   end).
        assert (Hinv' : forall slot, fst st = Some slot -> handle slot = snd st).
        { subst st. destruct new_slot as [s0|]; [exact Hinv|].
          destruct (action_suitable_slots obj) as [|s1 ?]; cbn [fst snd];
            [discriminate | now intros slot [= <-]]. }
        destruct st as [ns h1]. cbn [fst snd] in Hinv'.
        specialize (IH ns h1 Hinv'). cbv zeta in IH.
        pose proof (assign_objects_slot new_api has_action objs) as Hslot.
        destruct (assign_objects new_api has_action objs ns h1) as [asg h'] eqn:Hrun.
        cbn [fst snd] in *. destruct IH as (Hlen & Hskip & Hh & Hmono).
        split; [cbn [length]; now rewrite Hlen|]. split; [|split].
        -- intros [|i] o Ho; cbn in Ho |- *.
           ++ injection Ho as <-. split; [discriminate | congruence].
           ++ now apply Hskip.
        -- intros [|i] slot H; cbn in H.
           ++ injection H as ->. specialize (Hslot slot h1). rewrite Hrun in Hslot.
              cbn [snd] in Hslot. destruct Hslot as [-> _]. now apply Hinv'.
           ++ now apply (Hh i).
        -- intros [|i] [|j] slot x Hij Hi Hj; cbn in Hi, Hj; try lia.
           ++ congruence.
           ++ injection Hi as ->. specialize (Hslot slot h1). rewrite Hrun in Hslot.
              cbn [fst] in Hslot. destruct Hslot as [_ Hall]. now apply (Hall j).
           ++ apply (Hmono i j slot x); [lia | assumption | assumption].
      * specialize (IH new_slot h Hinv). cbv zeta in IH.
        destruct (assign_objects new_api has_action objs new_slot h) as [asg h'] eqn:Hrun.
        cbn [fst snd] in *. destruct IH as (Hlen & Hskip & Hh & Hmono).
        split; [cbn [length]; now rewrite Hlen|]. split; [|split].
        -- intros [|i] o Ho; cbn in Ho |- *.
           ++ injection Ho as <-. split; [discriminate | congruence].
           ++ now apply Hskip.
        -- intros [|i] slot H; cbn in H; [discriminate | now apply (Hh i)].
        -- intros [|i] [|j] slot x Hij Hi Hj; cbn in Hi, Hj; try lia; try discriminate.
           apply (Hmono i j slot x); [lia | assumption | assumption].
    + specialize (IH new_slot h Hinv). cbv zeta in IH.
      destruct (assign_objects new_api has_action objs new_slot h) as [asg h'] eqn:Hrun.
      cbn [fst snd] in *. destruct IH as (Hlen & Hskip & Hh & Hmono).
      split; [cbn [length]; now rewrite Hlen|]. split; [|split].
      * intros [|i] o Ho; cbn in Ho |- *.
        -- injection Ho as <-. split; [intros _; exact Hsk | reflexivity].
        -- now apply Hskip.
      * intros [|i] slot H; cbn in H; [discriminate | now apply (Hh i)].
      * intros [|i] [|j] slot x Hij Hi Hj; cbn in Hi, Hj; try lia; try discriminate.
        apply (Hmono i j slot x); [lia | assumption | assumption].
Qed.

Lemma assign_objects_all (objs : list target_object) (slot : action_slot) (h : Z) :
  forall i obj, objs !! i = Some obj -> has_shape_keys obj = true ->
    fst (assign_objects true true objs (Some slot) h) !! i
    = Some (Assigned (Some (Some slot))).
Proof.
  induction objs as [|o objs IH]; intros i obj Hi Hsk; [discriminate Hi|].
  cbn [assign_objects andb].
  destruct (assign_objects true true objs (Some slot) h) as [asg h'] eqn:Hrun.
  cbn [fst] in IH. destruct i as [|i]; cbn in Hi.
  - injection Hi as ->. rewrite Hsk. reflexivity.
  - destruct (negb (has_shape_keys o)); cbn [fst]; now apply (IH i obj).
Qed.

(** X27. [FACEIT_OT_PopulateAction.execute] is cancelled when the action
    to pass is not found.  Otherwise every object with shape keys gets the
    action and the others are passed over; once an object has been given a
    slot, every later object is given the same slot, and the slot handle
    of the scene is then the handle of that slot.  On Blender 4.4 and
    later, with [activate_slot], a slot of the action whose handle is the
    one stored by [FACEIT_OT_SelectSlotMenu.execute] is given to every
    object with shape keys, the handles of the action being distinct and
    not zero. *)
Theorem X27_populate_action_slots (version : Z * Z * Z) (action_name : string)
  (actions_get : string -> option (list action_slot))
  (faceit_mocap_action : option (list action_slot))
  (faceit_objects : list target_object) :
  (forall activate_slot h,
     (if String.eqb action_name EmptyString then faceit_mocap_action
      else actions_get action_name) = None ->
     populate_action version false action_name actions_get faceit_mocap_action
       activate_slot h faceit_objects = None)
  /\ (forall remove_action activate_slot h new_action assignments h',
        populate_action version remove_action action_name actions_get faceit_mocap_action
          activate_slot h faceit_objects = Some (new_action, assignments, h') ->
        length assignments = length faceit_objects
        /\ (forall i obj, faceit_objects !! i = Some obj ->
              (assignments !! i = Some Skipped <-> has_shape_keys obj = false))
        /\ (forall i slot, assignments !! i = Some (Assigned (Some (Some slot))) ->
              handle slot = h')
        /\ (forall i j slot x, (i <= j)%nat ->
              assignments !! i = Some (Assigned (Some (Some slot))) ->
              assignments !! j = Some (Assigned (Some x)) -> x = Some slot))
  /\ (forall slots slot,
        version_ge version (4, 4, 0) = true ->
        (if String.eqb action_name EmptyString then faceit_mocap_action
         else actions_get action_name) = Some slots ->
        NoDup (map handle slots) -> In slot slots -> handle slot <> 0 ->
        exists h assignments,
          select_slot (Some slots) (py_str (handle slot)) = Ok (Some h)
          /\ populate_action version false action_name actions_get faceit_mocap_action
               true h faceit_objects = Some (Some slots, assignments, h)
          /\ forall i obj, faceit_objects !! i = Some obj -> has_shape_keys obj = true ->
               assignments !! i = Some (Assigned (Some (Some slot)))).
Proof.
  split; [|split].
  - intros activate_slot h Hnone. unfold populate_action. now rewrite Hnone.
  - intros remove_action activate_slot h new_action asg h' Hrun.
    unfold populate_action in Hrun.
    set (found := if String.eqb action_name EmptyString then faceit_mocap_action
                  else actions_get action_name) in Hrun.
    set (na := if remove_action then Some None
               else match found with Some a => Some (Some a) | None => None end) in Hrun.
    destruct na as [na'|]; [|discriminate Hrun].
    set (ns := if version_ge version (4, 4, 0) && activate_slot
               then match na' with
                    | Some a => if negb (h =? 0) then find_slot_by_handle a h else None
                    | None => None
                    end
               else None) in Hrun.
    assert (Hinv : forall slot, ns = Some slot -> handle slot = h).
    { subst ns. destruct (version_ge version (4, 4, 0) && activate_slot); [|discriminate].
      destruct na' as [a|]; [|discriminate]. destruct (negb (h =? 0)); [|discriminate].
      intros slot Hf. now apply find_slot_by_handle_Some in Hf. }
    pose proof (assign_objects_spec (version_ge version (4, 4, 0))
                  (match na' with Some _ => true | None => false end)
                  faceit_objects ns h Hinv) as Hspec.
    cbv zeta in Hspec.
    destruct (assign_objects _ _ faceit_objects ns h) as [asg0 h0].
    injection Hrun as _ <- <-. exact Hspec.
  - intros slots slot Hv Hfound Hnd Hin Hnz.
    exists (handle slot). unfold populate_action. rewrite Hfound, Hv. cbn [andb].
    destruct (Z.eqb_spec (handle slot) 0) as [|_]; [contradiction|]. cbn [negb].
    rewrite (find_slot_by_handle_NoDup slots slot Hnd Hin).
    pose proof (assign_objects_slot true true faceit_objects slot (handle slot)) as [Hh _].
    pose proof (assign_objects_all faceit_objects slot (handle slot)) as Hall.
    destruct (assign_objects true true faceit_objects (Some slot) (handle slot))
      as [asg h'] eqn:Hrun.
    cbn [fst snd] in Hh, Hall. subst h'. exists asg.
    split; [cbn [select_slot]; now rewrite py_int_py_str|].
    split; [reflexivity | exact Hall].
Qed.

Lemma X27_populate_action_slots_witness :
  let keys := ActionSlot 12 "KEY" "Keys" "KEKeys" in
  let slots := [ActionSlot 7 "OBJECT" "Rig" "OBRig"; keys] in
  let objs := [TargetObject false []; TargetObject true [keys]; TargetObject true []] in
  exists assignments,
    populate_action (4, 5, 0) false EmptyString (fun _ => None) (Some slots) true 12 objs
    = Some (Some slots, assignments, 12)
    /\ assignments !! 2%nat = Some (Assigned (Some (Some keys))).
Proof.
  intros keys slots objs.
  destruct (X27_populate_action_slots (4, 5, 0) EmptyString (fun _ => None) (Some slots) objs)
    as (_ & _ & Hsel).
  destruct (Hsel slots keys) as (h & asg & Hselect & Hrun & Hall).
  - reflexivity.
  - reflexivity.
  - apply (bool_decide_unpack _). vm_compute. exact I.
  - right. now left.
  - discriminate.
  - vm_compute in Hselect. injection Hselect as <-.
    exists asg. split; [exact Hrun|].
    apply (Hall 2%nat (TargetObject true [])); reflexivity.
Defined.

End PopulateActionFacts.

(** ** The procedural mouth-close expression *)

Section MouthCloseFacts.
Import ExprList MouthClose.
Local Open Scope Z_scope.

(** X28. [FACEIT_OT_ProceduralMouthClose.execute] on a rig with lip bones:
    when one of the two expressions is not in the list the operator raises
    [AttributeError] - the frames are read before the test of line 2385,
    which therefore never fails.  When both are there and the rig has the
    bone [jaw_master], the operator finishes, and the keys of [mouth_lock]
    sit as follows in a list with frames in order: the value 1 on the
    frame of the mouth-close expression and on the zero frame before it,
    the value 0 on the zero frame after it and ten frames before it, on
    the frame of the expression before it when there is one. *)
Theorem X28_mouth_close (pose_bones : list string) (expression_list : list expression_item)
  (jaw_open_expression mouth_close_expression : string) (is_new_rigify_rig : bool) :
  existsb (String.prefix "lip.") pose_bones = true ->
  (find_name jaw_open_expression expression_list = None
   \/ find_name mouth_close_expression expression_list = None ->
   procedural_mouth_close pose_bones expression_list jaw_open_expression
     mouth_close_expression is_new_rigify_rig = RaisedAttributeError)
  /\ (forall j k,
        find_name jaw_open_expression expression_list = Some j ->
        find_name mouth_close_expression expression_list = Some k ->
        existsb (String.eqb "jaw_master") pose_bones = true ->
        frames_ok expression_list ->
        let f := (Z.of_nat k + 1) * 10 in
        exists events,
          procedural_mouth_close pose_bones expression_list jaw_open_expression
            mouth_close_expression is_new_rigify_rig = Finished events
          /\ (forall frame value,
                In (InsertMouthLock frame value) events <->
                (value = 1%Q /\ (frame = f \/ frame = f - 9))
                \/ (value = 0%Q /\ (frame = f + 1 \/ frame = f - 10)))
          /\ In (f - 9) (Append.zero_frames (length expression_list))
          /\ In (f + 1) (Append.zero_frames (length expression_list))
          /\ (forall previous, (0 < k)%nat ->
                expression_list !! (k - 1)%nat = Some previous ->
                frame previous = f - 10)
          /\ (forall bone_name frame,
                In (InsertLocation bone_name frame) events <->
                frame = f /\ In bone_name (lip_pose_bones pose_bones is_new_rigify_rig))).
Proof.
  intros Hlip. split.
  - unfold procedural_mouth_close. rewrite Hlip. cbn [negb].
    intros [H|H]; unfold get_item; rewrite H; [reflexivity|].
    destruct (match find_name jaw_open_expression expression_list with
              | Some k => expression_list !! k
              | None => None
              end); reflexivity.
  - intros j k Hj Hk Hjaw Hok f.
    unfold procedural_mouth_close, get_item. rewrite Hlip, Hj, Hk. cbn [negb].
    destruct (find_name_Some _ _ _ Hj) as (jaw & Hjl & _).
    destruct (find_name_Some _ _ _ Hk) as (mc & Hkl & _).
    rewrite Hjl, Hkl, Hjaw.
    assert (Hf : frame mc = f) by (apply Hok; exact Hkl).
    rewrite Hf. eexists. split; [reflexivity|].
    pose proof (lookup_lt_Some _ _ _ Hkl) as Hklt.
    split; [|split; [|split; [|split]]].
    + intros fr v. unfold mouth_lock_keys. cbn [app In].
      rewrite !in_app_iff, in_map_iff. cbn [In]. split.
      * intros [H|[[(b & H & _)|[H|[]]]|[H|[H|[H|[H|[]]]]]]]; try discriminate;
          injection H as <- <-; [right|right|left|left]; split; try reflexivity; lia.
      * intros [[-> [->| ->]]|[-> [->| ->]]].
        -- right. right. right. right. right. left. f_equal; lia.
        -- right. right. right. right. left. f_equal; lia.
        -- right. right. right. left. reflexivity.
        -- right. right. left. f_equal; lia.
    + apply In_zero_frames. exists k. split; [exact Hklt | right; subst f; lia].
    + apply In_zero_frames. exists k. split; [exact Hklt | left; subst f; lia].
    + intros previous Hpos Hprev. rewrite (Hok _ _ Hprev). subst f. lia.
    + intros b fr. unfold mouth_lock_keys. cbn [app In].
      rewrite !in_app_iff, in_map_iff. cbn [In]. split.
      * intros [H|[[(b' & H & Hin)|[H|[]]]|[H|[H|[H|[H|[]]]]]]]; try discriminate.
        injection H as <- <-. split; [reflexivity | exact Hin].
      * intros [-> Hin]. right. left. left. exists b. split; [reflexivity | exact Hin].
Qed.

Lemma X28_mouth_close_witness :
  let l := [ExpressionItem "jawOpen" 10 "N" "NONE" EmptyString;
            ExpressionItem "mouthClose" 20 "N" "NONE" EmptyString] in
  procedural_mouth_close ["lip.T"; "jaw_master"] l "jawOpen" "mouthPucker" false
  = RaisedAttributeError
  /\ exists events,
       procedural_mouth_close ["lip.T"; "jaw_master"] l "jawOpen" "mouthClose" false
       = Finished events
       /\ In (InsertMouthLock 11 1%Q) events.
Proof.
  intros l. split.
  - apply (X28_mouth_close ["lip.T"; "jaw_master"] l "jawOpen" "mouthPucker" false eq_refl).
    right. reflexivity.
  - destruct (X28_mouth_close ["lip.T"; "jaw_master"] l "jawOpen" "mouthClose" false eq_refl)
      as [_ Hrun].
    destruct (Hrun 0%nat 1%nat) as (events & Hev & Hlock & _); try reflexivity.
    { intros k item Hk. destruct k as [|[|k]]; cbn in Hk; try discriminate;
        injection Hk as <-; reflexivity. }
    exists events. split; [exact Hev|]. apply Hlock. left. split; [reflexivity|].
    right. reflexivity.
Defined.

End MouthCloseFacts.
